(** * rtlcss-api: the conversion service, its options validator and its cache

    A shallow embedding of the options validator and of the conversion
    service (both in [src/services/validator.js], the second required
    as [services/convert]), of the cache ([src/services/cache.js]), of
    the application errors ([src/utils/errors.js]) and of the default
    options ([config/default.js]), with the properties of the
    conversion entry points and of their memoization layer. *)

From Stdlib Require Import ZArith List String Ascii Bool Lia.
From Stdlib Require Import DecimalString.
Import ListNotations.
Open Scope string_scope.
Open Scope Z_scope.
Set Warnings "-register-all".
Set Implicit Arguments.

(** ** JavaScript values *)

Module Js.

(** The values the service receives from a request body: the JSON
    fragment of JavaScript plus [undefined].  Numbers are the integers
    that JavaScript holds exactly and writes in decimal digits, those
    of magnitude below 2^53 (no NaN, no fractions, no exponent form);
    strings are sequences of bytes, the UTF-8 encoding of the text. *)
Inductive jsval : Type :=
| JUndefined
| JNull
| JBool (b : bool)
| JNum (n : Z)
| JStr (s : string)
| JArr (items : list jsval)
| JObj (props : list (string * jsval)).

(** The own enumerable properties of an object, in property order (see
    [assign] below); [JObj] carries them in that order, and [literal]
    builds them from the members of an object literal. *)
Definition obj : Type := list (string * jsval).

(** [!v] is [negb (truthy v)]. *)
Definition truthy (v : jsval) : bool :=
  match v with
  | JUndefined | JNull => false
  | JBool b => b
  | JNum n => negb (n =? 0)
  | JStr s => negb (String.eqb s EmptyString)
  | JArr _ | JObj _ => true
  end.

Inductive jstype : Type :=
  TUndefined | TObject | TBoolean | TNumber | TString.

Definition typeof (v : jsval) : jstype :=
  match v with
  | JUndefined => TUndefined
  | JNull | JArr _ | JObj _ => TObject
  | JBool _ => TBoolean
  | JNum _ => TNumber
  | JStr _ => TString
  end.

Definition is_string (v : jsval) : bool :=
  match v with JStr _ => true | _ => false end.

Definition is_boolean (v : jsval) : bool :=
  match v with JBool _ => true | _ => false end.

Definition is_object (v : jsval) : bool :=
  match typeof v with TObject => true | _ => false end.

(** [Array.isArray] *)
Definition isArray (v : jsval) : bool :=
  match v with JArr _ => true | _ => false end.

Definition nat_to_string (n : nat) : string :=
  NilEmpty.string_of_uint (Nat.to_uint n).

Definition Z_to_string (n : Z) : string :=
  NilZero.string_of_int (Z.to_int n).

(** *** Property order

    An object keeps its properties in the order [Object.keys] and
    [JSON.stringify] see them: array indices first, ascending, then the
    other keys in the order of their creation. *)

Definition is_digit (c : ascii) : bool :=
  let n := nat_of_ascii c in (48 <=? n)%nat && (n <=? 57)%nat.

Fixpoint all_digits (s : string) : bool :=
  match s with
  | EmptyString => true
  | String c s' => is_digit c && all_digits s'
  end.

Fixpoint digits_value (acc : N) (s : string) : N :=
  match s with
  | EmptyString => acc
  | String c s' => digits_value (acc * 10 + (N_of_ascii c - 48))%N s'
  end.

(** The canonical numeric strings below 2^32 - 1. *)
Definition array_index (k : string) : option N :=
  match k with
  | EmptyString => None
  | String c rest =>
      if all_digits k
         && (negb (Ascii.eqb c "0"%char) || String.eqb rest EmptyString)
         && (String.length k <=? 10)%nat
      then
        let n := digits_value 0%N k in
        if (n <? 4294967295)%N then Some n else None
      else None
  end.

Fixpoint has_key (k : string) (o : obj) : bool :=
  match o with
  | [] => false
  | (k', _) :: o' => String.eqb k' k || has_key k o'
  end.

(** [o[k]], [None] when the object does not own [k]. *)
Fixpoint lookup (k : string) (o : obj) : option jsval :=
  match o with
  | [] => None
  | (k', v) :: o' => if String.eqb k' k then Some v else lookup k o'
  end.

Fixpoint update (k : string) (v : jsval) (o : obj) : obj :=
  match o with
  | [] => []
  | (k', v') :: o' =>
      if String.eqb k' k then (k', v) :: o' else (k', v') :: update k v o'
  end.

Fixpoint insert_index (n : N) (k : string) (v : jsval) (o : obj) : obj :=
  match o with
  | [] => [(k, v)]
  | (k', v') :: o' =>
      match array_index k' with
      | Some m =>
          if (m <? n)%N then (k', v') :: insert_index n k v o'
          else (k, v) :: o
      | None => (k, v) :: o
      end
  end.

(** [o[k] = v] on a plain object. *)
Definition assign (o : obj) (k : string) (v : jsval) : obj :=
  if has_key k o then update k v o
  else match array_index k with
       | Some n => insert_index n k v o
       | None => (o ++ [(k, v)])%list
       end.

Definition assign_all (target source : obj) : obj :=
  fold_left (fun acc kv => assign acc (fst kv) (snd kv)) source target.

(** The object an object literal (or [JSON.parse]) builds from its
    members in textual order: a repeated key keeps its last value. *)
Definition literal (members : obj) : obj := assign_all [] members.

Fixpoint indexed {A : Type} (i : nat) (l : list A) : list (string * A) :=
  match l with
  | [] => []
  | x :: l' => (nat_to_string i, x) :: indexed (S i) l'
  end.

Fixpoint chars (s : string) : list jsval :=
  match s with
  | EmptyString => []
  | String c s' => JStr (String c EmptyString) :: chars s'
  end.

(** The own enumerable properties of a value, in property order: what
    [Object.keys] enumerates and what a spread [{...v}] copies. *)
Definition ownProps (v : jsval) : obj :=
  match v with
  | JObj props => props
  | JArr items => indexed 0 items
  | JStr s => indexed 0 (chars s)
  | _ => []
  end.

(** [Object.keys(v)] *)
Definition keys (v : jsval) : list string := map fst (ownProps v).

(** [k in v], for the keys that no prototype provides. *)
Definition has (k : string) (v : jsval) : bool := has_key k (ownProps v).

(** [v[k]], for the own enumerable properties ([length] and the
    properties of the prototypes are not among them). *)
Definition get (v : jsval) (k : string) : jsval :=
  match lookup k (ownProps v) with
  | Some x => x
  | None => JUndefined
  end.

(** [{...a, ...b}] *)
Definition spread (a b : jsval) : obj :=
  assign_all (assign_all [] (ownProps a)) (ownProps b).

(** *** JSON.stringify *)

Definition dquote : string := String (ascii_of_nat 34) EmptyString.
Definition backslash : string := String (ascii_of_nat 92) EmptyString.

Definition hex_digit (n : nat) : ascii :=
  if (n <? 10)%nat then ascii_of_nat (48 + n) else ascii_of_nat (87 + n).

Definition escape_char (c : ascii) : string :=
  let n := nat_of_ascii c in
  if (n =? 34)%nat then backslash ++ dquote
  else if (n =? 92)%nat then backslash ++ backslash
  else if (n =? 8)%nat then backslash ++ "b"
  else if (n =? 9)%nat then backslash ++ "t"
  else if (n =? 10)%nat then backslash ++ "n"
  else if (n =? 12)%nat then backslash ++ "f"
  else if (n =? 13)%nat then backslash ++ "r"
  else if (n <? 32)%nat then
    backslash ++ "u00"
      ++ String (hex_digit (n / 16)) (String (hex_digit (n mod 16)) EmptyString)
  else String c EmptyString.

Fixpoint escape (s : string) : string :=
  match s with
  | EmptyString => EmptyString
  | String c s' => escape_char c ++ escape s'
  end.

Definition quote (s : string) : string := dquote ++ escape s ++ dquote.

Fixpoint join (sep : string) (l : list string) : string :=
  match l with
  | [] => EmptyString
  | [x] => x
  | x :: l' => x ++ sep ++ join sep l'
  end.

(** [JSON.stringify(v)]; [None] is the [undefined] it returns for
    [undefined].  A member whose value is [undefined] is left out of an
    object and written [null] in an array. *)
Fixpoint stringify (v : jsval) : option string :=
  match v with
  | JUndefined => None
  | JNull => Some "null"
  | JBool true => Some "true"
  | JBool false => Some "false"
  | JNum n => Some (Z_to_string n)
  | JStr s => Some (quote s)
  | JArr items =>
      Some ("[" ++ join ","
              (map (fun x => match stringify x with
                             | Some s => s
                             | None => "null"
                             end) items) ++ "]")
  | JObj members =>
      Some ("{" ++ join ","
              (flat_map (fun kv => match stringify (snd kv) with
                                   | Some s => [quote (fst kv) ++ ":" ++ s]
                                   | None => []
                                   end) members) ++ "}")
  end.

(** *** Reading an object key by key *)

(** The value a key has after the members [o] were assigned in turn
    over the value [d]. *)
Definition overlay (o : obj) (k : string) (d : jsval) : jsval :=
  fold_left (fun acc kv => if String.eqb (fst kv) k then snd kv else acc) o d.

Definition put (k : string) (v : jsval) (kv : string * jsval)
    : string * jsval :=
  (fst kv, if String.eqb (fst kv) k then v else snd kv).

End Js.

(** ** Application errors ([src/utils/errors.js]) *)

Module Errors.

Record AppError : Type := mkAppError {
  message : string;
  statusCode : Z;
  errorCode : string;
  isOperational : bool
}.

(** [new AppError(message, statusCode, errorCode)] *)
Definition newAppError (msg : string) (status : Z) (code : string) : AppError :=
  {| message := msg; statusCode := status; errorCode := code;
     isOperational := true |}.

Definition validationError (msg code : string) : AppError :=
  newAppError msg 422 code.

Definition internal (msg code : string) : AppError :=
  newAppError msg 500 code.

End Errors.

(** ** Options validation ([src/services/validator.js]) *)

Module Validator.
Import Js Errors.

Definition allowedOptions : list string :=
  [ "autoRename"; "autoRenameStrict"; "blacklist"; "clean"; "greedy";
    "processUrls"; "stringMap"; "useCalc" ].

Definition boolOptions : list string :=
  [ "autoRename"; "autoRenameStrict"; "clean"; "greedy"; "processUrls";
    "useCalc" ].

(** [allowedOptions.includes(key)] *)
Definition includes (l : list string) (k : string) : bool :=
  existsb (String.eqb k) l.

(** [Object.keys(options).filter(key => !allowedOptions.includes(key))] *)
Definition invalidOptions (options : jsval) : list string :=
  filter (fun key => negb (includes allowedOptions key)) (keys options).

(** The loop over the boolean options: each one present must hold a
    boolean and is copied. *)
Fixpoint validateBooleans (names : list string) (options : jsval)
    (validatedOptions : obj) : AppError + obj :=
  match names with
  | [] => inr validatedOptions
  | boolOption :: rest =>
      if has boolOption options then
        if is_boolean (get options boolOption) then
          validateBooleans rest options
            (assign validatedOptions boolOption (get options boolOption))
        else
          inl (validationError
                 ("Option '" ++ boolOption ++ "' must be a boolean")
                 "INVALID_OPTION_TYPE")
      else validateBooleans rest options validatedOptions
  end.

Definition validateBlacklist (options : jsval) (validatedOptions : obj)
    : AppError + obj :=
  if has "blacklist" options then
    if negb (truthy (get options "blacklist"))
       || negb (is_object (get options "blacklist"))
    then inl (validationError "Option 'blacklist' must be an object"
                "INVALID_OPTION_TYPE")
    else inr (assign validatedOptions "blacklist" (get options "blacklist"))
  else inr validatedOptions.

Definition validateStringMap (options : jsval) (validatedOptions : obj)
    : AppError + obj :=
  if has "stringMap" options then
    if negb (isArray (get options "stringMap"))
    then inl (validationError "Option 'stringMap' must be an array"
                "INVALID_OPTION_TYPE")
    else inr (assign validatedOptions "stringMap" (get options "stringMap"))
  else inr validatedOptions.

(** [validateRtlcssOptions(options)]: [inl e] is [throw e]. *)
Definition validateRtlcssOptions (options : jsval) : AppError + obj :=
  if negb (truthy options) || negb (is_object options) then inr []
  else
    match invalidOptions options with
    | (_ :: _) as invalid =>
        inl (validationError
               ("Invalid RTLCSS options: " ++ join ", " invalid)
               "INVALID_OPTIONS")
    | [] =>
        match validateBooleans boolOptions options [] with
        | inl e => inl e
        | inr validated1 =>
            match validateBlacklist options validated1 with
            | inl e => inl e
            | inr validated2 => validateStringMap options validated2
            end
        end
    end.

(** The object [acc] holds the options [done] of [o], and no other. *)
Definition holds (o : obj) (done : list string) (acc : obj) : Prop :=
  NoDup (map fst acc)
  /\ forall k, lookup k acc = if includes done k then lookup k o else None.

End Validator.

(** ** The in-memory cache ([src/services/cache.js]) *)

Module Cache.

Section WithValue.

Variable V : Type.

(** An entry of the [Map].  [expiresAt] is a time in milliseconds, a
    finite number: [Date.now() + ttl] for a [ttl] that is finite.  The
    program stores with the default [ttl] only; an entry stored with
    the [ttl] [Infinity] or [NaN], whose [expiresAt] no comparison
    finds smaller than another, is outside this type. *)
Record Item : Type := mkItem {
  value : V;
  expiresAt : Z
}.

Record Stats : Type := mkStats {
  hits : Z;
  misses : Z;
  stored : Z;
  evicted : Z
}.

(** [this.cache] is a [Map]: its entries are kept in insertion order,
    one per key. *)
Record CacheService : Type := mkCache {
  cache : list (string * Item);
  stats : Stats
}.

Definition maxSize : Z := 1000.

Definition defaultTtl : Z := 60 * 60 * 1000.

(** The state the constructor builds. *)
Definition new : CacheService :=
  {| cache := [];
     stats := {| hits := 0; misses := 0; stored := 0; evicted := 0 |} |}.

(** *** [Map] operations *)

Fixpoint map_has (key : string) (m : list (string * Item)) : bool :=
  match m with
  | [] => false
  | (k, _) :: m' => String.eqb k key || map_has key m'
  end.

Fixpoint map_get (key : string) (m : list (string * Item)) : option Item :=
  match m with
  | [] => None
  | (k, it) :: m' => if String.eqb k key then Some it else map_get key m'
  end.

Fixpoint map_replace (key : string) (it : Item) (m : list (string * Item))
    : list (string * Item) :=
  match m with
  | [] => []
  | (k, it') :: m' =>
      if String.eqb k key then (k, it) :: m'
      else (k, it') :: map_replace key it m'
  end.

(** [Map.prototype.set]: an existing key keeps its place. *)
Definition map_set (key : string) (it : Item) (m : list (string * Item))
    : list (string * Item) :=
  if map_has key m then map_replace key it m else (m ++ [(key, it)])%list.

Fixpoint map_delete (key : string) (m : list (string * Item))
    : list (string * Item) :=
  match m with
  | [] => []
  | (k, it) :: m' =>
      if String.eqb k key then m' else (k, it) :: map_delete key m'
  end.

(** [this.cache.size] *)
Definition size (c : CacheService) : Z := Z.of_nat (List.length (cache c)).

(** *** Counters *)

Definition hit (s : Stats) : Stats :=
  {| hits := hits s + 1; misses := misses s; stored := stored s;
     evicted := evicted s |}.

Definition miss (s : Stats) : Stats :=
  {| hits := hits s; misses := misses s + 1; stored := stored s;
     evicted := evicted s |}.

Definition store (s : Stats) : Stats :=
  {| hits := hits s; misses := misses s; stored := stored s + 1;
     evicted := evicted s |}.

Definition evict (n : Z) (s : Stats) : Stats :=
  {| hits := hits s; misses := misses s; stored := stored s;
     evicted := evicted s + n |}.

(** *** [evictOldest] *)

(** [item.expiresAt < oldestExpiry], where [None] is [Infinity]. *)
Definition before (e : Z) (oldestExpiry : option Z) : bool :=
  match oldestExpiry with
  | None => true
  | Some o => e <? o
  end.

(** One turn of the loop over [this.cache.entries()]; the pair is
    [(oldestKey, oldestExpiry)], [None] being [null] and [Infinity]. *)
Definition oldest_step (acc : option string * option Z) (e : string * Item)
    : option string * option Z :=
  if before (expiresAt (snd e)) (snd acc)
  then (Some (fst e), Some (expiresAt (snd e)))
  else acc.

Definition oldest (m : list (string * Item)) : option string * option Z :=
  fold_left oldest_step m (None, None).

(** [if (oldestKey)]: [null] and the empty string are falsy. *)
Definition key_truthy (oldestKey : option string) : bool :=
  match oldestKey with
  | None => false
  | Some k => negb (String.eqb k EmptyString)
  end.

Definition evictOldest (c : CacheService) : CacheService :=
  match fst (oldest (cache c)) with
  | Some oldestKey =>
      if key_truthy (Some oldestKey)
      then {| cache := map_delete oldestKey (cache c);
              stats := evict 1 (stats c) |}
      else c
  | None => c
  end.

(** *** [set], [get], [delete], [clear]

    [now] is the value [Date.now()] returns during the call, and
    [ttl], when it is given, a finite number of milliseconds. *)

Definition set (key : string) (v : V) (ttl : option Z) (now : Z)
    (c : CacheService) : CacheService :=
  let ttl := match ttl with Some t => t | None => defaultTtl end in
  let c1 := if maxSize <=? size c then evictOldest c else c in
  let expiresAt := now + ttl in
  {| cache := map_set key {| value := v; expiresAt := expiresAt |} (cache c1);
     stats := store (stats c1) |}.

(** [get(key)]: the value returned ([None] is [null]) and the cache
    afterwards. *)
Definition get (key : string) (now : Z) (c : CacheService)
    : option V * CacheService :=
  match map_get key (cache c) with
  | None => (None, {| cache := cache c; stats := miss (stats c) |})
  | Some item =>
      if expiresAt item <? now then
        (None, {| cache := map_delete key (cache c);
                  stats := evict 1 (miss (stats c)) |})
      else (Some (value item), {| cache := cache c; stats := hit (stats c) |})
  end.

Definition delete (key : string) (c : CacheService) : bool * CacheService :=
  (map_has key (cache c), {| cache := map_delete key (cache c); stats := stats c |}).

Definition clear (c : CacheService) : CacheService :=
  {| cache := []; stats := stats c |}.

(** *** [runGarbageCollection] *)

Definition expired (now : Z) (e : string * Item) : bool :=
  expiresAt (snd e) <? now.

Definition runGarbageCollection (now : Z) (c : CacheService) : CacheService :=
  {| cache := filter (fun e => negb (expired now e)) (cache c);
     stats := evict (Z.of_nat (List.length (filter (expired now) (cache c))))
                (stats c) |}.

(** *** Predicates on the entries *)

(** The state of the loop after the entries [seen]: nothing selected
    yet, or a key of [seen] whose expiry is the least of [seen]. *)
Definition selected (seen : list (string * Item)) (acc : option string * option Z) : Prop :=
  match acc with
  | (None, None) => seen = []
  | (Some k, Some e) =>
      (exists it, In (k, it) seen /\ expiresAt it = e)
      /\ (forall k' it', In (k', it') seen -> e <= expiresAt it')
  | _ => False
  end.

(** No key of the entries is the empty string. *)
Definition keys_truthy (m : list (string * Item)) : Prop :=
  forall k, In k (map fst m) -> k <> EmptyString.

End WithValue.

Arguments new {V}.

(** *** [generateKey]

    The digest is the [crypto] module's: [md5_hex text] stands for
    [crypto.createHash('md5').update(text).digest('hex')]. *)

Section Keys.

Variable md5_hex : string -> string.

(** [generateKey(prefix, data)]; [None] is the [TypeError] that
    [update(undefined)] throws. *)
Definition generateKey (prefix : string) (data : Js.jsval) : option string :=
  match data with
  | Js.JStr s => Some (prefix ++ ":" ++ s)
  | _ =>
      match Js.stringify data with
      | Some text => Some (prefix ++ ":" ++ md5_hex text)
      | None => None
      end
  end.

End Keys.

End Cache.

(** ** The class [\s] on UTF-8 text

    A text is the sequence of the bytes of its UTF-8 encoding.  The
    class [\s] of a regular expression holds U+0009 to U+000D and
    U+0020, of one byte; U+00A0, of two; U+1680, U+2000 to U+200A,
    U+2028, U+2029, U+202F, U+205F, U+3000 and U+FEFF, of three. *)

Module Utf8.

Definition byte_is (c : ascii) (n : nat) : bool := (nat_of_ascii c =? n)%nat.

Definition is_space1 (a : ascii) : bool :=
  let n := nat_of_ascii a in
  ((9 <=? n)%nat && (n <=? 13)%nat) || (n =? 32)%nat.

Definition is_space2 (a b : ascii) : bool :=
  byte_is a 194 && byte_is b 160.

Definition is_space3 (a b c : ascii) : bool :=
  let n := nat_of_ascii c in
  (byte_is a 225 && byte_is b 154 && byte_is c 128)
  || (byte_is a 226 && byte_is b 128
      && (((128 <=? n)%nat && (n <=? 138)%nat) || (n =? 168)%nat
          || (n =? 169)%nat || (n =? 175)%nat))
  || (byte_is a 226 && byte_is b 129 && byte_is c 159)
  || (byte_is a 227 && byte_is b 128 && byte_is c 128)
  || (byte_is a 239 && byte_is b 187 && byte_is c 191).

End Utf8.

(** ** Global regular-expression replacement

    [String.prototype.replace] with the patterns of [rtlToLtr]: global,
    case-insensitive, made of literals, [\s*], one capturing
    alternation and a closing [\b].  The patterns have no flag [u]:
    a literal letter matches the two ASCII letters of either case and
    no other character, and [\b] reads the ASCII letters, the digits
    and the underscore as word characters.  Every literal starts with
    an ASCII character, whose byte occurs in no encoding of another
    character, so that a match found on the bytes is a match on the
    characters. *)

Module Regex.
Import Utf8.

Inductive atom : Type :=
| Lit (s : string)            (* a literal, letters in either case *)
| Spaces                      (* \s* *)
| Group (alts : list string)  (* (a|b|c), captured as $1 *)
| WordEnd.                    (* \b after a word character *)

Inductive piece : Type :=
| Text (s : string)
| Captured.                   (* $1 *)

Definition lower (c : ascii) : ascii :=
  let n := nat_of_ascii c in
  if (65 <=? n)%nat && (n <=? 90)%nat then ascii_of_nat (n + 32) else c.

Definition is_word (c : ascii) : bool :=
  let n := nat_of_ascii c in
  ((48 <=? n)%nat && (n <=? 57)%nat)
  || ((65 <=? n)%nat && (n <=? 90)%nat)
  || ((97 <=? n)%nat && (n <=? 122)%nat)
  || (n =? 95)%nat.

(** The text left after [lit], read without regard to case. *)
Fixpoint prefix_ci (lit s : string) : option string :=
  match lit, s with
  | EmptyString, _ => Some s
  | String _ _, EmptyString => None
  | String a lit', String b s' =>
      if Ascii.eqb (lower a) (lower b) then prefix_ci lit' s' else None
  end.

Fixpoint take (n : nat) (s : string) : string :=
  match n, s with
  | S n', String c s' => String c (take n' s')
  | _, _ => EmptyString
  end.

Section Matching.

Variable R : Type.

Definition or_else (first : option R) (second : option R) : option R :=
  match first with
  | Some r => Some r
  | None => second
  end.

(** [\s*] followed by [k]: the longest run of blanks first, then
    shorter ones. *)
Fixpoint star_ws (k : string -> option R) (s : string) : option R :=
  match s with
  | String a s1 =>
      if is_space1 a then or_else (star_ws k s1) (k s)
      else
        match s1 with
        | String b s2 =>
            if is_space2 a b then or_else (star_ws k s2) (k s)
            else
              match s2 with
              | String c s3 =>
                  if is_space3 a b c then or_else (star_ws k s3) (k s)
                  else k s
              | EmptyString => k s
              end
        | EmptyString => k s
        end
  | EmptyString => k s
  end.

Fixpoint first_alt (k : string -> option R) (alts : list string) : option R :=
  match alts with
  | [] => None
  | alt :: rest =>
      match k alt with
      | Some r => Some r
      | None => first_alt k rest
      end
  end.

End Matching.

Definition at_word_end (s : string) : bool :=
  match s with
  | EmptyString => true
  | String c _ => negb (is_word c)
  end.

(** A match of [p] at the start of [s]: the text captured by the group
    and the text left after the match. *)
Fixpoint match_here (p : list atom) (cap s : string) : option (string * string) :=
  match p with
  | [] => Some (cap, s)
  | Lit l :: p' =>
      match prefix_ci l s with
      | Some rest => match_here p' cap rest
      | None => None
      end
  | Spaces :: p' => star_ws (match_here p' cap) s
  | Group alts :: p' =>
      first_alt (fun alt =>
                   match prefix_ci alt s with
                   | Some rest => match_here p' (take (String.length alt) s) rest
                   | None => None
                   end) alts
  | WordEnd :: p' => if at_word_end s then match_here p' cap s else None
  end.

Fixpoint expand (t : list piece) (cap : string) : string :=
  match t with
  | [] => EmptyString
  | Text s :: t' => s ++ expand t' cap
  | Captured :: t' => cap ++ expand t' cap
  end.

(** The scan of a global replace: [skip] counts the characters of the
    last match still to pass over. *)
Fixpoint replace_from (p : list atom) (t : list piece) (s : string)
    (skip : nat) : string :=
  match s with
  | EmptyString => EmptyString
  | String c s' =>
      match skip with
      | S n => replace_from p t s' n
      | O =>
          match match_here p EmptyString s with
          | Some (cap, rest) =>
              match (String.length s - String.length rest)%nat with
              | O => expand t cap ++ String c (replace_from p t s' 0)
              | S n => expand t cap ++ replace_from p t s' n
              end
          | None => String c (replace_from p t s' 0)
          end
      end
  end.

(** [s.replace(/p/gi, t)] *)
Definition replace (p : list atom) (t : list piece) (s : string) : string :=
  replace_from p t s 0.

End Regex.

(** ** The conversion service ([services/convert], the second module of
    [src/services/validator.js]) *)

Module Convert.
Import Js Errors Regex.

(** [config.get('rtlcss.defaultOptions')] ([config/default.js]).  The
    configuration hands its values out frozen: the array of
    [stringMap] and the object of [blacklist] cannot be written to. *)
Definition defaultOptions : obj :=
  [ ("autoRename", JBool false);
    ("autoRenameStrict", JBool false);
    ("blacklist", JObj []);
    ("clean", JBool true);
    ("greedy", JBool false);
    ("processUrls", JBool false);
    ("stringMap", JArr []);
    ("useCalc", JBool false) ].

Record ConversionStats : Type := mkConversionStats {
  originalSize : Z;
  convertedSize : Z;
  processingTimeMs : Z;
  cached : option bool          (* [None]: the result has no such field *)
}.

Record Result : Type := mkResult {
  converted : string;
  stats : ConversionStats
}.

(** The argument object of both entry points.  [None] is an absent (or
    [null]) [filePath] or [apiKey].  [rtlcssOptions] is the value the
    caller's object has when the call is made; its arrays and objects
    are the caller's, ordinary ones that can be written to, as an
    object literal or [JSON.parse] builds them. *)
Record Args : Type := mkArgs {
  css : jsval;
  filePath : option string;
  rtlcssOptions : jsval;
  apiKey : option string
}.

(** What the clocks show during one call: [Date.now()] at the cache
    lookup and at the cache store, and the pair
    [process.hrtime(startTime)] returns. *)
Record Clock : Type := mkClock {
  now_get : Z;
  now_set : Z;
  hr_seconds : Z;
  hr_nanoseconds : Z
}.

(** What a call does to its collaborators, in order: the file system,
    the cache, the engine, the usage statistics and the monitoring
    service (whose module is not among the sources; its calls are
    recorded and return).  Times are in nanoseconds, the source's
    fractional milliseconds times 10^6. *)
Inductive event : Type :=
| ReadFile (path : string)
| CacheGet (key : string)
| CacheSet (key : string)
| Process (text : string) (options : obj)
| StatsRecord (key conversionType : string)
    (original converted elapsedNs : Z)
| MonitorConversion (conversionType : string)
    (original converted elapsedNs : Z)
| MonitorError (errorType : string).

(** What a [throw] carries: an [AppError], or an error of another
    class (of [fs], of the engine, a [TypeError]), which has neither
    [errorCode] nor [isOperational]. *)
Inductive exn : Type :=
| Thrown (e : AppError)
| Foreign.

Definition cache_t : Type := Cache.CacheService Result.

(** A computation of the service: it may throw, it changes the cache
    and it leaves a trace of events. *)
Definition M (A : Type) : Type := cache_t -> (exn + A) * cache_t * list event.

Definition ret {A : Type} (x : A) : M A := fun c => (inr x, c, []).

Definition throw {A : Type} (e : exn) : M A := fun c => (inl e, c, []).

Definition bind {A B : Type} (m : M A) (k : A -> M B) : M B :=
  fun c =>
    match m c with
    | (inl e, c1, ev1) => (inl e, c1, ev1)
    | (inr x, c1, ev1) =>
        match k x c1 with
        | (r, c2, ev2) => (r, c2, (ev1 ++ ev2)%list)
        end
    end.

Definition emit (e : event) : M unit := fun c => (inr tt, c, [e]).

Notation "x <- m ;; k" := (bind m (fun x => k))
  (at level 61, m at next level, right associativity).
Notation "m ;;; k" := (bind m (fun _ => k))
  (at level 61, right associativity).

(** [if (!v || typeof v !== 'string')] fails exactly when [v] is a
    non-empty string. *)
Definition rejected (v : jsval) : bool :=
  negb (truthy v) || negb (is_string v).

Definition text_of (v : jsval) : string :=
  match v with JStr s => s | _ => EmptyString end.

(** An optional string that is there and not empty: what [if (p)]
    tests. *)
Definition given (p : option string) : bool :=
  match p with
  | Some s => negb (String.eqb s EmptyString)
  | None => false
  end.

(** [Buffer.byteLength(s, 'utf8')] *)
Definition byteLength (s : string) : Z := Z.of_nat (String.length s).

(** [Math.round(seconds * 1000 + nanoseconds / 1000000)], for the
    nanoseconds from 0 to 999999999 that [process.hrtime] returns. *)
Definition roundedMs (seconds nanoseconds : Z) : Z :=
  seconds * 1000 + (nanoseconds + 500000) / 1000000.

Definition elapsedNs (clk : Clock) : Z :=
  hr_seconds clk * 1000000000 + hr_nanoseconds clk.

Definition conversionError : AppError :=
  internal "Error processing CSS conversion" "CONVERSION_ERROR".

(** [error.errorCode || 'CONVERSION_ERROR'] *)
Definition errorType (e : exn) : string :=
  match e with
  | Thrown a =>
      if String.eqb (errorCode a) EmptyString then "CONVERSION_ERROR"
      else errorCode a
  | Foreign => "CONVERSION_ERROR"
  end.

(** The tail of both [catch] blocks: an operational error is thrown
    again, any other is wrapped. *)
Definition rethrow (e : exn) : AppError :=
  match e with
  | Thrown a => if isOperational a then a else conversionError
  | Foreign => conversionError
  end.

(** *** The preprocessing of [rtlToLtr] *)

Definition swap3 (a b c : list atom * list piece) (s : string) : string :=
  replace (fst c) (snd c) (replace (fst b) (snd b) (replace (fst a) (snd a) s)).

Definition box : atom := Group ["margin"; "padding"; "border"].

Definition preprocess (css : string) : string :=
  let s1 :=
    swap3
      ([Lit "direction"; Spaces; Lit ":"; Spaces; Lit "rtl"; Spaces; Lit ";"],
       [Text "direction: __LTR_PLACEHOLDER__;"])
      ([Lit "direction"; Spaces; Lit ":"; Spaces; Lit "ltr"; Spaces; Lit ";"],
       [Text "direction: rtl;"])
      ([Lit "direction"; Spaces; Lit ":"; Spaces; Lit "__LTR_PLACEHOLDER__";
        Spaces; Lit ";"],
       [Text "direction: ltr;"]) css in
  let s2 :=
    swap3
      ([box; Lit "-left"], [Captured; Text "-__RIGHT_PLACEHOLDER__"])
      ([box; Lit "-right"], [Captured; Text "-left"])
      ([box; Lit "-__RIGHT_PLACEHOLDER__"], [Captured; Text "-right"]) s1 in
  let s3 :=
    swap3
      ([Lit ":"; Spaces; Lit "left"; WordEnd], [Text ": __RIGHT_PLACEHOLDER__"])
      ([Lit ":"; Spaces; Lit "right"; WordEnd], [Text ": left"])
      ([Lit ":"; Spaces; Lit "__RIGHT_PLACEHOLDER__"; WordEnd],
       [Text ": right"]) s2 in
  let s4 :=
    swap3
      ([Lit "float"; Spaces; Lit ":"; Spaces; Lit "left"; Spaces; Lit ";"],
       [Text "float: __RIGHT_PLACEHOLDER__;"])
      ([Lit "float"; Spaces; Lit ":"; Spaces; Lit "right"; Spaces; Lit ";"],
       [Text "float: left;"])
      ([Lit "float"; Spaces; Lit ":"; Spaces; Lit "__RIGHT_PLACEHOLDER__";
        Spaces; Lit ";"],
       [Text "float: right;"]) s3 in
  swap3
    ([Lit "text-align"; Spaces; Lit ":"; Spaces; Lit "left"; Spaces; Lit ";"],
     [Text "text-align: __RIGHT_PLACEHOLDER__;"])
    ([Lit "text-align"; Spaces; Lit ":"; Spaces; Lit "right"; Spaces; Lit ";"],
     [Text "text-align: left;"])
    ([Lit "text-align"; Spaces; Lit ":"; Spaces; Lit "__RIGHT_PLACEHOLDER__";
      Spaces; Lit ";"],
     [Text "text-align: right;"]) s4.

Definition invalidCss : AppError :=
  validationError "No valid CSS content provided" "INVALID_CSS".

Definition outcome : Type := (AppError + Result) * cache_t * list event.

(** A value that is a non-empty string. *)
Definition nonEmptyString (v : jsval) : Prop :=
  exists s, v = JStr s /\ s <> EmptyString.

(** The value an option has for the engine: the one given, or the
    default. *)
Definition optionValue (o : obj) (k : string) : jsval :=
  match lookup k o with
  | Some v => v
  | None => get (JObj defaultOptions) k
  end.

(** A call that gives its css as text and nothing else. *)
Definition plain (text : string) : Args :=
  {| css := JStr text; filePath := None; rtlcssOptions := JUndefined;
     apiKey := None |}.

(** [{ stringMap: [] }], built anew. *)
Definition ownStringMap : jsval := JObj [("stringMap", JArr [])].

(** A call that gives its css as text and a [stringMap] of its own. *)
Definition explicit (text : string) : Args :=
  {| css := JStr text; filePath := None; rtlcssOptions := ownStringMap;
     apiKey := None |}.

(** The text a call returns, if it returns. *)
Definition convertedText (o : outcome) : option string :=
  match fst (fst o) with
  | inr r => Some (converted r)
  | inl _ => None
  end.

(** The result object a conversion builds. *)
Definition freshResult (text out : string) (clk : Clock) (flag : option bool)
    : Result :=
  {| converted := out;
     stats := {| originalSize := byteLength text;
                 convertedSize := byteLength out;
                 processingTimeMs :=
                   roundedMs (hr_seconds clk) (hr_nanoseconds clk);
                 cached := flag |} |}.

(** The usage record a call with an [apiKey] leaves. *)
Definition usage (key : option string) (conversionType : string)
    (original converted elapsed : Z) : list event :=
  match key with
  | Some k =>
      if given (Some k)
      then [StatsRecord k conversionType original converted elapsed]
      else []
  | None => []
  end.

Section Service.

(** [rtlcss.process(css, options)], the engine the service delegates
    to; [None] is an exception of the engine (a syntax error of its
    parser, for instance), which is no [AppError].

    The engine gets the object the spread built, and may write into
    it: rtlcss completes the array [options.stringMap] in place.  Two
    option objects with equal values then differ by whose values they
    hold, the caller's or the frozen ones of the configuration, and
    the engine's third argument tells them apart: the keys whose
    values are the caller's. *)
Variable process : string -> obj -> list string -> option string.

(** The MD5 digest in hexadecimal of [crypto]. *)
Variable md5_hex : string -> string.

(** [fs.readFile(path, 'utf8')]; [None] is a rejected read. *)
Variable readFile : string -> option string.

Definition readFileM (path : string) : M jsval :=
  fun c =>
    match readFile path with
    | Some text => (inr (JStr text), c, [ReadFile path])
    | None => (inl Foreign, c, [ReadFile path])
    end.

(** [if (!css && filePath) css = await fs.readFile(filePath, 'utf8')] *)
Definition load (a : Args) : M jsval :=
  match filePath a with
  | Some path =>
      if negb (truthy (css a)) && given (Some path)
      then readFileM path
      else ret (css a)
  | None => ret (css a)
  end.

(** [if (!css || typeof css !== 'string') throw validationError(...)] *)
Definition check (v : jsval) : M string :=
  if rejected v then throw (Thrown invalidCss) else ret (text_of v).

(** [{ ...config.get('rtlcss.defaultOptions'), ...rtlcssOptions }] *)
Definition mergeOptions (rtlcssOptions : jsval) : obj :=
  spread (JObj defaultOptions) rtlcssOptions.

(** The keys under which the merged options hold the caller's own
    values, those of [rtlcssOptions], in the order of the merged
    object.  The spread copies the values of [rtlcssOptions] and, for
    the other keys, the values of the configuration, and it copies an
    array or an object by reference. *)
Definition ownKeys (rtlcssOptions : jsval) : list string :=
  filter (fun k => has k rtlcssOptions) (map fst (mergeOptions rtlcssOptions)).

(** [cacheService.generateKey('ltr2rtl', { css, options })] *)
Definition cacheKey (text : string) (options : obj) : option string :=
  Cache.generateKey md5_hex "ltr2rtl"
    (JObj [("css", JStr text); ("options", JObj options)]).

Definition makeKey (text : string) (options : obj) : M string :=
  match cacheKey text options with
  | Some key => ret key
  | None => throw Foreign
  end.

Definition cacheGet (key : string) (now : Z) : M (option Result) :=
  fun c =>
    match Cache.get key now c with
    | (r, c') => (inr r, c', [CacheGet key])
    end.

Definition cacheSet (key : string) (r : Result) (now : Z) : M unit :=
  fun c => (inr tt, Cache.set key r None now c, [CacheSet key]).

Definition runEngine (text : string) (options : obj) (own : list string)
    : M string :=
  fun c =>
    match process text options own with
    | Some out => (inr out, c, [Process text options])
    | None => (inl Foreign, c, [Process text options])
    end.

(** [if (apiKey) await statsService.recordConversion({...})] *)
Definition recordUsage (key : option string) (conversionType : string)
    (original converted elapsed : Z) : M unit :=
  match key with
  | Some k =>
      if given (Some k)
      then emit (StatsRecord k conversionType original converted elapsed)
      else ret tt
  | None => ret tt
  end.

(** The [try] block of [ltrToRtl]. *)
Definition ltrToRtl_try (a : Args) (clk : Clock) : M Result :=
  loaded <- load a ;;
  text <- check loaded ;;
  let options := mergeOptions (rtlcssOptions a) in
  key <- makeKey text options ;;
  cachedResult <- cacheGet key (now_get clk) ;;
  match cachedResult with
  | Some hit =>
      recordUsage (apiKey a) "ltr_to_rtl"
        (originalSize (stats hit)) (convertedSize (stats hit)) 0 ;;;
      ret hit
  | None =>
      let original := byteLength text in
      convertedCss <- runEngine text options (ownKeys (rtlcssOptions a)) ;;
      let convertedSz := byteLength convertedCss in
      let result :=
        {| converted := convertedCss;
           stats := {| originalSize := original;
                       convertedSize := convertedSz;
                       processingTimeMs :=
                         roundedMs (hr_seconds clk) (hr_nanoseconds clk);
                       cached := Some false |} |} in
      cacheSet key result (now_set clk) ;;;
      emit (MonitorConversion "ltr_to_rtl" original convertedSz
              (elapsedNs clk)) ;;;
      recordUsage (apiKey a) "ltr_to_rtl" original convertedSz
        (elapsedNs clk) ;;;
      ret result
  end.

(** [ltrToRtl({ css, filePath, rtlcssOptions, apiKey })]: [inl e] is a
    rejected promise. *)
Definition ltrToRtl (a : Args) (clk : Clock) (c : cache_t) : outcome :=
  match ltrToRtl_try a clk c with
  | (inr r, c', evs) => (inr r, c', evs)
  | (inl e, c', evs) =>
      (inl (rethrow e), c', (evs ++ [MonitorError (errorType e)])%list)
  end.

(** The [try] block of [rtlToLtr]. *)
Definition rtlToLtr_try (a : Args) (clk : Clock) : M Result :=
  loaded <- load a ;;
  text <- check loaded ;;
  let preprocessedCss := preprocess text in
  let options := mergeOptions (rtlcssOptions a) in
  let original := byteLength text in
  convertedCss <- runEngine preprocessedCss options
                    (ownKeys (rtlcssOptions a)) ;;
  let convertedSz := byteLength convertedCss in
  recordUsage (apiKey a) "rtl_to_ltr" original convertedSz (elapsedNs clk) ;;;
  ret {| converted := convertedCss;
         stats := {| originalSize := original;
                     convertedSize := convertedSz;
                     processingTimeMs :=
                       roundedMs (hr_seconds clk) (hr_nanoseconds clk);
                     cached := None |} |}.

(** [rtlToLtr({ css, filePath, rtlcssOptions, apiKey })] *)
Definition rtlToLtr (a : Args) (clk : Clock) (c : cache_t) : outcome :=
  match rtlToLtr_try a clk c with
  | (inr r, c', evs) => (inr r, c', evs)
  | (inl e, c', evs) => (inl (rethrow e), c', evs)
  end.

(** *** The entry points, case by case *)

(** The text a call converts: [css], or the content of the file when
    [css] is falsy and a path is given; and the error otherwise. *)
Definition input (a : Args) : (exn + string) * list event :=
  let direct :=
    if rejected (css a) then (inl (Thrown invalidCss), [])
    else (inr (text_of (css a)), []) in
  match filePath a with
  | Some path =>
      if negb (truthy (css a)) && given (Some path) then
        match readFile path with
        | Some text =>
            if rejected (JStr text)
            then (inl (Thrown invalidCss), [ReadFile path])
            else (inr text, [ReadFile path])
        | None => (inl Foreign, [ReadFile path])
        end
      else direct
  | None => direct
  end.

(** The cache key of a text and its merged options. *)
Definition fingerprint (text : string) (options : obj) : string :=
  match cacheKey text options with
  | Some key => key
  | None => EmptyString
  end.

(** [ltrToRtl], case by case. *)
Definition ltrToRtl_cases (a : Args) (clk : Clock) (c : cache_t) : outcome :=
  match input a with
  | (inl e, evs) =>
      (inl (rethrow e), c, (evs ++ [MonitorError (errorType e)])%list)
  | (inr text, evs) =>
      let options := mergeOptions (rtlcssOptions a) in
      let key := fingerprint text options in
      match Cache.get key (now_get clk) c with
      | (Some hit, c1) =>
          (inr hit, c1,
           (evs ++ CacheGet key
               :: usage (apiKey a) "ltr_to_rtl" (originalSize (stats hit))
                    (convertedSize (stats hit)) 0)%list)
      | (None, c1) =>
          match process text options (ownKeys (rtlcssOptions a)) with
          | None =>
              (inl conversionError, c1,
               (evs ++ [CacheGet key; Process text options;
                        MonitorError "CONVERSION_ERROR"])%list)
          | Some out =>
              let r := freshResult text out clk (Some false) in
              (inr r, Cache.set key r None (now_set clk) c1,
               (evs ++ CacheGet key :: Process text options :: CacheSet key
                   :: MonitorConversion "ltr_to_rtl" (byteLength text)
                        (byteLength out) (elapsedNs clk)
                   :: usage (apiKey a) "ltr_to_rtl" (byteLength text)
                        (byteLength out) (elapsedNs clk))%list)
          end
      end
  end.

(** [rtlToLtr], case by case. *)
Definition rtlToLtr_cases (a : Args) (clk : Clock) (c : cache_t) : outcome :=
  match input a with
  | (inl e, evs) => (inl (rethrow e), c, evs)
  | (inr text, evs) =>
      let options := mergeOptions (rtlcssOptions a) in
      match process (preprocess text) options (ownKeys (rtlcssOptions a)) with
      | None =>
          (inl conversionError, c,
           (evs ++ [Process (preprocess text) options])%list)
      | Some out =>
          (inr (freshResult text out clk None), c,
           (evs ++ Process (preprocess text) options
               :: usage (apiKey a) "rtl_to_ltr" (byteLength text)
                    (byteLength out) (elapsedNs clk))%list)
      end
  end.

End Service.

End Convert.

(** ** The conversion engine

    The engine is the npm package [rtlcss], which the service calls as
    [rtlcss.process] and whose code is not among the sources.  The
    definitions of this module marked as modelled from the spec stand
    for it: they follow sections 3 and 4.1 to 4.4 of the specification,
    for the rule categories listed in [ruleTable]. *)

Module Engine.
Import Js.

(** *** Text helpers *)

Fixpoint rev_onto (s acc : string) : string :=
  match s with
  | EmptyString => acc
  | String c s' => rev_onto s' (String c acc)
  end.

Definition rev (s : string) : string := rev_onto s EmptyString.

Definition is_empty (s : string) : bool :=
  match s with EmptyString => true | _ => false end.

(** The blanks of a stylesheet's syntax. *)
Definition is_space (c : ascii) : bool :=
  let n := nat_of_ascii c in
  ((9 <=? n)%nat && (n <=? 13)%nat) || (n =? 32)%nat.

(** The blanks a text starts with, and the rest. *)
Fixpoint span_ws (s : string) : string * string :=
  match s with
  | EmptyString => (EmptyString, EmptyString)
  | String c s' =>
      if is_space c
      then (String c (fst (span_ws s')), snd (span_ws s'))
      else (EmptyString, s)
  end.

(** Leading blanks, trimmed text, trailing blanks. *)
Definition trim_parts (s : string) : string * string * string :=
  let (lead, rest) := span_ws s in
  let (trail_rev, core_rev) := span_ws (rev rest) in
  (lead, rev core_rev, rev trail_rev).

Definition trim (s : string) : string := snd (fst (trim_parts s)).

(** The blank-separated components of a value; [cur] is the component
    being read, backwards. *)
Fixpoint words_from (s cur : string) : list string :=
  match s with
  | EmptyString => if is_empty cur then [] else [rev cur]
  | String c s' =>
      if is_space c then
        if is_empty cur then words_from s' EmptyString
        else rev cur :: words_from s' EmptyString
      else words_from s' (String c cur)
  end.

Definition words (s : string) : list string := words_from s EmptyString.

Definition starts_with (p s : string) : bool := String.prefix p s.

Definition ends_with (p s : string) : bool := String.prefix (rev p) (rev s).

Fixpoint contains_char (c : ascii) (s : string) : bool :=
  match s with
  | EmptyString => false
  | String d s' => Ascii.eqb c d || contains_char c s'
  end.

(** The text before the first [c] and the text after it. *)
Fixpoint split_at (c : ascii) (s : string) : option (string * string) :=
  match s with
  | EmptyString => None
  | String d s' =>
      if Ascii.eqb c d then Some (EmptyString, s')
      else match split_at c s' with
           | Some (a, b) => Some (String d a, b)
           | None => None
           end
  end.

(** [s] without its last [n] characters. *)
Definition drop_last (n : nat) (s : string) : string :=
  Regex.take (String.length s - n) s.

(** *** Data model *)

(** Modelled from the spec: the [Declaration] (section 3) of the
    engine ([rtlcss]), one [property: value] pair with the text it was
    read from. *)
Record Declaration : Type := mkDeclaration {
  property : string;
  value : string;
  raw : string
}.

(** Modelled from the spec: the modes of a [DirectiveSpan] (sections 3
    and 4.1) of the engine ([rtlcss]).  The [Raw] mode, for which the
    spec gives no marker, is left out. *)
Inductive Mode : Type := Transform | Ignore | Remove.

(** Modelled from the spec: a [RewriteRule] (section 3) of the engine
    ([rtlcss]), its match on the declaration and its [apply]. *)
Record RewriteRule : Type := mkRule {
  matches : Declaration -> bool;
  apply : Declaration -> Declaration
}.

(** *** The property rule table (section 4.2) *)

Definition with_property (d : Declaration) (p : string) : Declaration :=
  {| property := p; value := value d; raw := raw d |}.

Definition with_words (d : Declaration) (ws : list string) : Declaration :=
  {| property := property d; value := join " " ws; raw := raw d |}.

(** Modelled from the spec: row 1 of the rule table of the engine
    (section 4.2), the [-left]/[-right] suffix pairs: the suffix is
    swapped. *)
Definition suffixRule : RewriteRule :=
  {| matches := fun d =>
       ends_with "-left" (property d) || ends_with "-right" (property d);
     apply := fun d =>
       if ends_with "-left" (property d)
       then with_property d (drop_last 4 (property d) ++ "right")
       else with_property d (drop_last 5 (property d) ++ "left") |}.

Definition boxProperties : list string := ["margin"; "padding"; "border-width"].

(** Modelled from the spec: row 2 of the rule table of the engine
    (section 4.2), [margin], [padding] and [border-width] with four
    components: (top, right, bottom, left) becomes
    (top, left, bottom, right). *)
Definition boxRule : RewriteRule :=
  {| matches := fun d =>
       existsb (String.eqb (property d)) boxProperties
       && (List.length (words (value d)) =? 4)%nat;
     apply := fun d =>
       match words (value d) with
       | [t; r; b; l] => with_words d [t; l; b; r]
       | _ => d
       end |}.

Definition corners : list (string * string) :=
  [ ("border-top-left-radius", "border-top-right-radius");
    ("border-top-right-radius", "border-top-left-radius");
    ("border-bottom-left-radius", "border-bottom-right-radius");
    ("border-bottom-right-radius", "border-bottom-left-radius") ].

Fixpoint assoc (k : string) (l : list (string * string)) : option string :=
  match l with
  | [] => None
  | (a, b) :: l' => if String.eqb a k then Some b else assoc k l'
  end.

(** Modelled from the spec: row 3 of the rule table of the engine
    (section 4.2), the corner properties of the border radius: left
    and right are swapped in the name. *)
Definition cornerRule : RewriteRule :=
  {| matches := fun d =>
       match assoc (property d) corners with Some _ => true | None => false end;
     apply := fun d =>
       match assoc (property d) corners with
       | Some p => with_property d p
       | None => d
       end |}.

(** Modelled from the spec: row 4 of the rule table of the engine
    (section 4.2), [border-radius] with four components:
    (TL, TR, BR, BL) becomes (TR, TL, BL, BR). *)
Definition radiusRule : RewriteRule :=
  {| matches := fun d =>
       String.eqb (property d) "border-radius"
       && (List.length (words (value d)) =? 4)%nat;
     apply := fun d =>
       match words (value d) with
       | [tl; tr; br; bl] => with_words d [tr; tl; bl; br]
       | _ => d
       end |}.

(** Modelled from the spec: the swap of a value token of section 4.2,
    which the engine itself ([rtlcss]) performs: the components of a
    value with [a] and [b] exchanged, those inside [url(...)] left
    alone; [inside] tells whether a [url(] is open. *)
Fixpoint swap_tokens (a b : string) (inside : bool) (ws : list string)
    : list string :=
  match ws with
  | [] => []
  | w :: ws' =>
      if inside then w :: swap_tokens a b (negb (contains_char ")" w)) ws'
      else if starts_with "url(" w
      then w :: swap_tokens a b (negb (contains_char ")" w)) ws'
      else (if String.eqb w a then b else if String.eqb w b then a else w)
             :: swap_tokens a b false ws'
  end.

Fixpoint same_words (l1 l2 : list string) : bool :=
  match l1, l2 with
  | [], [] => true
  | x :: l1', y :: l2' => String.eqb x y && same_words l1' l2'
  | _, _ => false
  end.

(** Whether the value has a component that the swap of [a] and [b]
    changes. *)
Definition swaps (a b : string) (d : Declaration) : bool :=
  negb (same_words (swap_tokens a b false (words (value d)))
          (words (value d))).

(** Modelled from the spec: rows 5 and 7 of the rule table of the
    engine (section 4.2), [left] and [right] used as a value token,
    outside [url()]: the token is swapped.  The properties of row 7
    ([float], [clear], [text-align]) fall under it. *)
Definition keywordRule : RewriteRule :=
  {| matches := swaps "left" "right";
     apply := fun d =>
       with_words d (swap_tokens "left" "right" false (words (value d))) |}.

(** Modelled from the spec: row 6 of the rule table of the engine
    (section 4.2), [direction] with [ltr] or [rtl]: the token is
    swapped. *)
Definition directionRule : RewriteRule :=
  {| matches := fun d =>
       String.eqb (property d) "direction" && swaps "ltr" "rtl" d;
     apply := fun d =>
       with_words d (swap_tokens "ltr" "rtl" false (words (value d))) |}.

(** Modelled from the spec: the rule table of the engine (section 4.2)
    in its priority order, the rules on property names before those on
    value keywords.  The rows on [background-position] percentages and
    on the [translate] functions are not part of the model. *)
Definition ruleTable : list RewriteRule :=
  [ suffixRule; boxRule; cornerRule; radiusRule; keywordRule; directionRule ].

(** Modelled from the spec: the [Transform] mode of the engine's
    transformer (section 4.3): the first rule that matches is applied;
    a declaration no rule matches is left as it is. *)
Fixpoint applyRules (rules : list RewriteRule) (d : Declaration) : Declaration :=
  match rules with
  | [] => d
  | r :: rules' => if matches r d then apply r d else applyRules rules' d
  end.

(** *** The directive scanner (section 4.1) *)

Inductive stop : Type := Semi | LBrace | RBrace | Eof | BeforeComment.

(** Modelled from the spec: what the scanner of section 4.1, part of
    the engine ([rtlcss]), cuts the source text into: a comment, or a
    run of text with the delimiter that ends it. *)
Inductive token : Type :=
| Comment (body : string) (closed : bool)
| Run (text : string) (st : stop).

Definition flush (buf : string) (st : stop) : list token :=
  match st with
  | Eof | BeforeComment => if is_empty buf then [] else [Run (rev buf) st]
  | _ => [Run (rev buf) st]
  end.

(** Modelled from the spec: the scanner of the engine (section 4.1)
    splits the text at comments, braces and semicolons and rewrites no
    byte.  [buf] is the run being read, backwards; [com] is the comment
    being read, if any. *)
Fixpoint scan (s buf : string) (com : option string) : list token :=
  match s with
  | EmptyString =>
      match com with
      | Some body => [Comment (rev body) false]
      | None => flush buf Eof
      end
  | String c s' =>
      match com with
      | Some body =>
          match s' with
          | String d s'' =>
              if Ascii.eqb c "*" && Ascii.eqb d "/"
              then Comment (rev body) true :: scan s'' EmptyString None
              else scan s' buf (Some (String c body))
          | EmptyString => scan s' buf (Some (String c body))
          end
      | None =>
          if Ascii.eqb c ";" then flush buf Semi ++ scan s' EmptyString None
          else if Ascii.eqb c "{" then flush buf LBrace ++ scan s' EmptyString None
          else if Ascii.eqb c "}" then flush buf RBrace ++ scan s' EmptyString None
          else
            match s' with
            | String d s'' =>
                if Ascii.eqb c "/" && Ascii.eqb d "*"
                then flush buf BeforeComment
                       ++ scan s'' EmptyString (Some EmptyString)
                else scan s' (String c buf) None
            | EmptyString => scan s' (String c buf) None
            end
      end
  end%list.

Definition stop_text (st : stop) : string :=
  match st with
  | Semi => ";"
  | LBrace => "{"
  | RBrace => "}"
  | Eof | BeforeComment => EmptyString
  end.

(** *** The transformer (section 4.3) *)

(** Modelled from the spec: the [Declaration] (section 3) a run of
    text holds, read by the engine ([rtlcss]) at the first colon, with
    the blanks around its property and around its value. *)
Definition parseDeclaration (text : string)
    : option (Declaration * (string * string) * (string * string)) :=
  match split_at ":" text with
  | None => None
  | Some (before, after) =>
      match trim_parts before, trim_parts after with
      | (lead_p, prop, trail_p), (lead_v, val, trail_v) =>
          Some ({| property := prop; value := val; raw := text |},
                (lead_p, trail_p), (lead_v, trail_v))
      end
  end.

(** Modelled from the spec: in the engine's transformer (section 4.3)
    a declaration in [Transform] mode goes through the rule table; one
    the table leaves alone is emitted as it was read. *)
Definition transformText (text : string) : string :=
  match parseDeclaration text with
  | None => text
  | Some (d, (lead_p, trail_p), (lead_v, trail_v)) =>
      let d' := applyRules ruleTable d in
      if String.eqb (property d') (property d) && String.eqb (value d') (value d)
      then text
      else lead_p ++ property d' ++ trail_p ++ ":"
             ++ lead_v ++ value d' ++ trail_v
  end.

(** Modelled from the spec: the directive markers of section 4.1, which
    the engine ([rtlcss]) reads in comments; they are written
    [rtl:ignore], [rtl:remove] and [rtl:end] as in the repository's
    tests.  [ignore] and [remove] open a span, [end] closes the span
    opened last. *)
Definition directive (stack : list Mode) (body : string) : list Mode :=
  let name := trim body in
  if String.eqb name "rtl:ignore" then Ignore :: stack
  else if String.eqb name "rtl:remove" then Remove :: stack
  else if String.eqb name "rtl:end" then List.tl stack
  else stack.

Definition mode_of (stack : list Mode) : Mode :=
  match stack with
  | m :: _ => m
  | [] => Transform
  end.

(** Modelled from the spec: the pass of the engine over the scanned
    text (sections 4.1 and 4.3).  A marker opens a span, the end marker
    closes the span opened last, the closing brace of the rule closes
    them all; a declaration is transformed, emitted as read or dropped
    after the mode that governs it; selectors, braces and comments pass
    unchanged.  With [clean] false no marker is recognised. *)
Fixpoint emitTokens (clean : bool) (stack : list Mode) (ts : list token)
    : string :=
  match ts with
  | [] => EmptyString
  | Comment body closed :: ts' =>
      "/*" ++ body ++ (if closed then "*/" else EmptyString)
        ++ emitTokens clean (if clean then directive stack body else stack) ts'
  | Run text LBrace :: ts' => text ++ "{" ++ emitTokens clean stack ts'
  | Run text st :: ts' =>
      let stack' := match st with RBrace => [] | _ => stack end in
      match mode_of stack, contains_char ":" text with
      | Remove, true =>
          (match st with RBrace => "}" | _ => EmptyString end)
            ++ emitTokens clean stack' ts'
      | Transform, true =>
          transformText text ++ stop_text st ++ emitTokens clean stack' ts'
      | _, _ => text ++ stop_text st ++ emitTokens clean stack' ts'
      end
  end.

(** Modelled from the spec: [rtlcss.process], the engine behind both
    entry points (section 4.4), one pass of the rule table over the
    scanned text.  It reads the option [clean] and raises no error
    (section 4.1). *)
Definition process (css : string) (options : obj) : option string :=
  Some (emitTokens (truthy (get (JObj options) "clean")) []
          (scan css EmptyString None)).

(** A text without its blanks. *)
Fixpoint squeeze (s : string) : string :=
  match s with
  | EmptyString => EmptyString
  | String c s' => if is_space c then squeeze s' else String c (squeeze s')
  end.

End Engine.

(** ** Fixtures *)

Module Fixtures.
Import Js Convert.

(** The properties below hold for every digest, every file system and
    every engine.  The scenarios fix them: the digest is the text
    itself, the file system is empty or holds one stylesheet and one
    empty file, and the engine is [rtlcss] below or one that raises. *)
Definition digest (text : string) : string := text.

Definition noFile (path : string) : option string := None.

Definition files (path : string) : option string :=
  if String.eqb path "style.css" then Some ".a { float: left; }"
  else if String.eqb path "empty.css" then Some EmptyString
  else None.

Definition raising (text : string) (options : obj) (own : list string)
    : option string := None.

(** The engine of the scenarios, a stand-in for rtlcss as the service
    meets it.  Before it converts, rtlcss completes the array of
    [options.stringMap] in place with its two default maps.  The array
    the configuration hands out is frozen and the write raises a
    [TypeError]: a call that leaves [stringMap] to the defaults ends in
    an exception of the engine.  A call that brings an array of its
    own as [stringMap] is converted, as [Engine.process] does. *)
Definition rtlcss (css : string) (options : obj) (own : list string)
    : option string :=
  if existsb (String.eqb "stringMap") own then Engine.process css options
  else None.

(** One of the maps rtlcss adds. *)
Definition stringMapEntry (name : string) (search replace : list string)
    : jsval :=
  JObj [ ("name", JStr name);
         ("priority", JNum 100);
         ("exclusive", JBool false);
         ("search", JArr (map JStr search));
         ("replace", JArr (map JStr replace));
         ("options", JObj [("scope", JStr "*"); ("ignoreCase", JBool false)]) ].

Definition named (name : string) (items : list jsval) : bool :=
  existsb (fun m => match get m "name" with
                    | JStr n => String.eqb n name
                    | _ => false
                    end) items.

Definition completed (items : list jsval) : list jsval :=
  (items
     ++ (if named "left-right" items then []
         else [stringMapEntry "left-right" ["left"; "Left"; "LEFT"]
                 ["right"; "Right"; "RIGHT"]])
     ++ (if named "ltr-rtl" items then []
         else [stringMapEntry "ltr-rtl" ["ltr"; "Ltr"; "LTR"]
                 ["rtl"; "Rtl"; "RTL"]]))%list.

(** The options object of a caller once the engine has run on it: its
    [stringMap], the array the merged options share, holds the default
    maps. *)
Definition extended (rtlcssOptions : jsval) : jsval :=
  match rtlcssOptions with
  | JObj props =>
      JObj (map (fun kv =>
                   match snd kv with
                   | JArr items =>
                       if String.eqb (fst kv) "stringMap"
                       then (fst kv, JArr (completed items))
                       else kv
                   | _ => kv
                   end) props)
  | v => v
  end.

(** A call with the options object of an earlier call, as the engine
    has left it. *)
Definition reused (a : Args) : Args :=
  {| css := css a; filePath := filePath a;
     rtlcssOptions := extended (rtlcssOptions a); apiKey := apiKey a |}.



Definition clock1 : Clock :=
  {| now_get := 1000; now_set := 1003; hr_seconds := 0;
     hr_nanoseconds := 3000000 |}.

Definition clock2 : Clock :=
  {| now_get := 2000; now_set := 2001; hr_seconds := 0;
     hr_nanoseconds := 400000 |}.

Definition sheet : string := ".a { float: left; }".

(** The cache after inserting, one after the other and at the times
    [1, 2, ...], the keys [from], [from + 1], ... written in decimal. *)
Definition fill (from count : nat) (c : Cache.CacheService string)
    : Cache.CacheService string :=
  fold_left (fun acc i => Cache.set (Js.nat_to_string i) "css" None (Z.of_nat i) acc)
    (seq from count) c.

(** The cache that holds the empty key, stored first, and 999 others. *)
Definition full_cache : Cache.CacheService string :=
  fill 1 999 (Cache.set EmptyString "css" None 0 Cache.new).

End Fixtures.

(** ** Histories of cache operations *)

Module CacheOps.
Import Cache.

Section WithValue.

Variable V : Type.

(** One call of a method of the cache, with the time it is made at. *)
Inductive op : Type :=
| OpSet (key : string) (v : V) (ttl : option Z) (now : Z)
| OpGet (key : string) (now : Z)
| OpDelete (key : string)
| OpClear
| OpSweep (now : Z).

Definition step (c : CacheService V) (o : op) : CacheService V :=
  match o with
  | OpSet key v ttl now => set key v ttl now c
  | OpGet key now => snd (get key now c)
  | OpDelete key => snd (delete key c)
  | OpClear => clear c
  | OpSweep now => runGarbageCollection now c
  end.

(** The cache after the calls [ops], made in turn on [c]. *)
Definition run (ops : list op) (c : CacheService V) : CacheService V :=
  fold_left step ops c.

Definition is_get (o : op) : bool :=
  match o with OpGet _ _ => true | _ => false end.

Definition is_set (o : op) : bool :=
  match o with OpSet _ _ _ _ => true | _ => false end.

Definition gets (ops : list op) : Z :=
  Z.of_nat (List.length (filter is_get ops)).

Definition sets (ops : list op) : Z :=
  Z.of_nat (List.length (filter is_set ops)).

(** The time to live [set] gives an entry. *)
Definition ttlOf (ttl : option Z) : Z :=
  match ttl with Some t => t | None => defaultTtl end.

(** The entry [set] stores. *)
Definition entry (v : V) (ttl : option Z) (now : Z) : Item V :=
  {| value := v; expiresAt := now + ttlOf ttl |}.

(** No call of [ops] stores under the empty key. *)
Definition sets_truthy (ops : list op) : Prop :=
  Forall (fun o => match o with
                   | OpSet key _ _ _ => key <> EmptyString
                   | _ => True
                   end) ops.

(** The call [o] neither removes nor replaces the entry [it] held
    under [key] in [c]: it is no [set], [delete] or expired lookup of
    [key], no [clear], no sweep after the entry's expiry and no [set]
    on a full cache. *)
Definition spares (key : string) (it : Item V) (c : CacheService V) (o : op)
    : Prop :=
  match o with
  | OpSet k _ _ _ => k <> key /\ size c < maxSize
  | OpGet k now => k <> key \/ now <= expiresAt it
  | OpDelete k => k <> key
  | OpClear => False
  | OpSweep now => now <= expiresAt it
  end.

(** What the counters of [c] say after [g] lookups and [s] stores. *)
Definition counted (c : CacheService V) (g s : Z) : Prop :=
  hits (stats c) + misses (stats c) = g
  /\ stored (stats c) = s
  /\ 0 <= hits (stats c) /\ 0 <= misses (stats c) /\ 0 <= evicted (stats c)
  /\ size c + evicted (stats c) <= stored (stats c).

End WithValue.

Arguments OpGet {V}.
Arguments OpDelete {V}.
Arguments OpClear {V}.
Arguments OpSweep {V}.

(** [text] holds no colon. *)
Fixpoint colon_free (text : string) : bool :=
  match text with
  | EmptyString => true
  | String a rest => negb (Ascii.eqb a ":") && colon_free rest
  end.

End CacheOps.

(** ** Histories of conversions *)

Module ConvertOps.
Import Js Errors Convert.

(** The usage records among the events of a call. *)
Definition records (evs : list event) : list event :=
  filter (fun e => match e with
                   | StatsRecord _ _ _ _ _ => true
                   | _ => false
                   end) evs.

(** The reports to the monitoring service among the events. *)
Definition monitored (evs : list event) : list event :=
  filter (fun e => match e with
                   | MonitorConversion _ _ _ _ => true
                   | MonitorError _ => true
                   | _ => false
                   end) evs.

(** Whether the engine ran during the call. *)
Definition engineRan (evs : list event) : bool :=
  existsb (fun e => match e with Process _ _ => true | _ => false end) evs.

(** One call of an entry point, with what the clocks show during it. *)
Inductive call : Type :=
| ToRtl (a : Args) (clk : Clock)
| ToLtr (a : Args) (clk : Clock).

Section Service.

Variable process : string -> obj -> list string -> option string.
Variable md5_hex : string -> string.
Variable readFile : string -> option string.

Definition serve (c : cache_t) (x : call) : outcome :=
  match x with
  | ToRtl a clk => ltrToRtl process md5_hex readFile a clk c
  | ToLtr a clk => rtlToLtr process readFile a clk c
  end.

(** The cache after the calls [calls], made in turn on [c]. *)
Definition after (calls : list call) (c : cache_t) : cache_t :=
  fold_left (fun c x => snd (fst (serve c x))) calls c.

(** The entry [it] under [key] is the result of one of the [ltrToRtl]
    calls of [calls]: its key is the one of that call's input and
    options, its value the result built from the engine's output. *)
Definition storedBy (calls : list call) (key : string)
    (it : Cache.Item Result) : Prop :=
  exists a clk text out,
    In (ToRtl a clk) calls
    /\ fst (input readFile a) = inr text
    /\ key = fingerprint md5_hex text (mergeOptions (rtlcssOptions a))
    /\ process text (mergeOptions (rtlcssOptions a))
         (ownKeys (rtlcssOptions a)) = Some out
    /\ Cache.value it = freshResult text out clk (Some false).

(** What the program does to the cache of the service: it serves the
    calls of the two entry points, sweeps the expired entries on the
    timer the constructor starts, and empties the cache on
    [POST /api/admin/cache/clear].  [now] is what [Date.now()] returns
    during the sweep. *)
Inductive action : Type :=
| Serve (x : call)
| Sweep (now : Z)
| Clear.

Definition perform (c : cache_t) (act : action) : cache_t :=
  match act with
  | Serve x => snd (fst (serve c x))
  | Sweep now => Cache.runGarbageCollection now c
  | Clear => Cache.clear c
  end.

(** The cache of the service after the actions [acts]. *)
Definition reached (acts : list action) : cache_t :=
  fold_left perform acts Cache.new.

(** No [ltrToRtl] call of [calls] has the key [key] for another input
    or other options than [text] and [options]. *)
Definition unambiguous (calls : list call) (key text : string)
    (options : obj) : Prop :=
  forall a clk text',
    In (ToRtl a clk) calls ->
    fst (input readFile a) = inr text' ->
    fingerprint md5_hex text' (mergeOptions (rtlcssOptions a)) = key ->
    text' = text /\ mergeOptions (rtlcssOptions a) = options.

End Service.

End ConvertOps.

(** ** A busy service *)

Module ServiceFixtures.
Import Js Convert ConvertOps.

(** The [i]-th stylesheet, and the call that converts it at the time
    [i], with a [stringMap] of its own. *)
Definition numbered (i : nat) : string :=
  ".a" ++ nat_to_string i ++ " { float: left; }".

Definition tick (i : nat) : Clock :=
  {| now_get := Z.of_nat i; now_set := Z.of_nat i; hr_seconds := 0;
     hr_nanoseconds := 1000000 |}.

(** [count] conversions of as many stylesheets, one per millisecond. *)
Definition conversions (count : nat) : list action :=
  map (fun i => Serve (ToRtl (explicit (numbered i)) (tick i))) (seq 0 count).

End ServiceFixtures.

(** ** What the validator accepts *)

Module ValidatorOps.
Import Js Errors Validator.

(** Every key of [options] is a recognised option. *)
Definition recognised (options : jsval) : Prop :=
  forall k, In k (keys options) -> In k allowedOptions.

(** The options that are there have the type the validator asks for:
    a boolean for the six boolean options, an object for [blacklist],
    an array for [stringMap]. *)
Definition wellTyped (options : jsval) : Prop :=
  (forall k, In k boolOptions -> has k options = true ->
             is_boolean (get options k) = true)
  /\ (has "blacklist" options = true ->
      truthy (get options "blacklist") = true
      /\ is_object (get options "blacklist") = true)
  /\ (has "stringMap" options = true ->
      isArray (get options "stringMap") = true).

(** [if (!options || typeof options !== 'object')] *)
Definition noObject (options : jsval) : bool :=
  negb (truthy options) || negb (is_object options).

End ValidatorOps.

(** ** The usage statistics ([services/stats.js]) *)

Module StatsService.

(** The two values of [conversionType] the conversion service
    passes. *)
Inductive ConversionType : Type := ltr_to_rtl | rtl_to_ltr.

(** An entry of [history].  The processing time is in nanoseconds, the
    source's fractional milliseconds times 10^6. *)
Record HistoryEntry : Type := mkHistoryEntry {
  timestamp : Z;
  entryType : ConversionType;
  entryOriginalSize : Z;
  entryConvertedSize : Z;
  entryProcessingTime : Z
}.

(** The statistics of one API key; [lastUsed] is [None] for [null]. *)
Record KeyStats : Type := mkKeyStats {
  totalConversions : Z;
  totalProcessingTime : Z;
  totalOriginalSize : Z;
  totalConvertedSize : Z;
  ltrToRtlCount : Z;      (* [conversionsByType.ltr_to_rtl] *)
  rtlToLtrCount : Z;      (* [conversionsByType.rtl_to_ltr] *)
  lastUsed : option Z;
  history : list HistoryEntry
}.

(** [usageStats], a [Map] from API keys: entries in insertion order,
    one per key. *)
Definition usageStats : Type := list (string * KeyStats).

Definition initial : KeyStats :=
  {| totalConversions := 0; totalProcessingTime := 0;
     totalOriginalSize := 0; totalConvertedSize := 0;
     ltrToRtlCount := 0; rtlToLtrCount := 0;
     lastUsed := None; history := [] |}.

Fixpoint map_get (key : string) (m : usageStats) : option KeyStats :=
  match m with
  | [] => None
  | (k, s) :: m' => if String.eqb k key then Some s else map_get key m'
  end.

(** [Map.prototype.set]: an existing key keeps its place. *)
Fixpoint map_set (key : string) (s : KeyStats) (m : usageStats)
    : usageStats :=
  match m with
  | [] => [(key, s)]
  | (k, s') :: m' =>
      if String.eqb k key then (k, s) :: m' else (k, s') :: map_set key s m'
  end.

(** The argument of [recordConversion], with the two readings of the
    clock the call makes ([lastUsed], then the [timestamp] of the
    history entry). *)
Record Conversion : Type := mkConversion {
  apiKey : string;
  conversionType : ConversionType;
  originalSize : Z;
  convertedSize : Z;
  processingTime : Z;
  usedAt : Z;
  loggedAt : Z
}.

Definition entryOf (r : Conversion) : HistoryEntry :=
  {| timestamp := loggedAt r; entryType := conversionType r;
     entryOriginalSize := originalSize r;
     entryConvertedSize := convertedSize r;
     entryProcessingTime := processingTime r |}.

(** [stats.history.unshift(entry)], then
    [if (stats.history.length > 100) stats.history = stats.history.slice(0, 100)] *)
Definition pushHistory (e : HistoryEntry) (h : list HistoryEntry)
    : list HistoryEntry :=
  let h1 := e :: h in
  if (100 <? List.length h1)%nat then firstn 100 h1 else h1.

(** [recordConversion({ apiKey, conversionType, originalSize,
    convertedSize, processingTimeMs })] *)
Definition recordConversion (r : Conversion) (m : usageStats) : usageStats :=
  let m1 :=
    match map_get (apiKey r) m with
    | Some _ => m
    | None => map_set (apiKey r) initial m
    end in
  match map_get (apiKey r) m1 with
  | Some stats =>
      map_set (apiKey r)
        {| totalConversions := totalConversions stats + 1;
           totalProcessingTime := totalProcessingTime stats + processingTime r;
           totalOriginalSize := totalOriginalSize stats + originalSize r;
           totalConvertedSize := totalConvertedSize stats + convertedSize r;
           ltrToRtlCount :=
             match conversionType r with
             | ltr_to_rtl => ltrToRtlCount stats + 1
             | rtl_to_ltr => ltrToRtlCount stats
             end;
           rtlToLtrCount :=
             match conversionType r with
             | ltr_to_rtl => rtlToLtrCount stats
             | rtl_to_ltr => rtlToLtrCount stats + 1
             end;
           lastUsed := Some (usedAt r);
           history := pushHistory (entryOf r) (history stats) |} m1
  | None => m1
  end.

(** The statistics after the conversions [rs], recorded in turn. *)
Definition recordAll (rs : list Conversion) (m : usageStats) : usageStats :=
  fold_left (fun m r => recordConversion r m) rs m.

(** The conversions of [rs] made with the key [key]. *)
Definition ofKey (key : string) (rs : list Conversion) : list Conversion :=
  filter (fun r => String.eqb (apiKey r) key) rs.

Definition total (f : Conversion -> Z) (rs : list Conversion) : Z :=
  fold_right (fun r acc => f r + acc) 0 rs.

Definition isLtrToRtl (r : Conversion) : bool :=
  match conversionType r with ltr_to_rtl => true | rtl_to_ltr => false end.

(** What the statistics of a key say after the conversions [rs] of
    that key. *)
Definition summary (rs : list Conversion) (s : KeyStats) : Prop :=
  totalConversions s = Z.of_nat (List.length rs)
  /\ totalOriginalSize s = total originalSize rs
  /\ totalConvertedSize s = total convertedSize rs
  /\ ltrToRtlCount s = Z.of_nat (List.length (filter isLtrToRtl rs))
  /\ ltrToRtlCount s + rtlToLtrCount s = totalConversions s
  /\ history s = firstn 100 (rev (map entryOf rs))
  /\ lastUsed s = option_map usedAt (last (map Some rs) None).

End StatsService.

(** ** The conversion routes ([routes/convert.js]) *)

Module Route.
Import Js Errors Convert.

(** What the handler reads of the request: the path of the uploaded
    file ([req.file.path], [None] without an upload), [req.body.css],
    [req.body.options] and the [req.apiKey] the authentication has
    set. *)
Record Request : Type := mkRequest {
  file : option string;
  bodyCss : jsval;
  bodyOptions : jsval;
  reqApiKey : option string
}.

(** How a handler ends: [next(error)], or [res.json] with the result
    as [data]. *)
Inductive response : Type :=
| Next (e : exn)
| Json (r : Result).

Definition routeOutcome : Type := response * cache_t * list event.

Definition badRequest (msg code : string) : AppError :=
  newAppError msg 400 code.

Definition noContent : AppError :=
  badRequest
    "No CSS content provided. Please upload a file or provide CSS text in the request body."
    "NO_CSS_CONTENT".

Definition invalidFormat : AppError :=
  validationError "Invalid options format" "INVALID_OPTIONS_FORMAT".

Definition tooManyRequests (msg code : string) : AppError :=
  newAppError msg 429 code.

(** The two numbers the configuration puts into the messages, as
    JavaScript writes them:
    [config.get('upload.limits.fileSize') / (1024 * 1024)] and
    [Math.ceil(config.get('rateLimit.windowMs') / 60000)]. *)
Record Limits : Type := mkLimits {
  maxMegabytes : string;
  windowMinutes : string
}.

(** The limits of [config/default.js] when the environment sets
    none. *)
Definition defaultLimits : Limits :=
  {| maxMegabytes := "10"; windowMinutes := "15" |}.

(** The error of the [handler] of [generalLimiter]. *)
Definition rateLimitExceeded (cfg : Limits) : AppError :=
  tooManyRequests
    ("Too many requests from this IP. Please try again after "
       ++ windowMinutes cfg ++ " minutes.")
    "RATE_LIMIT_EXCEEDED".

(** [config.get('upload.allowedMimeTypes')] *)
Definition allowedMimeTypes : list string := ["text/css"; "text/plain"].

Definition invalidFileType : AppError :=
  badRequest
    ("Invalid file type. Allowed types: " ++ join ", " allowedMimeTypes)
    "INVALID_FILE_TYPE".

(** [fileFilter]: [None] is [cb(null, true)], and the error is the one
    passed to [cb]. *)
Definition fileFilter (mimetype : string) : option AppError :=
  if Validator.includes allowedMimeTypes mimetype then None
  else Some invalidFileType.

Definition fileTooLarge (cfg : Limits) : AppError :=
  badRequest ("File too large. Maximum size: " ++ maxMegabytes cfg ++ "MB")
    "FILE_TOO_LARGE".

(** The error the upload hands to the callback of [handleCssUpload]:
    the one of the file filter, or one of multer's own or of the
    stream, with its [code] ([None] when it has none) and its
    [message]. *)
Inductive uploadError : Type :=
| Refused
| Failed (code : option string) (message : string).

(** The check of [handleCssUpload] when the upload reports no error:
    [None] is [next()]. *)
Definition contentCheck (req : Request) : option AppError :=
  match file req with
  | Some _ => None
  | None => if negb (truthy (bodyCss req)) then Some noContent else None
  end.

(** The callback of [handleCssUpload]: [None] is [next()], and an
    error is the one handed to [next].  The error of the file filter
    has no [code] and is operational. *)
Definition handleCssUpload (cfg : Limits) (err : option uploadError)
    (req : Request) : option AppError :=
  match err with
  | Some Refused =>
      if isOperational invalidFileType then Some invalidFileType
      else Some (badRequest (message invalidFileType) "UPLOAD_ERROR")
  | Some (Failed code message) =>
      match code with
      | Some text =>
          if String.eqb text "LIMIT_FILE_SIZE" then Some (fileTooLarge cfg)
          else Some (badRequest message "UPLOAD_ERROR")
      | None => Some (badRequest message "UPLOAD_ERROR")
      end
  | None => contentCheck req
  end.

(** The error middleware, for the errors of these routes: the status
    and the code of the answer. *)
Definition errorHandler (e : exn) : Z * string :=
  match e with
  | Thrown a => (statusCode a, errorCode a)
  | Foreign => (500, "INTERNAL_ERROR")
  end.

Section Handler.

(** [JSON.parse]; [None] is its [SyntaxError]. *)
Variable parse : string -> option jsval.

Variable readFile : string -> option string.

(** [typeof req.body.options === 'string' ? JSON.parse(req.body.options)
    : req.body.options] *)
Definition optionsObj (options : jsval) : option jsval :=
  match options with
  | JStr s => parse s
  | _ => Some options
  end.

(** The [rtlcssOptions] the handler passes on, or the error it hands
    to [next]. *)
Definition checkedOptions (req : Request) : AppError + jsval :=
  if truthy (bodyOptions req) then
    match optionsObj (bodyOptions req) with
    | None => inl invalidFormat
    | Some o =>
        match Validator.validateRtlcssOptions o with
        | inl e => if isOperational e then inl e else inl invalidFormat
        | inr validated => inr (JObj validated)
        end
    end
  else inr (JObj []).

Section Conversion.

Variable conversionFunction : Args -> Clock -> cache_t -> outcome.

(** The handler from the point where the css is known. *)
Definition convertWith (req : Request) (cssText : jsval) (evs : list event)
    (clk : Clock) (c : cache_t) : routeOutcome :=
  match checkedOptions req with
  | inl e => (Next (Thrown e), c, evs)
  | inr options =>
      match conversionFunction
              {| css := cssText; filePath := file req;
                 rtlcssOptions := options; apiKey := reqApiKey req |}
              clk c with
      | (inl e, c', evs') => (Next (Thrown e), c', (evs ++ evs')%list)
      | (inr r, c', evs') => (Json r, c', (evs ++ evs')%list)
      end
  end.

(** [processConversion(req, res, next, conversionFunction)] *)
Definition processConversion (req : Request) (clk : Clock) (c : cache_t)
    : routeOutcome :=
  match file req with
  | Some path =>
      match readFile path with
      | Some text => convertWith req (JStr text) [ReadFile path] clk c
      | None => (Next Foreign, c, [ReadFile path])
      end
  | None =>
      convertWith req
        (if truthy (bodyCss req) then bodyCss req else JNull) [] clk c
  end.

(** A route after [authMiddleware] has set [req.apiKey]:
    [generalLimiter], [handleCssUpload], then the handler
    ([cleanupUploads] only registers the removal of the uploaded file
    for the time the response is sent).  [limited] tells whether the
    limiter finds the limit of the client exceeded, and [err] is the
    error of the upload, if any. *)
Definition route (cfg : Limits) (limited : bool) (err : option uploadError)
    (req : Request) (clk : Clock) (c : cache_t) : routeOutcome :=
  if limited then (Next (Thrown (rateLimitExceeded cfg)), c, [])
  else
    match handleCssUpload cfg err req with
    | Some e => (Next (Thrown e), c, [])
    | None => processConversion req clk c
    end.

End Conversion.

End Handler.

(** The status of the answer: 200 for [res.json], the error
    middleware's otherwise. *)
Definition status (r : response) : Z :=
  match r with
  | Json _ => 200
  | Next e => fst (errorHandler e)
  end.

(** The code of the error answered, if any. *)
Definition code (r : response) : option string :=
  match r with
  | Json _ => None
  | Next e => Some (snd (errorHandler e))
  end.

(** The arguments a client calling the service directly would give
    for the request [req] whose css is [cssText]. *)
Definition direct (req : Request) (cssText : jsval) : Args :=
  {| css := cssText; filePath := file req; rtlcssOptions := bodyOptions req;
     apiKey := reqApiKey req |}.

(** The answer of a handler that has made the events [evs] and then
    got [o] from the service. *)
Definition answer (evs : list event) (o : outcome) : routeOutcome :=
  match o with
  | (inl e, c', evs') => (Next (Thrown e), c', (evs ++ evs')%list)
  | (inr r, c', evs') => (Json r, c', (evs ++ evs')%list)
  end.

(** No event of [evs] is a call of the cache or of the engine. *)
Definition untouched (evs : list event) : Prop :=
  forall e, In e evs -> exists path, e = ReadFile path.

End Route.

(** Requests for the scenarios of the routes; the parser of the
    scenarios knows no JSON text. *)
Module RouteFixtures.
Import Js Convert Route.

Definition noJson (text : string) : option jsval := None.

Definition request (cssText options : jsval) : Request :=
  {| file := None; bodyCss := cssText; bodyOptions := options;
     reqApiKey := Some "key-1" |}.

End RouteFixtures.

(** ** Authentication ([utils/crypto.js], [services/auth.js],
    [middleware/auth.js]) *)

Module Auth.
Import Errors.

Definition unauthorized (msg code : string) : AppError :=
  newAppError msg 401 code.

Definition badRequest (msg code : string) : AppError :=
  newAppError msg 400 code.

(** *** The store of credentials *)

(** [lastUsed] is [None] for [null]. *)
Record Credentials : Type := mkCredentials {
  secret : string;
  createdAt : Z;
  lastUsed : option Z;
  enabled : bool
}.

(** [apiCredentials], a [Map] from API keys. *)
Definition store : Type := list (string * Credentials).

Fixpoint map_get (key : string) (m : store) : option Credentials :=
  match m with
  | [] => None
  | (k, c) :: m' => if String.eqb k key then Some c else map_get key m'
  end.

Fixpoint map_set (key : string) (c : Credentials) (m : store) : store :=
  match m with
  | [] => [(key, c)]
  | (k, c') :: m' =>
      if String.eqb k key then (k, c) :: m' else (k, c') :: map_set key c m'
  end.

(** [createApiCredentials()], for the key and the secret that
    [generateApiCredentials] has drawn, at the time [now]. *)
Definition createApiCredentials (apiKey apiSecret : string) (now : Z)
    (m : store) : store :=
  map_set apiKey
    {| secret := apiSecret; createdAt := now; lastUsed := None;
       enabled := true |} m.

(** [getApiSecret(apiKey)]: [None] is [null]. *)
Definition getApiSecret (apiKey : string) (now : Z) (m : store)
    : option string * store :=
  match map_get apiKey m with
  | None => (None, m)
  | Some credentials =>
      if negb (enabled credentials) then (None, m)
      else
        (Some (secret credentials),
         map_set apiKey
           {| secret := secret credentials;
              createdAt := createdAt credentials;
              lastUsed := Some now;
              enabled := enabled credentials |} m)
  end.

(** [verifyApiKey(apiKey)]: [credentials && credentials.enabled],
    [None] being the [undefined] of a key that is not stored. *)
Definition verifyApiKey (apiKey : string) (m : store) : option bool :=
  match map_get apiKey m with
  | None => None
  | Some credentials => Some (enabled credentials)
  end.

(** [disableApiKey(apiKey)] *)
Definition disableApiKey (apiKey : string) (m : store) : bool * store :=
  match map_get apiKey m with
  | None => (false, m)
  | Some credentials =>
      (true,
       map_set apiKey
         {| secret := secret credentials;
            createdAt := createdAt credentials;
            lastUsed := lastUsed credentials;
            enabled := false |} m)
  end.

(** *** Signatures and timestamps *)

(** [config.get('auth.requestTimeout')], in seconds *)
Definition requestTimeout : Z := 100000.

(** [isTimestampValid(timestamp)], [now] being [Date.now()] *)
Definition isTimestampValid (timestamp now : Z) : bool :=
  Z.abs (now - timestamp) <? requestTimeout * 1000.

(** [if (x)] on a header or a secret: there and not empty. *)
Definition present (x : option string) : bool :=
  match x with
  | Some s => negb (String.eqb s EmptyString)
  | None => false
  end.

(** The request as the middleware reads it: the three headers
    ([None] when a header is missing), the path and the method. *)
Record Request : Type := mkRequest {
  headerApiKey : option string;
  headerTimestamp : option string;
  headerSignature : option string;
  path : string;
  method : string
}.

Definition text (x : option string) : string :=
  match x with Some s => s | None => EmptyString end.

(** [`${req.path}|${req.method}|${timestamp}`] *)
Definition payload (req : Request) : string :=
  path req ++ "|" ++ method req ++ "|" ++ text (headerTimestamp req).

Section Crypto.

(** [crypto.createHmac('sha256', secret).update(payload).digest('hex')] *)
Variable hmac_sha256_hex : string -> string -> string.

(** [parseInt(text, 10)]; [None] is [NaN]. *)
Variable parseInt : string -> option Z.

(** [createSignature(payload, secret)] *)
Definition createSignature (payload secret : string) : string :=
  hmac_sha256_hex secret payload.

(** [verifySignature(payload, signature, secret)]; [None] is the
    [RangeError] that [crypto.timingSafeEqual] throws for buffers of
    different lengths. *)
Definition verifySignature (payload signature secret : string) : option bool :=
  let expectedSignature := hmac_sha256_hex secret payload in
  if (String.length signature =? String.length expectedSignature)%nat
  then Some (String.eqb signature expectedSignature)
  else None.

(** The middleware: [inl e] is [next(e)], [inr apiKey] is [next()]
    with [req.apiKey] set.  [now] is the [Date.now()] of the
    timestamp check and [used] the date [getApiSecret] writes. *)
Definition authMiddleware (req : Request) (now used : Z) (m : store)
    : (AppError + string) * store :=
  if negb (present (headerApiKey req)) || negb (present (headerTimestamp req))
     || negb (present (headerSignature req))
  then (inl (unauthorized "Missing authentication headers"
               "MISSING_AUTH_HEADERS"), m)
  else
    match parseInt (text (headerTimestamp req)) with
    | None =>
        (inl (badRequest "Invalid timestamp format" "INVALID_TIMESTAMP"), m)
    | Some timestampNum =>
        if negb (isTimestampValid timestampNum now)
        then (inl (unauthorized "Request timestamp expired"
                     "TIMESTAMP_EXPIRED"), m)
        else
          match getApiSecret (text (headerApiKey req)) used m with
          | (apiSecret, m1) =>
              if negb (present apiSecret)
              then (inl (unauthorized "Invalid API key" "INVALID_API_KEY"), m1)
              else
                match verifySignature (payload req)
                        (text (headerSignature req)) (text apiSecret) with
                | None =>
                    (inl (unauthorized "Authentication failed"
                            "AUTH_FAILED"), m1)
                | Some false =>
                    (inl (unauthorized "Invalid signature"
                            "INVALID_SIGNATURE"), m1)
                | Some true => (inr (text (headerApiKey req)), m1)
                end
          end
    end.

End Crypto.

(** *** Histories of the store *)

Inductive op : Type :=
| Create (apiKey apiSecret : string) (now : Z)
| GetSecret (apiKey : string) (now : Z)
| Disable (apiKey : string).

Definition step (m : store) (o : op) : store :=
  match o with
  | Create k s now => createApiCredentials k s now m
  | GetSecret k now => snd (getApiSecret k now m)
  | Disable k => snd (disableApiKey k m)
  end.

Definition run (ops : list op) (m : store) : store := fold_left step ops m.

(** No call of [ops] creates the key [key]. *)
Definition neverCreates (key : string) (ops : list op) : Prop :=
  forall s now, ~ In (Create key s now) ops.

(** The request is accepted by a store that holds [key] enabled with
    [apiSecret]: what the middleware asks of the headers. *)
Definition wellSigned (hmac : string -> string -> string)
    (parseInt : string -> option Z) (req : Request) (now : Z)
    (key apiSecret : string) : Prop :=
  headerApiKey req = Some key /\ key <> EmptyString
  /\ present (headerTimestamp req) = true
  /\ (exists t, parseInt (text (headerTimestamp req)) = Some t
                /\ Z.abs (now - t) < requestTimeout * 1000)
  /\ apiSecret <> EmptyString
  /\ headerSignature req = Some (hmac apiSecret (payload req))
  /\ hmac apiSecret (payload req) <> EmptyString.

End Auth.

(** A store, a request and stand-ins for the scenarios of the
    authentication: the stand-in for the HMAC writes the secret
    before the payload, the one for [parseInt] reads the unsigned
    decimal numerals. *)
Module AuthFixtures.
Import Auth.

Definition sign (secret payload : string) : string :=
  secret ++ "/" ++ payload.

Definition numeral (text : string) : option Z :=
  match text with
  | EmptyString => None
  | _ => if Js.all_digits text
         then Some (Z.of_N (Js.digits_value 0%N text)) else None
  end.

Definition keys : store := createApiCredentials "key-1" "s3cret" 0 [].

Definition signed (signature : string) : Request :=
  {| headerApiKey := Some "key-1"; headerTimestamp := Some "1000";
     headerSignature := Some signature; path := "/api/convert/ltr-to-rtl";
     method := "POST" |}.

End AuthFixtures.

(** ** The two [validateCss] ([services/validator.js],
    [services/convert.js])

    A text is the sequence of the bytes of its UTF-8 encoding, as
    everywhere here.  The classes of the two regular expressions are
    read on the encodings: the letters and the hyphen, the colon, the
    semicolon and the braces are single bytes, which occur in no
    encoding of another character. *)

Module CssScan.
Import Js.
Export Utf8.

(** [[a-z-]] under the flag [i] *)
Definition is_name (c : ascii) : bool :=
  let n := nat_of_ascii c in
  ((65 <=? n)%nat && (n <=? 90)%nat) || ((97 <=? n)%nat && (n <=? 122)%nat)
  || (n =? 45)%nat.

(** Whether a line terminator starts the text: U+000A, U+000D, U+2028
    or U+2029, the characters [.] does not match. *)
Definition terminator_at (s : string) : bool :=
  match s with
  | String a rest =>
      byte_is a 10 || byte_is a 13
      || match rest with
         | String b (String c _) =>
             byte_is a 226 && byte_is b 128
             && (byte_is c 168 || byte_is c 169)
         | _ => false
         end
  | EmptyString => false
  end.

(** [[a-z-]+]: the text after the longest run of letters and
    hyphens. *)
Fixpoint skip_name (s : string) : string :=
  match s with
  | String c s' => if is_name c then skip_name s' else s
  | EmptyString => s
  end.

(** [\s*]: the text after the longest run of white space. *)
Fixpoint skip_spaces (s : string) : string :=
  match s with
  | String a s1 =>
      if is_space1 a then skip_spaces s1
      else
        match s1 with
        | String b s2 =>
            if is_space2 a b then skip_spaces s2
            else
              match s2 with
              | String c s3 => if is_space3 a b c then skip_spaces s3 else s
              | EmptyString => s
              end
        | EmptyString => s
        end
  | EmptyString => s
  end.

Fixpoint has_semicolon (s : string) : bool :=
  match s with
  | String c s' => Ascii.eqb c ";" || has_semicolon s'
  | EmptyString => false
  end.

(** [[^;]+;] at the start of the text *)
Definition value_convert (s : string) : bool :=
  match s with
  | String c s' => negb (Ascii.eqb c ";") && has_semicolon s'
  | EmptyString => false
  end.

(** [.+;] at the start of the text; [seen] tells that a character has
    been taken already. *)
Fixpoint dots_semicolon (s : string) (seen : bool) : bool :=
  match s with
  | String c s' =>
      if terminator_at s then false
      else if seen && Ascii.eqb c ";" then true
      else dots_semicolon s' true
  | EmptyString => false
  end.

Definition value_validator (s : string) : bool := dots_semicolon s false.

Section Test.

(** The matcher of what follows the colon. *)
Variable value : string -> bool.

(** A match of [[a-z-]+\s*:] and of the value at the start of the
    text.  Each run is taken whole: a shorter run is followed by a
    character of the run, which neither the next class nor the colon
    matches. *)
Definition match_here (s : string) : bool :=
  match s with
  | String c _ =>
      if is_name c then
        match skip_spaces (skip_name s) with
        | String d rest => Ascii.eqb d ":" && value rest
        | EmptyString => false
        end
      else false
  | EmptyString => false
  end.

(** [regex.test(css)]: a match at some position. *)
Fixpoint test (s : string) : bool :=
  match_here s
  || match s with
     | String _ s' => test s'
     | EmptyString => false
     end.

End Test.

(** The loop over the braces: [None] is the [return false] for a
    closing brace without an opening one, [Some n] the count at the
    end. *)
Fixpoint braceLoop (s : string) (braces : Z) : option Z :=
  match s with
  | String c s' =>
      let b1 := if Ascii.eqb c "{" then braces + 1 else braces in
      let b2 := if Ascii.eqb c "}" then b1 - 1 else b1 in
      if b2 <? 0 then None else braceLoop s' b2
  | EmptyString => Some braces
  end.

Definition validateWith (value : string -> bool) (css : jsval) : bool :=
  match css with
  | JStr s =>
      if String.eqb s EmptyString then false
      else
        let found := test value s in
        match braceLoop s 0 with
        | None => false
        | Some braces => (braces =? 0) && found
        end
  | _ => false
  end.

(** *** What the two functions accept *)

(** The opening braces less the closing ones. *)
Fixpoint depth (s : string) : Z :=
  match s with
  | String c s' =>
      (if Ascii.eqb c "{" then 1 else 0) - (if Ascii.eqb c "}" then 1 else 0)
      + depth s'
  | EmptyString => 0
  end.

(** No closing brace comes before its opening one, and none is left
    open. *)
Definition balanced (s : string) : Prop :=
  (forall p q, s = (p ++ q)%string -> 0 <= depth p) /\ depth s = 0.

Fixpoint all_name (s : string) : bool :=
  match s with
  | String c s' => is_name c && all_name s'
  | EmptyString => true
  end.

(** The text does not start with a letter or a hyphen. *)
Definition no_name_first (s : string) : Prop :=
  match s with
  | String c _ => is_name c = false
  | EmptyString => True
  end.

(** A run of white space characters. *)
Inductive Spaces : string -> Prop :=
| Spaces_nil : Spaces EmptyString
| Spaces_1 a r : is_space1 a = true -> Spaces r -> Spaces (String a r)
| Spaces_2 a b r :
    is_space2 a b = true -> Spaces r -> Spaces (String a (String b r))
| Spaces_3 a b c r :
    is_space3 a b c = true -> Spaces r ->
    Spaces (String a (String b (String c r))).

(** No line terminator in the text. *)
Definition oneLine (s : string) : Prop :=
  forall p q, s = (p ++ q)%string -> terminator_at q = false.

(** The same, decided. *)
Fixpoint one_line (s : string) : bool :=
  negb (terminator_at s)
  && match s with
     | String _ s' => one_line s'
     | EmptyString => true
     end.

(** The text holds a name, white space or none, a colon, a value that
    is not empty and a semicolon. *)
Definition declares (goodValue : string -> Prop) (s : string) : Prop :=
  exists pre name ws value post,
    s = (pre ++ name ++ ws ++ ":" ++ value ++ ";" ++ post)%string
    /\ name <> EmptyString /\ all_name name = true
    /\ Spaces ws
    /\ value <> EmptyString /\ goodValue value.

Definition noSemicolon (s : string) : Prop := has_semicolon s = false.

End CssScan.

(** [validateCss] of the validation service: [/[a-z-]+\s*:.+;/i]. *)
Module ValidatorCss.

Definition validateCss (css : Js.jsval) : bool :=
  CssScan.validateWith CssScan.value_validator css.

End ValidatorCss.

(** [validateCss] of the conversion service:
    [/[a-z-]+\s*:[^;]+;/i]. *)
Module ConvertCss.

Definition validateCss (css : Js.jsval) : bool :=
  CssScan.validateWith CssScan.value_convert css.

End ConvertCss.

(** * Properties *)

(** ** The cache *)

Module CacheFacts.
Import Cache Fixtures.

Section WithValue.

Variable V : Type.

Lemma map_get_has (key : string) (m : list (string * Item V)) :
  map_has key m = match map_get key m with Some _ => true | None => false end.
Proof.
  induction m as [|[k it] m IH]; simpl; [reflexivity|].
  destruct (String.eqb k key); simpl; [reflexivity|exact IH].
Qed.

Lemma map_get_in (key : string) (m : list (string * Item V)) (it : Item V) :
  map_get key m = Some it -> In (key, it) m.
Proof.
  induction m as [|[k it'] m IH]; simpl; [discriminate|].
  destruct (String.eqb k key) eqn:E.
  - apply String.eqb_eq in E. intros [= ->]. left. now subst.
  - intros H. right. now apply IH.
Qed.

Lemma map_get_delete_same (key : string) (m : list (string * Item V)) :
  NoDup (map fst m) -> map_get key (map_delete key m) = None.
Proof.
  induction m as [|[k it] m IH]; simpl; intros ND; [reflexivity|].
  inversion ND as [|? ? Hnot ND']; subst.
  destruct (String.eqb k key) eqn:E.
  - apply String.eqb_eq in E. subst k.
    destruct (map_get key m) as [it'|] eqn:G; [|reflexivity].
    exfalso. apply Hnot. apply map_get_in in G.
    change key with (fst (key, it')). now apply in_map.
  - simpl. rewrite E. now apply IH.
Qed.

Lemma map_get_replace_same (key : string) (it : Item V) (m : list (string * Item V)) :
  map_has key m = true -> map_get key (map_replace key it m) = Some it.
Proof.
  induction m as [|[k it'] m IH]; simpl; [discriminate|].
  destruct (String.eqb k key) eqn:E; simpl; rewrite E; [reflexivity|].
  exact IH.
Qed.

Lemma map_get_app_new (key : string) (it : Item V) (m : list (string * Item V)) :
  map_has key m = false -> map_get key (m ++ [(key, it)]) = Some it.
Proof.
  induction m as [|[k it'] m IH]; simpl.
  - now rewrite String.eqb_refl.
  - destruct (String.eqb k key); simpl; [discriminate|exact IH].
Qed.

(** What [set] stores is what a lookup of the key then finds. *)
Lemma map_get_set_same (key : string) (it : Item V) (m : list (string * Item V)) :
  map_get key (map_set key it m) = Some it.
Proof.
  unfold map_set. destruct (map_has key m) eqn:H.
  - now apply map_get_replace_same.
  - now apply map_get_app_new.
Qed.

Lemma map_replace_length (key : string) (it : Item V) (m : list (string * Item V)) :
  List.length (map_replace key it m) = List.length m.
Proof.
  induction m as [|[k it'] m IH]; simpl; [reflexivity|].
  destruct (String.eqb k key); simpl; congruence.
Qed.

Lemma map_set_length (key : string) (it : Item V) (m : list (string * Item V)) :
  (List.length (map_set key it m) <= S (List.length m))%nat.
Proof.
  unfold map_set. destruct (map_has key m).
  - rewrite map_replace_length. lia.
  - rewrite length_app. simpl. lia.
Qed.

Lemma map_delete_length (key : string) (m : list (string * Item V)) :
  In key (map fst m) ->
  S (List.length (map_delete key m)) = List.length m.
Proof.
  induction m as [|[k it] m IH]; simpl; [tauto|].
  intros [->|H].
  - now rewrite String.eqb_refl.
  - destruct (String.eqb k key); simpl; [reflexivity|]. now rewrite IH.
Qed.

Lemma map_delete_incl (key : string) (m : list (string * Item V)) :
  incl (map_delete key m) m.
Proof.
  induction m as [|[k it] m IH]; simpl; [apply incl_refl|].
  destruct (String.eqb k key).
  - apply incl_tl, incl_refl.
  - apply incl_cons; [now left|]. now apply incl_tl.
Qed.

(** A lookup that misses adds no entry and stores nothing. *)
Lemma get_miss (key : string) (now : Z) (c : CacheService V) :
  fst (get key now c) = None ->
  incl (cache (snd (get key now c))) (cache c)
  /\ hits (stats (snd (get key now c))) = hits (stats c)
  /\ misses (stats (snd (get key now c))) = misses (stats c) + 1
  /\ stored (stats (snd (get key now c))) = stored (stats c).
Proof.
  unfold get. destruct (map_get key (cache c)) as [it|]; simpl.
  - destruct (expiresAt it <? now); simpl; [|discriminate].
    intros _. split; [apply map_delete_incl|]. repeat split.
  - intros _. split; [apply incl_refl|]. repeat split.
Qed.

(** A lookup that hits leaves the entries alone and counts one hit. *)
Lemma get_hit (key : string) (now : Z) (c : CacheService V) (v : V) :
  fst (get key now c) = Some v ->
  snd (get key now c) = {| cache := cache c; stats := hit (stats c) |}
  /\ exists it, map_get key (cache c) = Some it /\ value it = v.
Proof.
  unfold get. destruct (map_get key (cache c)) as [it|]; simpl; [|discriminate].
  destruct (expiresAt it <? now); simpl; [discriminate|].
  intros [= <-]. split; [reflexivity|]. now exists it.
Qed.

Lemma set_hits (key : string) (v : V) (ttl : option Z) (now : Z)
    (c : CacheService V) :
  hits (stats (set key v ttl now c)) = hits (stats c).
Proof.
  unfold set. simpl. destruct (maxSize <=? size c); [|reflexivity].
  unfold evictOldest. destruct (fst (oldest (cache c))) as [k|]; [|reflexivity].
  destruct (key_truthy (Some k)); reflexivity.
Qed.

Lemma map_get_after_set (key : string) (v : V) (ttl : option Z) (now : Z)
    (c : CacheService V) :
  exists it, map_get key (cache (set key v ttl now c)) = Some it
             /\ value it = v.
Proof.
  unfold set. simpl. rewrite map_get_set_same. eexists. split; reflexivity.
Qed.

(** *** The entry [evictOldest] selects *)

Lemma oldest_step_selected (seen : list (string * Item V)) (acc : option string * option Z)
    (x : string * Item V) :
  selected seen acc -> selected (seen ++ [x]) (oldest_step acc x).
Proof.
  destruct acc as [[k|] [e|]]; simpl; try tauto; unfold oldest_step; simpl.
  - intros [[it [Hin He]] Hmin].
    destruct (expiresAt (snd x) <? e) eqn:L; simpl.
    + apply Z.ltb_lt in L. split.
      * exists (snd x). split; [|reflexivity].
        apply in_or_app. right. left. now destruct x.
      * intros k' it' H. apply in_app_or in H as [H|[E|[]]].
        -- specialize (Hmin _ _ H). lia.
        -- subst x. simpl. lia.
    + apply Z.ltb_ge in L. split.
      * exists it. split; [|exact He]. apply in_or_app. now left.
      * intros k' it' H. apply in_app_or in H as [H|[E|[]]].
        -- now apply (Hmin k' it').
        -- subst x. exact L.
  - intros ->. simpl. split.
    + exists (snd x). split; [|reflexivity]. left. now destruct x.
    + intros k' it' [E|[]]. subst x. simpl. lia.
Qed.

Lemma fold_selected (m seen : list (string * Item V)) (acc : option string * option Z) :
  selected seen acc -> selected (seen ++ m) (fold_left (@oldest_step V) m acc).
Proof.
  revert seen acc. induction m as [|x m IH]; intros seen acc H; simpl.
  - now rewrite app_nil_r.
  - replace (seen ++ x :: m)%list with ((seen ++ [x]) ++ m)%list
      by now rewrite <- app_assoc.
    apply IH. now apply oldest_step_selected.
Qed.

(** The key [evictOldest] selects belongs to an entry whose
    [expiresAt] is the smallest of the cache. *)
Lemma oldest_is_least (m : list (string * Item V)) (k : string) :
  fst (oldest m) = Some k ->
  exists it, In (k, it) m
             /\ forall k' it', In (k', it') m -> expiresAt it <= expiresAt it'.
Proof.
  intros H. pose proof (@fold_selected m [] (None, None) eq_refl) as S.
  simpl in S. fold (oldest m) in S.
  destruct (oldest m) as [[k0|] [e|]]; simpl in *; try discriminate; try tauto.
  injection H as ->. destruct S as [[it [Hin He]] Hmin].
  exists it. split; [exact Hin|]. intros k' it' H'. rewrite He. eauto.
Qed.

Lemma oldest_nonempty (m : list (string * Item V)) :
  m <> [] -> exists k, fst (oldest m) = Some k.
Proof.
  intros H. pose proof (@fold_selected m [] (None, None) eq_refl) as S.
  simpl in S. fold (oldest m) in S.
  destruct (oldest m) as [[k0|] [e|]]; simpl in *; try tauto.
  now exists k0.
Qed.

(** *** Occupancy with keys that are not empty *)

Lemma map_delete_keys (key k : string) (m : list (string * Item V)) :
  In k (map fst (map_delete key m)) -> In k (map fst m).
Proof.
  induction m as [|[k0 it] m IH]; simpl; [tauto|].
  destruct (String.eqb k0 key); simpl; tauto.
Qed.

Lemma map_replace_keys (key : string) (it : Item V) (m : list (string * Item V)) :
  map fst (map_replace key it m) = map fst m.
Proof.
  induction m as [|[k0 it0] m IH]; simpl; [reflexivity|].
  destruct (String.eqb k0 key); simpl; congruence.
Qed.

Lemma map_set_keys (key k : string) (it : Item V) (m : list (string * Item V)) :
  In k (map fst (map_set key it m)) -> k = key \/ In k (map fst m).
Proof.
  unfold map_set. destruct (map_has key m).
  - rewrite map_replace_keys. tauto.
  - rewrite map_app, in_app_iff. simpl. intuition.
Qed.

Lemma evictOldest_keys (c : CacheService V) (k : string) :
  In k (map fst (cache (evictOldest c))) -> In k (map fst (cache c)).
Proof.
  unfold evictOldest. destruct (fst (oldest (cache c))) as [o|]; [|tauto].
  destruct (key_truthy (Some o)); simpl; [|tauto]. apply map_delete_keys.
Qed.

(** With no empty key in the cache, [evictOldest] removes one entry. *)
Lemma evictOldest_shrinks (c : CacheService V) :
  cache c <> [] -> keys_truthy (cache c) ->
  S (List.length (cache (evictOldest c))) = List.length (cache c).
Proof.
  intros Hne Hk. destruct (oldest_nonempty Hne) as [k Hk0].
  destruct (oldest_is_least _ Hk0) as [it [Hin _]].
  assert (Hin' : In k (map fst (cache c))).
  { change k with (fst (k, it)). now apply in_map. }
  unfold evictOldest. rewrite Hk0. simpl.
  destruct (String.eqb k EmptyString) eqn:E; simpl.
  - apply String.eqb_eq in E. now apply Hk in Hin'.
  - now apply map_delete_length.
Qed.

(** One insertion keeps the bound, as long as no key of the cache is
    the empty string. *)
Lemma set_bounded (key : string) (v : V) (ttl : option Z) (now : Z)
    (c : CacheService V) :
  keys_truthy (cache c) -> size c <= maxSize ->
  size (set key v ttl now c) <= maxSize.
Proof.
  intros Hk Hle. unfold set. cbv zeta.
  destruct (maxSize <=? size c) eqn:F; unfold size in *; simpl.
  - match goal with |- context [map_set ?k ?i ?m] =>
      pose proof (map_set_length k i m) as L end.
    assert (Hne : cache c <> []).
    { intros E. rewrite E in F. simpl in F. discriminate. }
    pose proof (@evictOldest_shrinks c Hne Hk). unfold maxSize in *. lia.
  - match goal with |- context [map_set ?k ?i ?m] =>
      pose proof (map_set_length k i m) as L end.
    apply Z.leb_gt in F. unfold maxSize in *. lia.
Qed.

Lemma set_keys_truthy (key : string) (v : V) (ttl : option Z) (now : Z)
    (c : CacheService V) :
  key <> EmptyString -> keys_truthy (cache c) ->
  keys_truthy (cache (set key v ttl now c)).
Proof.
  intros Hkey Hk k H. unfold set in H. simpl in H.
  apply map_set_keys in H as [->|H]; [exact Hkey|].
  destruct (maxSize <=? size c); [apply evictOldest_keys in H|]; now apply Hk.
Qed.

(** The entry removed when an insertion finds the cache full has the
    smallest [expiresAt] of the cache, again with no empty key. *)
Lemma set_evicts_least (key : string) (v : V) (ttl : option Z) (now : Z)
    (c : CacheService V) :
  keys_truthy (cache c) -> maxSize <= size c ->
  exists k it,
    In (k, it) (cache c)
    /\ (forall k' it', In (k', it') (cache c) -> expiresAt it <= expiresAt it')
    /\ cache (set key v ttl now c)
       = map_set key {| value := v;
                        expiresAt := now + match ttl with
                                           | Some t => t
                                           | None => defaultTtl
                                           end |}
           (map_delete k (cache c)).
Proof.
  intros Hk Hfull.
  assert (Hne : cache c <> []).
  { intros E. unfold size, maxSize in Hfull. rewrite E in Hfull. simpl in Hfull. lia. }
  destruct (oldest_nonempty Hne) as [k Hk0].
  destruct (oldest_is_least _ Hk0) as [it [Hin Hmin]].
  exists k, it. split; [exact Hin|]. split; [exact Hmin|].
  unfold set. apply Z.leb_le in Hfull. rewrite Hfull. simpl.
  unfold evictOldest. rewrite Hk0. simpl.
  destruct (String.eqb k EmptyString) eqn:E; simpl; [|reflexivity].
  apply String.eqb_eq in E. exfalso. apply (Hk k); [|exact E].
  change k with (fst (k, it)). now apply in_map.
Qed.

(** C6. No stale hit: a value [get] returns belongs to an entry whose
    [expiresAt] is not in the past; for a key whose entry has expired
    and is still stored, [get] returns [null], removes the entry and
    counts a miss and an eviction. *)
Theorem get_no_stale_hit (key : string) (now : Z) (c : CacheService V) :
  (forall v c', get key now c = (Some v, c') ->
     exists it, map_get key (cache c) = Some it
                /\ value it = v /\ now <= expiresAt it)
  /\ (forall it, map_get key (cache c) = Some it -> expiresAt it < now ->
        get key now c
        = (None, {| cache := map_delete key (cache c);
                    stats := evict 1 (miss (stats c)) |})
        /\ (NoDup (map fst (cache c)) ->
            map_get key (map_delete key (cache c)) = None)).
Proof.
  split.
  - intros v c'. unfold get.
    destruct (map_get key (cache c)) as [it|]; [|discriminate].
    destruct (expiresAt it <? now) eqn:L; [discriminate|].
    intros [= <- _]. apply Z.ltb_ge in L. now exists it.
  - intros it G L. unfold get. rewrite G.
    apply Z.ltb_lt in L. rewrite L. split; [reflexivity|].
    apply map_get_delete_same.
Qed.

End WithValue.

(** A class used apart from the service can lose the bound: with an
    entry under the empty key, which the service never stores (its
    keys start with [ltr2rtl:]), stored first, [evictOldest] selects
    that key when the cache is full and, the key being falsy, removes
    nothing; the next insertion brings the size to 1001. *)
Lemma set_exceeds_maxSize :
  size full_cache = maxSize
  /\ fst (oldest (cache full_cache)) = Some EmptyString
  /\ evictOldest full_cache = full_cache
  /\ size (set "1000" "css" None 1000 full_cache) = 1001
  /\ maxSize < size (set "1000" "css" None 1000 full_cache).
Proof. vm_compute. repeat split; reflexivity. Qed.

Lemma get_no_stale_hit_witness :
  let c := set "k" "css" (Some 10) 0 (@new string) in
  map_get "k" (cache c) = Some {| value := "css"; expiresAt := 10 |}
  /\ 10 < 11
  /\ get "k" 11 c
     = (None, {| cache := map_delete "k" (cache c);
                 stats := evict 1 (miss (stats c)) |})
  /\ (exists it, map_get "k" (cache c) = Some it
                 /\ value it = "css" /\ 10 <= expiresAt it).
Proof.
  intros c.
  pose proof (get_no_stale_hit "k" 11 c) as [_ Hstale].
  pose proof (get_no_stale_hit "k" 10 c) as [Hfresh _].
  split; [reflexivity|]. split; [lia|]. split.
  - apply (Hstale {| value := "css"; expiresAt := 10 |}); [reflexivity|simpl; lia].
  - apply (Hfresh "css" (snd (get "k" 10 c))). reflexivity.
Defined.

End CacheFacts.

(** ** Objects and the options validator *)

Module ValidatorFacts.
Import Js Errors Validator.

Lemma has_key_in (k : string) (o : obj) :
  has_key k o = true <-> In k (map fst o).
Proof.
  induction o as [|[k0 v0] o IH]; simpl; [intuition discriminate|].
  rewrite orb_true_iff, String.eqb_eq, IH. tauto.
Qed.

Lemma has_key_update (k k' : string) (v : jsval) (o : obj) :
  has_key k (update k' v o) = has_key k o.
Proof.
  induction o as [|[k0 v0] o IH]; simpl; [reflexivity|].
  destruct (String.eqb k0 k'); simpl; [reflexivity|]. now rewrite IH.
Qed.

Lemma has_key_insert_index (k k' : string) (n : N) (v : jsval) (o : obj) :
  has_key k (insert_index n k' v o) = String.eqb k' k || has_key k o.
Proof.
  induction o as [|[k0 v0] o IH]; simpl; [reflexivity|].
  destruct (array_index k0) as [m|]; [|reflexivity].
  destruct (m <? n)%N; simpl; [|reflexivity].
  rewrite IH. destruct (String.eqb k0 k), (String.eqb k' k); reflexivity.
Qed.

Lemma has_key_app (k : string) (o1 o2 : obj) :
  has_key k (o1 ++ o2)%list = has_key k o1 || has_key k o2.
Proof.
  induction o1 as [|[k0 v0] o1 IH]; simpl; [reflexivity|].
  rewrite IH. now rewrite orb_assoc.
Qed.

Lemma has_key_assign (k k' : string) (v : jsval) (o : obj) :
  has_key k (assign o k' v) = String.eqb k' k || has_key k o.
Proof.
  unfold assign. destruct (has_key k' o) eqn:H.
  - rewrite has_key_update. destruct (String.eqb k' k) eqn:E; [|reflexivity].
    apply String.eqb_eq in E. subst. now rewrite H.
  - destruct (array_index k').
    + apply has_key_insert_index.
    + rewrite has_key_app. simpl. rewrite orb_false_r. apply orb_comm.
Qed.

Lemma has_key_assign_all (k : string) (source target : obj) :
  has_key k (assign_all target source) = has_key k target || has_key k source.
Proof.
  unfold assign_all. revert target.
  induction source as [|[k0 v0] source IH]; intros target; simpl.
  - now rewrite orb_false_r.
  - rewrite IH, has_key_assign. simpl.
    destruct (String.eqb k0 k), (has_key k target); reflexivity.
Qed.

(** *** Spreading over an object that owns every key *)

Lemma put_absent (k : string) (v : jsval) (o : obj) :
  ~ In k (map fst o) -> map (put k v) o = o.
Proof.
  induction o as [|[k0 v0] o IH]; simpl; [reflexivity|].
  intros H. unfold put at 1. simpl.
  destruct (String.eqb k0 k) eqn:E.
  - apply String.eqb_eq in E. tauto.
  - rewrite IH; [reflexivity|tauto].
Qed.

Lemma update_put (k : string) (v : jsval) (o : obj) :
  NoDup (map fst o) -> update k v o = map (put k v) o.
Proof.
  induction o as [|[k0 v0] o IH]; simpl; [reflexivity|].
  intros ND. inversion ND as [|? ? Hnot ND']; subst.
  unfold put at 1. simpl. destruct (String.eqb k0 k) eqn:E.
  - apply String.eqb_eq in E. subst k0. now rewrite put_absent.
  - now rewrite IH.
Qed.

Lemma put_keys (k : string) (v : jsval) (o : obj) :
  map fst (map (put k v) o) = map fst o.
Proof. rewrite map_map. reflexivity. Qed.

Lemma assign_all_overlay (o target : obj) :
  NoDup (map fst target) ->
  (forall k, In k (map fst o) -> In k (map fst target)) ->
  assign_all target o
  = map (fun kv => (fst kv, overlay o (fst kv) (snd kv))) target.
Proof.
  unfold assign_all. revert target.
  induction o as [|[k v] o IH]; intros target ND Sub; simpl.
  - clear. induction target as [|[k0 v0] t IH]; simpl; congruence.
  - assert (Hk : has_key k target = true).
    { apply has_key_in. apply Sub. now left. }
    unfold assign at 2. rewrite Hk, (@update_put k v target ND).
    rewrite IH.
    + rewrite map_map. apply map_ext. intros [k0 v0]. unfold overlay. simpl.
      now rewrite (String.eqb_sym k k0).
    + now rewrite put_keys.
    + intros k1 H. rewrite put_keys. apply Sub. now right.
Qed.

Lemma overlay_absent (o : obj) (k : string) (d : jsval) :
  ~ In k (map fst o) -> overlay o k d = d.
Proof.
  unfold overlay. revert d. induction o as [|[k0 v0] o IH]; intros d H; simpl.
  - reflexivity.
  - simpl in H. destruct (String.eqb k0 k) eqn:E.
    + apply String.eqb_eq in E. tauto.
    + apply IH. tauto.
Qed.

Lemma overlay_lookup (o : obj) (k : string) (d : jsval) :
  NoDup (map fst o) ->
  overlay o k d = match lookup k o with Some v => v | None => d end.
Proof.
  revert d. induction o as [|[k0 v0] o IH]; intros d ND; simpl.
  - reflexivity.
  - inversion ND as [|? ? Hnot ND']; subst.
    unfold overlay. simpl. destruct (String.eqb k0 k) eqn:E.
    + apply String.eqb_eq in E. subst k0. now apply overlay_absent.
    + now apply IH.
Qed.

(** *** Reading an object after an assignment *)

Lemma lookup_has_key (k : string) (o : obj) :
  has_key k o = match lookup k o with Some _ => true | None => false end.
Proof.
  induction o as [|[k0 v0] o IH]; simpl; [reflexivity|].
  destruct (String.eqb k0 k); simpl; [reflexivity|exact IH].
Qed.

Lemma eqb_trans_false (a b c : string) :
  String.eqb a b = false -> String.eqb a c = true -> String.eqb b c = false.
Proof.
  intros H1 H2. apply String.eqb_eq in H2. subst c.
  rewrite String.eqb_sym. exact H1.
Qed.

Lemma lookup_update (k k' : string) (v : jsval) (o : obj) :
  has_key k' o = true ->
  lookup k (update k' v o) = if String.eqb k' k then Some v else lookup k o.
Proof.
  induction o as [|[k0 v0] o IH]; simpl; [discriminate|].
  destruct (String.eqb k0 k') eqn:E; simpl.
  - intros _. apply String.eqb_eq in E. subst k0.
    destruct (String.eqb k' k); reflexivity.
  - intros H. rewrite (IH H).
    destruct (String.eqb k0 k) eqn:F; [|reflexivity].
    rewrite (eqb_trans_false _ _ _ E F). reflexivity.
Qed.

Lemma lookup_insert_index (k k' : string) (n : N) (v : jsval) (o : obj) :
  has_key k' o = false ->
  lookup k (insert_index n k' v o)
  = if String.eqb k' k then Some v else lookup k o.
Proof.
  induction o as [|[k0 v0] o IH]; simpl; [reflexivity|].
  destruct (String.eqb k0 k') eqn:E; simpl; [discriminate|].
  intros H. destruct (array_index k0) as [m|]; [|reflexivity].
  destruct (m <? n)%N; simpl; [|reflexivity].
  rewrite (IH H). destruct (String.eqb k0 k) eqn:F; [|reflexivity].
  rewrite (eqb_trans_false _ _ _ E F). reflexivity.
Qed.

Lemma lookup_append (k k' : string) (v : jsval) (o : obj) :
  has_key k' o = false ->
  lookup k (o ++ [(k', v)])%list
  = if String.eqb k' k then Some v else lookup k o.
Proof.
  induction o as [|[k0 v0] o IH]; simpl; [reflexivity|].
  destruct (String.eqb k0 k') eqn:E; simpl; [discriminate|].
  intros H. rewrite (IH H). destruct (String.eqb k0 k) eqn:F; [|reflexivity].
  rewrite (eqb_trans_false _ _ _ E F). reflexivity.
Qed.

(** After [o[k'] = v], the key [k'] reads [v] and the others read as
    before. *)
Lemma lookup_assign (k k' : string) (v : jsval) (o : obj) :
  lookup k (assign o k' v) = if String.eqb k' k then Some v else lookup k o.
Proof.
  unfold assign. destruct (has_key k' o) eqn:H.
  - now apply lookup_update.
  - destruct (array_index k').
    + now apply lookup_insert_index.
    + now apply lookup_append.
Qed.

Lemma update_keys (k : string) (v : jsval) (o : obj) :
  map fst (update k v o) = map fst o.
Proof.
  induction o as [|[k0 v0] o IH]; simpl; [reflexivity|].
  destruct (String.eqb k0 k); simpl; congruence.
Qed.

Lemma insert_index_keys (k k' : string) (n : N) (v : jsval) (o : obj) :
  In k (map fst (insert_index n k' v o)) <-> k = k' \/ In k (map fst o).
Proof.
  induction o as [|[k0 v0] o IH]; simpl; [intuition|].
  destruct (array_index k0) as [m|]; [|simpl; intuition].
  destruct (m <? n)%N; simpl; [|intuition]. rewrite IH. intuition.
Qed.

Lemma insert_index_nodup (k' : string) (n : N) (v : jsval) (o : obj) :
  ~ In k' (map fst o) -> NoDup (map fst o) ->
  NoDup (map fst (insert_index n k' v o)).
Proof.
  induction o as [|[k0 v0] o IH]; simpl; intros Hn ND.
  - constructor; [tauto|constructor].
  - inversion ND as [|? ? Hk ND']; subst.
    assert (New : NoDup (k' :: k0 :: map fst o)).
    { constructor; [simpl; tauto|exact ND]. }
    destruct (array_index k0) as [m|]; [|exact New].
    destruct (m <? n)%N; simpl; [|exact New].
    constructor.
    + rewrite insert_index_keys. intros [->|H]; tauto.
    + apply IH; tauto.
Qed.

(** An assignment keeps the keys of an object distinct. *)
Lemma assign_nodup (k : string) (v : jsval) (o : obj) :
  NoDup (map fst o) -> NoDup (map fst (assign o k v)).
Proof.
  intros ND. unfold assign. destruct (has_key k o) eqn:H.
  - now rewrite update_keys.
  - assert (Hn : ~ In k (map fst o)).
    { intros I. apply has_key_in in I. congruence. }
    destruct (array_index k).
    + now apply insert_index_nodup.
    + rewrite map_app. simpl. apply NoDup_app; [exact ND| |].
      * constructor; [tauto|constructor].
      * intros x Hx [<-|[]]. contradiction.
Qed.

(** [invalidOptions] holds the keys that are not recognised, and only
    those. *)
Lemma invalidOptions_spec (options : jsval) (k : string) :
  In k (invalidOptions options)
  <-> In k (keys options) /\ ~ In k allowedOptions.
Proof.
  unfold invalidOptions. rewrite filter_In. unfold includes.
  rewrite negb_true_iff. split; intros [H1 H2]; split; try exact H1.
  - intros H. assert (existsb (String.eqb k) allowedOptions = true).
    { apply existsb_exists. exists k. split; [exact H|apply String.eqb_refl]. }
    congruence.
  - destruct (existsb (String.eqb k) allowedOptions) eqn:E; [|reflexivity].
    apply existsb_exists in E as [x [Hx E]]. apply String.eqb_eq in E.
    subst. contradiction.
Qed.

(** An object with a key that is not recognised is rejected, the
    message naming the keys that are not recognised. *)
Lemma validate_rejects_unknown (props : obj) (k : string) :
  In k (map fst props) -> ~ In k allowedOptions ->
  validateRtlcssOptions (JObj props)
  = inl (validationError
           ("Invalid RTLCSS options: "
              ++ join ", " (invalidOptions (JObj props)))
           "INVALID_OPTIONS").
Proof.
  intros Hin Hnot. unfold validateRtlcssOptions.
  change (negb (truthy (JObj props)) || negb (is_object (JObj props)))
    with false. cbv iota.
  assert (H : In k (invalidOptions (JObj props))).
  { apply invalidOptions_spec. split; assumption. }
  destruct (invalidOptions (JObj props)) as [|x l]; [destruct H|reflexivity].
Qed.

(** *** What the validator returns *)

Lemma holds_skip (o : obj) (done : list string) (acc : obj) (name : string) :
  holds o done acc -> has_key name o = false -> holds o (name :: done) acc.
Proof.
  intros [ND L] H. split; [exact ND|]. intros k. rewrite L.
  unfold includes. simpl. destruct (String.eqb k name) eqn:E; [|reflexivity].
  apply String.eqb_eq in E. subst k. simpl.
  rewrite lookup_has_key in H. destruct (lookup name o); [discriminate|].
  destruct (existsb (String.eqb name) done); reflexivity.
Qed.

Lemma holds_copy (o : obj) (done : list string) (acc : obj) (name : string) :
  holds o done acc -> has_key name o = true ->
  holds o (name :: done) (assign acc name (get (JObj o) name)).
Proof.
  intros [ND L] H. split; [now apply assign_nodup|]. intros k.
  rewrite lookup_assign, L. unfold includes. simpl.
  rewrite (String.eqb_sym k name).
  destruct (String.eqb name k) eqn:E; [|reflexivity].
  apply String.eqb_eq in E. subst k. simpl. unfold get. simpl.
  rewrite lookup_has_key in H. destruct (lookup name o); [reflexivity|discriminate].
Qed.

Lemma validateBooleans_holds (o : obj) (names done : list string)
    (acc v : obj) :
  holds o done acc ->
  validateBooleans names (JObj o) acc = inr v ->
  holds o (rev names ++ done) v.
Proof.
  revert done acc. induction names as [|name names IH]; intros done acc H; simpl.
  - now intros [= <-].
  - unfold has. simpl ownProps.
    rewrite <- app_assoc. simpl.
    destruct (has_key name o) eqn:E.
    + destruct (is_boolean (get (JObj o) name)); [|discriminate].
      apply IH. now apply holds_copy.
    + apply IH. now apply holds_skip.
Qed.

(** What [validateRtlcssOptions] returns for an object holds the
    recognised options of the object, each with its value. *)
Lemma validate_holds (o v : obj) :
  validateRtlcssOptions (JObj o) = inr v ->
  (forall k, In k (map fst o) -> In k allowedOptions)
  /\ holds o allowedOptions v.
Proof.
  unfold validateRtlcssOptions.
  change (negb (truthy (JObj o)) || negb (is_object (JObj o))) with false.
  cbv iota.
  destruct (invalidOptions (JObj o)) as [|x l] eqn:I; [|discriminate].
  assert (Sub : forall k, In k (map fst o) -> In k allowedOptions).
  { intros k H. destruct (in_dec string_dec k allowedOptions) as [Y|N];
      [exact Y|].
    assert (F : In k (invalidOptions (JObj o))).
    { apply invalidOptions_spec. split; assumption. }
    rewrite I in F. destruct F. }
  destruct (validateBooleans boolOptions (JObj o) []) as [e|v1] eqn:B;
    [discriminate|].
  assert (H0 : holds o [] []).
  { split; [constructor|]. intros k. reflexivity. }
  pose proof (@validateBooleans_holds o boolOptions [] [] v1 H0 B) as H1.
  unfold validateBlacklist, validateStringMap, has. simpl ownProps.
  assert (Fin : forall done acc,
             holds o done acc ->
             (forall k, includes ("stringMap" :: "blacklist" :: done) k
                        = includes allowedOptions k) ->
             forall w,
               (if has_key "blacklist" o
                then if negb (truthy (get (JObj o) "blacklist"))
                        || negb (is_object (get (JObj o) "blacklist"))
                     then inl (validationError
                                 "Option 'blacklist' must be an object"
                                 "INVALID_OPTION_TYPE")
                     else inr (assign acc "blacklist" (get (JObj o) "blacklist"))
                else inr acc) = inr w ->
               forall v',
                 (if has_key "stringMap" o
                  then if negb (isArray (get (JObj o) "stringMap"))
                       then inl (validationError
                                   "Option 'stringMap' must be an array"
                                   "INVALID_OPTION_TYPE")
                       else inr (assign w "stringMap" (get (JObj o) "stringMap"))
                  else inr w) = inr v' ->
                 holds o allowedOptions v').
  { intros done acc Hd Same w Hw v' Hv'.
    assert (Hb : holds o ("blacklist" :: done) w).
    { destruct (has_key "blacklist" o) eqn:E.
      - destruct (negb (truthy (get (JObj o) "blacklist"))
                  || negb (is_object (get (JObj o) "blacklist")));
          [discriminate|].
        injection Hw as <-. now apply holds_copy.
      - injection Hw as <-. now apply holds_skip. }
    assert (Hs : holds o ("stringMap" :: "blacklist" :: done) v').
    { destruct (has_key "stringMap" o) eqn:E.
      - destruct (negb (isArray (get (JObj o) "stringMap"))); [discriminate|].
        injection Hv' as <-. now apply holds_copy.
      - injection Hv' as <-. now apply holds_skip. }
    destruct Hs as [ND L]. split; [exact ND|].
    intros k. rewrite L, Same. reflexivity. }
  intros Hv. split; [exact Sub|].
  destruct (if has_key "blacklist" o
            then if negb (truthy (get (JObj o) "blacklist"))
                    || negb (is_object (get (JObj o) "blacklist"))
                 then inl (validationError
                             "Option 'blacklist' must be an object"
                             "INVALID_OPTION_TYPE")
                 else inr (assign v1 "blacklist" (get (JObj o) "blacklist"))
            else inr v1) as [e|w] eqn:W; [discriminate|].
  apply (Fin _ v1 H1) with (w := w); [|exact W|exact Hv].
  intros k. unfold includes. simpl.
  destruct (String.eqb k "stringMap"), (String.eqb k "blacklist"),
    (String.eqb k "useCalc"), (String.eqb k "processUrls"),
    (String.eqb k "greedy"), (String.eqb k "clean"),
    (String.eqb k "autoRenameStrict"), (String.eqb k "autoRename");
    reflexivity.
Qed.

End ValidatorFacts.

(** ** The conversion service *)

Module ConvertFacts.
Import Js Errors Convert.

Lemma rejected_spec (v : jsval) : rejected v = false <-> nonEmptyString v.
Proof.
  unfold rejected, nonEmptyString. split.
  - destruct v as [| |b|n|s|l|l]; simpl; try discriminate;
      try (destruct b; discriminate); try (destruct (n =? 0); discriminate).
    rewrite orb_false_r, negb_false_iff, negb_true_iff.
    intros H. exists s. split; [reflexivity|]. now apply String.eqb_neq.
  - intros [s [-> H]]. simpl. apply String.eqb_neq in H. now rewrite H.
Qed.

Lemma rejected_not (v : jsval) : ~ nonEmptyString v -> rejected v = true.
Proof.
  intros H. destruct (rejected v) eqn:E; [reflexivity|].
  now apply rejected_spec in E.
Qed.

Section Service.

Variable process : string -> obj -> list string -> option string.
Variable md5_hex : string -> string.
Variable readFile : string -> option string.

Lemma load_check (a : Args) (c : cache_t) :
  (loaded <- load readFile a ;; check loaded) c
  = (fst (input readFile a), c, snd (input readFile a)).
Proof using readFile.
  unfold bind, load, check, input, readFileM, ret, throw.
  destruct (filePath a) as [path|].
  - destruct (negb (truthy (css a)) && given (Some path)).
    + destruct (readFile path) as [text|]; [|reflexivity].
      destruct (rejected (JStr text)); reflexivity.
    + destruct (rejected (css a)); reflexivity.
  - destruct (rejected (css a)); reflexivity.
Qed.

Lemma cacheKey_total (text : string) (options : obj) :
  cacheKey md5_hex text options = Some (fingerprint md5_hex text options).
Proof. reflexivity. Qed.

Lemma recordUsage_run (key : option string) (t : string) (o cv e : Z)
    (c : cache_t) :
  recordUsage key t o cv e c = (inr tt, c, usage key t o cv e).
Proof using Type.
  unfold recordUsage, usage. destruct key as [k|]; [|reflexivity].
  destruct (given (Some k)); reflexivity.
Qed.

Lemma bind_assoc {A B C : Type} (m : M A) (k : A -> M B) (h : B -> M C)
    (c : cache_t) :
  bind (bind m k) h c = bind m (fun x => bind (k x) h) c.
Proof using Type.
  unfold bind. destruct (m c) as [[[e|x] c1] ev1]; [reflexivity|].
  destruct (k x c1) as [[[e|y] c2] ev2]; [reflexivity|].
  destruct (h y c2) as [[r c3] ev3]. rewrite app_assoc. reflexivity.
Qed.

Lemma ltrToRtl_unfold (a : Args) (clk : Clock) (c : cache_t) :
  ltrToRtl process md5_hex readFile a clk c = ltrToRtl_cases process md5_hex readFile a clk c.
Proof.
  unfold ltrToRtl, ltrToRtl_try, ltrToRtl_cases.
  rewrite <- bind_assoc. unfold bind at 1. rewrite load_check.
  destruct (input readFile a) as [[e|text] evs]; simpl; [reflexivity|].
  unfold makeKey. rewrite cacheKey_total.
  unfold bind, ret, cacheGet.
  destruct (Cache.get _ (now_get clk) c) as [[hit|] c1]; simpl.
  - rewrite recordUsage_run. simpl. now rewrite app_nil_r.
  - unfold runEngine.
    destruct (process text (mergeOptions (rtlcssOptions a))
        (ownKeys (rtlcssOptions a))) as [out|]; simpl.
    + rewrite recordUsage_run. simpl. now rewrite app_nil_r.
    + now rewrite <- app_assoc.
Qed.

Lemma rtlToLtr_unfold (a : Args) (clk : Clock) (c : cache_t) :
  rtlToLtr process readFile a clk c = rtlToLtr_cases process readFile a clk c.
Proof using process readFile.
  unfold rtlToLtr, rtlToLtr_try, rtlToLtr_cases.
  rewrite <- bind_assoc. unfold bind at 1. rewrite load_check.
  destruct (input readFile a) as [[e|text] evs]; simpl; [reflexivity|].
  unfold bind, runEngine.
  destruct (process (preprocess text) (mergeOptions (rtlcssOptions a))
        (ownKeys (rtlcssOptions a)))
    as [out|]; simpl; [|reflexivity].
  rewrite recordUsage_run. simpl. rewrite app_nil_r. reflexivity.
Qed.

Lemma input_events (a : Args) (e : event) :
  In e (snd (input readFile a)) -> exists path, e = ReadFile path.
Proof using readFile.
  unfold input. destruct (filePath a) as [path|].
  - destruct (negb (truthy (css a)) && given (Some path)).
    + destruct (readFile path) as [text|];
        [destruct (rejected (JStr text))|]; simpl;
        intros [<-|[]]; exists path; reflexivity.
    + destruct (rejected (css a)); simpl; intros [].
  - destruct (rejected (css a)); simpl; intros [].
Qed.

Lemma usage_events (key : option string) (t : string) (o cv el : Z)
    (e : event) :
  In e (usage key t o cv el) -> e = StatsRecord
                                      (match key with Some k => k | None => t end)
                                      t o cv el.
Proof using Type.
  unfold usage. destruct key as [k|]; [|intros []].
  destruct (given (Some k)); simpl; [|intros []].
  intros [<-|[]]. reflexivity.
Qed.

(** The text of a call that gives a non-empty string as [css]. *)
Lemma input_direct (a : Args) (text : string) :
  css a = JStr text -> text <> EmptyString -> input readFile a = (inr text, []).
Proof using readFile.
  intros E H. apply String.eqb_neq in H.
  unfold input, rejected. rewrite E. simpl. rewrite H. simpl.
  destruct (filePath a); reflexivity.
Qed.

(** The outcome of a call whose [css] is rejected as it stands. *)
Lemma input_rejected (a : Args) :
  ~ nonEmptyString (css a) ->
  truthy (css a) = true \/ given (filePath a) = false ->
  input readFile a = (inl (Thrown invalidCss), []).
Proof using readFile.
  intros H G. apply rejected_not in H. unfold input. rewrite H.
  destruct (filePath a) as [path|]; [|reflexivity].
  destruct G as [G|G]; rewrite G; [reflexivity|].
  rewrite andb_false_r. reflexivity.
Qed.


(** C7. An input that is not a non-empty string is rejected with the
    [INVALID_CSS] validation error before any cache lookup or
    transformation, by both entry points, unless [css] is falsy and a
    file path is given: then the content of the file stands for [css];
    it is rejected the same way when it is empty, and a failed read
    ends the call with the [CONVERSION_ERROR] internal error. *)
Theorem invalid_css_rejected_first (a : Args) (clk : Clock) (c : cache_t) :
  (~ nonEmptyString (css a) ->
   truthy (css a) = true \/ given (filePath a) = false ->
   ltrToRtl process md5_hex readFile a clk c
   = (inl invalidCss, c, [MonitorError "INVALID_CSS"])
   /\ rtlToLtr process readFile a clk c = (inl invalidCss, c, []))
  /\ (forall path, filePath a = Some path ->
        truthy (css a) = false -> given (Some path) = true ->
        (readFile path = Some EmptyString ->
         ltrToRtl process md5_hex readFile a clk c
         = (inl invalidCss, c, [ReadFile path; MonitorError "INVALID_CSS"])
         /\ rtlToLtr process readFile a clk c
            = (inl invalidCss, c, [ReadFile path]))
        /\ (readFile path = None ->
            ltrToRtl process md5_hex readFile a clk c
            = (inl conversionError, c,
               [ReadFile path; MonitorError "CONVERSION_ERROR"])
            /\ rtlToLtr process readFile a clk c
               = (inl conversionError, c, [ReadFile path]))).
Proof.
  split.
  - intros H G. rewrite ltrToRtl_unfold, rtlToLtr_unfold.
    unfold ltrToRtl_cases, rtlToLtr_cases.
    rewrite (input_rejected a H G). split; reflexivity.
  - intros path P T G.
    assert (I : input readFile a
                = match readFile path with
                  | Some text =>
                      if rejected (JStr text)
                      then (inl (Thrown invalidCss), [ReadFile path])
                      else (inr text, [ReadFile path])
                  | None => (inl Foreign, [ReadFile path])
                  end).
    { unfold input. rewrite P, T, G. reflexivity. }
    rewrite ltrToRtl_unfold, rtlToLtr_unfold.
    unfold ltrToRtl_cases, rtlToLtr_cases. rewrite I.
    split; intros R; rewrite R; split; reflexivity.
Qed.

(** C8. When the engine raises in [ltrToRtl], the call ends with the
    [CONVERSION_ERROR] internal error and stores nothing: the cache is
    the one the lookup that missed has left, with no entry added, the
    same [hits] and [stored] counters and one more miss.  ([rtlToLtr]
    leaves the cache as it is in every case.) *)
Theorem failed_conversion_stores_nothing (a : Args) (clk : Clock)
    (c c' : cache_t) (out : AppError + Result) (evs : list event)
    (text : string) (options : obj) :
  ltrToRtl process md5_hex readFile a clk c = (out, c', evs) ->
  In (Process text options) evs ->
  process text options (ownKeys (rtlcssOptions a)) = None ->
  out = inl conversionError
  /\ c' = snd (Cache.get (fingerprint md5_hex text options) (now_get clk) c)
  /\ fst (Cache.get (fingerprint md5_hex text options) (now_get clk) c) = None
  /\ incl (Cache.cache c') (Cache.cache c)
  /\ Cache.stored (Cache.stats c') = Cache.stored (Cache.stats c)
  /\ Cache.hits (Cache.stats c') = Cache.hits (Cache.stats c)
  /\ Cache.misses (Cache.stats c') = Cache.misses (Cache.stats c) + 1
  /\ (forall key, ~ In (CacheSet key) evs)
  /\ snd (fst (rtlToLtr process readFile a clk c)) = c.
Proof.
  assert (Back : snd (fst (rtlToLtr process readFile a clk c)) = c).
  { rewrite rtlToLtr_unfold. unfold rtlToLtr_cases.
    destruct (input readFile a) as [[e|t] evs0]; [reflexivity|].
    destruct (process _ _ _); reflexivity. }
  rewrite ltrToRtl_unfold. unfold ltrToRtl_cases.
  pose proof (fun e => @input_events a e) as Hin.
  destruct (input readFile a) as [[e|text0] evs0]; simpl in Hin.
  - intros [= <- <- <-] H. apply in_app_or in H as [H|[H|[]]].
    + apply Hin in H as [? H]. discriminate.
    + discriminate.
  - cbv zeta.
    destruct (Cache.get (fingerprint md5_hex text0 (mergeOptions (rtlcssOptions a)))
                (now_get clk) c) as [[hit|] c1] eqn:G.
    + intros [= <- <- <-] H. apply in_app_or in H as [H|[H|H]].
      * apply Hin in H as [? H]. discriminate.
      * discriminate.
      * apply usage_events in H. discriminate.
    + destruct (process text0 (mergeOptions (rtlcssOptions a))
        (ownKeys (rtlcssOptions a))) as [o|] eqn:P.
      * intros [= <- <- <-] H F. exfalso.
        apply in_app_or in H as [H|[H|[H|[H|[H|H]]]]]; try discriminate.
        -- apply Hin in H as [? H]. discriminate.
        -- injection H as <- <-. congruence.
        -- apply usage_events in H. discriminate.
      * intros [= <- <- <-] H F.
        assert (E : text = text0 /\ options = mergeOptions (rtlcssOptions a)).
        { apply in_app_or in H as [H|[H|[H|[H|[]]]]]; try discriminate.
          - apply Hin in H as [? H]. discriminate.
          - injection H as <- <-. now split. }
        destruct E as [-> ->]. rewrite G. simpl.
        assert (M : fst (Cache.get
                           (fingerprint md5_hex text0 (mergeOptions (rtlcssOptions a)))
                           (now_get clk) c) = None) by now rewrite G.
        destruct (CacheFacts.get_miss _ _ _ M) as [Hi [Hh [Hm Hs]]].
        rewrite G in Hi, Hh, Hm, Hs. simpl in *.
        repeat split; try assumption.
        intros key K. apply in_app_or in K as [K|[K|[K|[K|[]]]]];
          try discriminate.
        apply Hin in K as [? K]. discriminate.
Qed.

(** What a successful [ltrToRtl] returns is stored under the key of
    the call when it ends. *)
Lemma ltrToRtl_result_stored (a : Args) (clk : Clock) (c c1 : cache_t)
    (r : Result) (evs : list event) :
  ltrToRtl process md5_hex readFile a clk c = (inr r, c1, evs) ->
  exists text evs0 it,
    input readFile a = (inr text, evs0)
    /\ Cache.map_get (fingerprint md5_hex text (mergeOptions (rtlcssOptions a)))
         (Cache.cache c1) = Some it
    /\ Cache.value it = r.
Proof.
  rewrite ltrToRtl_unfold. unfold ltrToRtl_cases.
  destruct (input readFile a) as [[e|text] evs0]; [discriminate|]. cbv zeta.
  destruct (Cache.get _ (now_get clk) c) as [[hit|] c0] eqn:G.
  - intros [= <- <- <-].
    assert (F : fst (Cache.get
                       (fingerprint md5_hex text (mergeOptions (rtlcssOptions a)))
                       (now_get clk) c) = Some hit) by now rewrite G.
    apply CacheFacts.get_hit in F as [E [it [M Vl]]].
    rewrite G in E. simpl in E. subst c0. simpl.
    exists text, evs0, it. now repeat split.
  - destruct (process text _ _) as [out|]; [|discriminate].
    intros [= <- <- <-].
    destruct (CacheFacts.map_get_after_set
                (fingerprint md5_hex text (mergeOptions (rtlcssOptions a)))
                (freshResult text out clk (Some false)) None (now_set clk) c0)
      as [it [M Vl]].
    exists text, evs0, it. now repeat split.
Qed.

(** The text a call converts depends on its [css] and [filePath]
    only. *)
Lemma input_ext (a1 a2 : Args) :
  css a2 = css a1 -> filePath a2 = filePath a1 ->
  input readFile a2 = input readFile a1.
Proof using Type.
  intros C F. unfold input. rewrite C, F. reflexivity.
Qed.

(** C2. Two [ltrToRtl] calls with the same [css] and [filePath] (the
    file, if one is read, being the same for both) and with options of
    equal values, each as it is when its call is made: if the entry the first call left under their key has not expired
    when the second looks it up, the second returns the very result of
    the first, with the converted text, the sizes and the processing
    time of the first computation; it counts exactly one more hit,
    leaves the entries and the other counters alone and does not run
    the engine.  The processing time 0 is what it reports to the usage
    record, with the stored sizes. *)
Theorem cache_hit_returns_stored_result (a1 a2 : Args) (clk1 clk2 : Clock)
    (c c1 : cache_t) (r1 : Result) (e1 : list event) (text : string)
    (it : Cache.Item Result) :
  ltrToRtl process md5_hex readFile a1 clk1 c = (inr r1, c1, e1) ->
  css a2 = css a1 -> filePath a2 = filePath a1 ->
  mergeOptions (rtlcssOptions a2) = mergeOptions (rtlcssOptions a1) ->
  fst (input readFile a1) = inr text ->
  Cache.map_get (fingerprint md5_hex text (mergeOptions (rtlcssOptions a1)))
    (Cache.cache c1) = Some it ->
  now_get clk2 <= Cache.expiresAt it ->
  let key := fingerprint md5_hex text (mergeOptions (rtlcssOptions a1)) in
  let second := ltrToRtl process md5_hex readFile a2 clk2 c1 in
  fst (fst second) = inr r1
  /\ Cache.value it = r1
  /\ Cache.hits (Cache.stats (snd (fst second)))
     = Cache.hits (Cache.stats c1) + 1
  /\ Cache.cache (snd (fst second)) = Cache.cache c1
  /\ Cache.misses (Cache.stats (snd (fst second)))
     = Cache.misses (Cache.stats c1)
  /\ Cache.stored (Cache.stats (snd (fst second)))
     = Cache.stored (Cache.stats c1)
  /\ Cache.evicted (Cache.stats (snd (fst second)))
     = Cache.evicted (Cache.stats c1)
  /\ snd second
     = (snd (input readFile a1)
          ++ CacheGet key
          :: usage (apiKey a2) "ltr_to_rtl" (originalSize (stats r1))
               (convertedSize (stats r1)) 0)%list
  /\ (forall t o, ~ In (Process t o) (snd second))
  /\ (forall k, ~ In (CacheSet k) (snd second)).
Proof.
  intros H1 Hc Hf Ho I M Fresh key second.
  destruct (ltrToRtl_result_stored _ _ _ H1) as [text' [evs0 [it' [I' [M' Vl]]]]].
  rewrite I' in I. simpl in I. injection I as <-.
  rewrite M in M'. injection M' as <-.
  pose proof (fun e => @input_events a1 e) as Hin.
  assert (S : second
              = (inr r1, {| Cache.cache := Cache.cache c1;
                            Cache.stats := Cache.hit (Cache.stats c1) |},
                 (evs0 ++ CacheGet key
                    :: usage (apiKey a2) "ltr_to_rtl" (originalSize (stats r1))
                         (convertedSize (stats r1)) 0)%list)).
  { unfold second. rewrite ltrToRtl_unfold. unfold ltrToRtl_cases.
    rewrite (input_ext a1 a2 Hc Hf), I', Ho. cbv zeta.
    unfold Cache.get. rewrite M.
    apply Z.ltb_ge in Fresh. rewrite Fresh, Vl. reflexivity. }
  rewrite S, I'. simpl. rewrite I' in Hin. simpl in Hin.
  repeat split; try reflexivity; try exact Vl.
  - intros t o H. apply in_app_or in H as [H|[H|H]].
    + apply Hin in H as [? H]. discriminate.
    + discriminate.
    + apply usage_events in H. discriminate.
  - intros k H. apply in_app_or in H as [H|[H|H]].
    + apply Hin in H as [? H]. discriminate.
    + discriminate.
    + apply usage_events in H. discriminate.
Qed.

(** The errors the entry points raise. *)
Lemma entry_point_errors (a : Args) (clk : Clock) (c : cache_t) (e : AppError) :
  fst (fst (ltrToRtl process md5_hex readFile a clk c)) = inl e
  \/ fst (fst (rtlToLtr process readFile a clk c)) = inl e ->
  e = invalidCss \/ e = conversionError.
Proof.
  rewrite ltrToRtl_unfold, rtlToLtr_unfold.
  unfold ltrToRtl_cases, rtlToLtr_cases.
  assert (I : forall x evs, input readFile a = (inl x, evs) ->
                            rethrow x = invalidCss \/ rethrow x = conversionError).
  { unfold input. intros x evs.
    destruct (filePath a) as [path|].
    - destruct (negb (truthy (css a)) && given (Some path)).
      + destruct (readFile path) as [t|];
          [destruct (rejected (JStr t))|]; intros [= <- _]; simpl; tauto.
      + destruct (rejected (css a)); intros [= <- _]; simpl; tauto.
    - destruct (rejected (css a)); intros [= <- _]; simpl; tauto. }
  destruct (input readFile a) as [[x|text] evs].
  - specialize (I x evs eq_refl). simpl.
    intros [[= <-]|[= <-]]; exact I.
  - clear I. cbv zeta.
    destruct (Cache.get _ (now_get clk) c) as [[hit|] c0];
      destruct (process text (mergeOptions (rtlcssOptions a))
        (ownKeys (rtlcssOptions a)));
      destruct (process (preprocess text) (mergeOptions (rtlcssOptions a))
        (ownKeys (rtlcssOptions a)));
      simpl; intros [H|H]; try discriminate; injection H as <-; tauto.
Qed.

(** C9. The validator rejects an object that has a key outside the
    recognised set, with the [INVALID_OPTIONS] error that names the
    keys not recognised.  The entry points validate no option: called
    with such an object, they merge it over the defaults, key not
    recognised included; [ltrToRtl] looks up the cache under the key of
    the merged object and, on a miss, runs the engine on it, and
    [rtlToLtr] runs the engine on it; what they return is the engine's
    output or its failure.  The errors of their own are [INVALID_CSS]
    and [CONVERSION_ERROR] only. *)
Theorem unknown_option_rejected_by_validator (props : obj) (k : string)
    (a : Args) (clk : Clock) (c : cache_t) :
  In k (map fst props) -> ~ In k Validator.allowedOptions ->
  rtlcssOptions a = JObj props ->
  let options := mergeOptions (JObj props) in
  let toRtl := ltrToRtl process md5_hex readFile a clk c in
  let toLtr := rtlToLtr process readFile a clk c in
  Validator.validateRtlcssOptions (JObj props)
  = inl (validationError
           ("Invalid RTLCSS options: "
              ++ join ", " (Validator.invalidOptions (JObj props)))
           "INVALID_OPTIONS")
  /\ (forall k', In k' (Validator.invalidOptions (JObj props))
                 <-> In k' (map fst props)
                     /\ ~ In k' Validator.allowedOptions)
  /\ has_key k options = true
  /\ (forall text, fst (input readFile a) = inr text ->
        In (CacheGet (fingerprint md5_hex text options)) (snd toRtl)
        /\ (fst (Cache.get (fingerprint md5_hex text options)
                   (now_get clk) c) = None ->
            In (Process text options) (snd toRtl)
            /\ fst (fst toRtl)
               = match process text options (ownKeys (JObj props)) with
                 | Some out => inr (freshResult text out clk (Some false))
                 | None => inl conversionError
                 end)
        /\ In (Process (preprocess text) options) (snd toLtr)
        /\ fst (fst toLtr)
           = match process (preprocess text) options
                     (ownKeys (JObj props)) with
             | Some out => inr (freshResult text out clk None)
             | None => inl conversionError
             end)
  /\ (forall e,
        fst (fst toRtl) = inl e \/ fst (fst toLtr) = inl e ->
        errorCode e = "INVALID_CSS" \/ errorCode e = "CONVERSION_ERROR").
Proof.
  intros Hin Hnot Ha options toRtl toLtr.
  split; [now apply ValidatorFacts.validate_rejects_unknown with k|].
  split; [intros k'; apply (ValidatorFacts.invalidOptions_spec (JObj props))|].
  split; [|split].
  - unfold options, mergeOptions, spread.
    rewrite ValidatorFacts.has_key_assign_all.
    simpl ownProps at 2.
    replace (has_key k props) with true; [apply orb_true_r|].
    symmetry. now apply ValidatorFacts.has_key_in.
  - intros text I. unfold toRtl, toLtr.
    rewrite ltrToRtl_unfold, rtlToLtr_unfold.
    unfold ltrToRtl_cases, rtlToLtr_cases.
    destruct (input readFile a) as [[x|text0] evs]; simpl in I;
      [discriminate|]. injection I as ->.
    rewrite Ha. fold options. cbv zeta.
    split; [|split; [|split]].
    + destruct (Cache.get (fingerprint md5_hex text options) (now_get clk) c)
        as [[hit|] c1]; simpl.
      * apply in_or_app. right. left. reflexivity.
      * destruct (process text options (ownKeys (JObj props))); simpl;
          apply in_or_app; right; left; reflexivity.
    + intros G.
      destruct (Cache.get (fingerprint md5_hex text options) (now_get clk) c)
        as [[hit|] c1]; simpl in G; [discriminate|].
      destruct (process text options (ownKeys (JObj props))); simpl;
        (split; [apply in_or_app; right; right; left; reflexivity
                |reflexivity]).
    + destruct (process (preprocess text) options (ownKeys (JObj props)));
        simpl; apply in_or_app; right; left; reflexivity.
    + destruct (process (preprocess text) options (ownKeys (JObj props)));
        reflexivity.
  - intros e H. apply entry_point_errors in H as [->| ->]; [now left|now right].
Qed.

Lemma mergeOptions_values (o : obj) :
  NoDup (map fst o) ->
  (forall k, In k (map fst o) -> In k Validator.allowedOptions) ->
  mergeOptions (JObj o)
  = map (fun kv => (fst kv, optionValue o (fst kv))) defaultOptions.
Proof.
  intros ND Sub. unfold mergeOptions, spread.
  change (assign_all [] (ownProps (JObj defaultOptions))) with defaultOptions.
  change (ownProps (JObj o)) with o.
  rewrite ValidatorFacts.assign_all_overlay.
  - apply map_ext_in. intros [k d] H. simpl.
    rewrite (@ValidatorFacts.overlay_lookup o k d ND). unfold optionValue.
    destruct (lookup k o); [reflexivity|].
    simpl in H. repeat (destruct H as [H|H]; [now inversion H|]). destruct H.
  - repeat constructor; simpl; intuition discriminate.
  - intros k H. apply Sub in H. exact H.
Qed.

(** The options the validator returns merge over the defaults to the
    same object as the options it was given. *)
Lemma validate_merge (o v : obj) :
  NoDup (map fst o) ->
  Validator.validateRtlcssOptions (JObj o) = inr v ->
  mergeOptions (JObj v) = mergeOptions (JObj o).
Proof using Type.
  intros ND H. apply ValidatorFacts.validate_holds in H as [Sub [NDv L]].
  assert (Subv : forall k, In k (map fst v) -> In k Validator.allowedOptions).
  { intros k Hk. apply ValidatorFacts.has_key_in in Hk.
    rewrite ValidatorFacts.lookup_has_key, L in Hk.
    destruct (Validator.includes Validator.allowedOptions k) eqn:E;
      [|discriminate].
    apply existsb_exists in E as [x [Hx E]]. apply String.eqb_eq in E.
    subst x. exact Hx. }
  rewrite (@mergeOptions_values v NDv Subv), (@mergeOptions_values o ND Sub).
  apply map_ext_in. intros [k d] Hk. simpl. f_equal.
  unfold optionValue. rewrite L.
  apply (in_map fst) in Hk. simpl in Hk.
  repeat (destruct Hk as [<-|Hk]; [reflexivity|]). destruct Hk.
Qed.

(** C4. The cache key is a function of the css text and of the value
    each recognised option has, given or defaulted: two option objects
    over the recognised keys that give every option the same value (an
    object or an array with its members in the same order), in
    whatever order and with a default written out or left out, have the
    same merged options and the same key, as they stand and after the
    validator. *)
Theorem fingerprint_normalized (text : string) (o1 o2 : obj) :
  NoDup (map fst o1) -> NoDup (map fst o2) ->
  (forall k, In k (map fst o1) -> In k Validator.allowedOptions) ->
  (forall k, In k (map fst o2) -> In k Validator.allowedOptions) ->
  (forall k, In k Validator.allowedOptions ->
             optionValue o1 k = optionValue o2 k) ->
  mergeOptions (JObj o1) = mergeOptions (JObj o2)
  /\ cacheKey md5_hex text (mergeOptions (JObj o1))
     = cacheKey md5_hex text (mergeOptions (JObj o2))
  /\ (forall v1 v2,
        Validator.validateRtlcssOptions (JObj o1) = inr v1 ->
        Validator.validateRtlcssOptions (JObj o2) = inr v2 ->
        cacheKey md5_hex text (mergeOptions (JObj v1))
        = cacheKey md5_hex text (mergeOptions (JObj v2))).
Proof using md5_hex.
  intros ND1 ND2 S1 S2 E.
  assert (M : mergeOptions (JObj o1) = mergeOptions (JObj o2)).
  { rewrite (@mergeOptions_values o1 ND1 S1), (@mergeOptions_values o2 ND2 S2).
    apply map_ext_in. intros [k d] H. simpl. f_equal. apply E.
    apply (in_map fst) in H. exact H. }
  split; [exact M|]. split; [rewrite M; reflexivity|].
  intros v1 v2 V1 V2.
  rewrite (@validate_merge o1 v1 ND1 V1), (@validate_merge o2 v2 ND2 V2), M.
  reflexivity.
Qed.

(** Whatever the engine and the options: if on the text [mirrored] it
    undoes what it did on the preprocessed [text], then [ltrToRtl]
    after [rtlToLtr] returns the preprocessed text, which is [text]
    only where the preprocessing changes nothing. *)
Lemma ltrToRtl_after_rtlToLtr (text mirrored : string) (o : jsval)
    (clk1 clk2 : Clock) (c : cache_t) :
  let call t :=
    {| css := JStr t; filePath := None; rtlcssOptions := o;
       apiKey := None |} in
  text <> EmptyString -> mirrored <> EmptyString ->
  process (preprocess text) (mergeOptions o) (ownKeys o) = Some mirrored ->
  process mirrored (mergeOptions o) (ownKeys o) = Some (preprocess text) ->
  fst (Cache.get (fingerprint md5_hex mirrored (mergeOptions o))
         (now_get clk1) c) = None ->
  convertedText (rtlToLtr process readFile (call text) clk2 c)
  = Some mirrored
  /\ convertedText
       (ltrToRtl process md5_hex readFile (call mirrored) clk1
          (snd (fst (rtlToLtr process readFile (call text) clk2 c))))
     = Some (preprocess text).
Proof using Type.
  intros call Ht Hm P1 P2 G.
  assert (Back : rtlToLtr process readFile (call text) clk2 c
                 = (inr (freshResult text mirrored clk2 None), c,
                    [Process (preprocess text) (mergeOptions o)])).
  { rewrite rtlToLtr_unfold. unfold rtlToLtr_cases.
    rewrite (@input_direct (call text) text eq_refl Ht). simpl rtlcssOptions.
    rewrite P1. reflexivity. }
  rewrite Back. split; [reflexivity|]. simpl snd. simpl fst.
  rewrite ltrToRtl_unfold. unfold ltrToRtl_cases.
  rewrite (@input_direct (call mirrored) mirrored eq_refl Hm).
  cbv zeta. simpl rtlcssOptions.
  destruct (Cache.get (fingerprint md5_hex mirrored (mergeOptions o))
              (now_get clk1) c) as [[hit|] c1]; [discriminate|].
  rewrite P2. reflexivity.
Qed.

End Service.

End ConvertFacts.

(** ** The engine and the two directions *)

Module EngineFacts.
Import Js Errors Convert Engine Fixtures.

Lemma suffix_free (p : string) :
  In p boxProperties -> matches suffixRule {| property := p; value := EmptyString; raw := EmptyString |} = false.
Proof.
  simpl. intros [<-|[<-|[<-|[]]]]; reflexivity.
Qed.

(** In a declaration of [margin], [padding] or [border-width] whose
    value has the four components (top, right, bottom, left), the rule
    table puts them in the order (top, left, bottom, right). *)
Lemma box_rule_reorders (d : Declaration) (t r b l : string) :
  In (property d) boxProperties ->
  words (value d) = [t; r; b; l] ->
  applyRules ruleTable d
  = {| property := property d;
       value := t ++ " " ++ l ++ " " ++ b ++ " " ++ r;
       raw := raw d |}.
Proof.
  intros P W. unfold ruleTable, applyRules.
  assert (S : matches suffixRule d = false).
  { rewrite <- (@suffix_free (property d) P). reflexivity. }
  rewrite S.
  assert (B : matches boxRule d = true).
  { simpl. rewrite W. simpl. rewrite andb_true_r.
    simpl in P. destruct P as [<-|[<-|[<-|[]]]]; reflexivity. }
  rewrite B. simpl. rewrite W. reflexivity.
Qed.

Lemma box_rule_reorders_padding :
  let d := {| property := "padding"; value := "5px 10px  15px 20px";
              raw := " padding: 5px 10px  15px 20px" |} in
  In (property d) boxProperties
  /\ words (value d) = ["5px"; "10px"; "15px"; "20px"]
  /\ applyRules ruleTable d
     = {| property := "padding"; value := "5px 20px 15px 10px";
          raw := raw d |}.
Proof.
  intros d. split; [right; left; reflexivity|]. split; [reflexivity|].
  apply (@box_rule_reorders d "5px" "10px" "15px" "20px").
  - right. left. reflexivity.
  - reflexivity.
Qed.

(** C10. The shorthand of the conversion test tool is not reordered by
    the call the tool makes.  With the options left to the defaults
    ([rtlcssOptions: {}], or none) the merged options hold the frozen
    [stringMap] of the configuration, the engine raises on it and
    [ltrToRtl] ends with [CONVERSION_ERROR], for
    [margin: 10px 20px 30px 40px;] as for any text.  The same call
    with a [stringMap] of its own returns
    [margin: 10px 40px 30px 20px;]. *)
Theorem shorthand_reorder_raises_on_defaults :
  let margin := "margin: 10px 20px 30px 40px;" in
  let test :=
    ".test { margin: 10px 20px 30px 40px; padding: 5px 10px 15px 20px; }" in
  let call text o :=
    {| css := JStr text; filePath := None; rtlcssOptions := o;
       apiKey := None |} in
  let toRtl a := ltrToRtl rtlcss digest noFile a clock1 Cache.new in
  fst (fst (toRtl (call margin (JObj [])))) = inl conversionError
  /\ snd (toRtl (call margin (JObj [])))
     = [CacheGet (fingerprint digest margin defaultOptions);
        Process margin defaultOptions; MonitorError "CONVERSION_ERROR"]
  /\ fst (fst (toRtl (plain margin))) = inl conversionError
  /\ fst (fst (toRtl (call test (JObj [])))) = inl conversionError
  /\ (forall text, text <> EmptyString ->
        fst (fst (toRtl (call text (JObj [])))) = inl conversionError)
  /\ convertedText (toRtl (explicit margin))
     = Some "margin: 10px 40px 30px 20px;"
  /\ convertedText (toRtl (explicit test))
     = Some ".test { margin: 10px 40px 30px 20px; padding: 5px 20px 15px 10px; }".
Proof.
  cbv beta zeta.
  split; [vm_compute; reflexivity|]. split; [vm_compute; reflexivity|].
  split; [vm_compute; reflexivity|]. split; [vm_compute; reflexivity|].
  split; [|split; vm_compute; reflexivity].
  intros text H. rewrite ConvertFacts.ltrToRtl_unfold.
  unfold ltrToRtl_cases.
  rewrite (@ConvertFacts.input_direct noFile
             {| css := JStr text; filePath := None; rtlcssOptions := JObj [];
                apiKey := None |} text eq_refl H).
  reflexivity.
Qed.

(** C1. The round trip fails on the stylesheet of the unit tests.
    [rtlToLtr] preprocesses the text, which already exchanges
    [margin-left] and [margin-right] (and [ltr] and [rtl]), and then
    runs the engine, which exchanges them again: it returns its input.
    So [rtlToLtr] after [ltrToRtl], and [ltrToRtl] after [rtlToLtr],
    both end on [margin-right], whatever the blanks.  Every call brings
    a [stringMap] of its own, [{ stringMap: [] }], built anew. *)
Theorem roundtrip_fails_on_margin_left
    (md5_hex : string -> string) (readFile : string -> option string)
    (clk1 clk2 : Clock) :
  let original := ".test { margin-left: 10px; }" in
  let mirrored := ".test { margin-right: 10px; }" in
  let toRtl text c := ltrToRtl rtlcss md5_hex readFile (explicit text) clk1 c in
  let toLtr text c := rtlToLtr rtlcss readFile (explicit text) clk2 c in
  preprocess mirrored = original
  /\ convertedText (toRtl original Cache.new) = Some mirrored
  /\ convertedText (toLtr mirrored (snd (fst (toRtl original Cache.new))))
     = Some mirrored
  /\ convertedText (toLtr original Cache.new) = Some original
  /\ convertedText (toRtl original (snd (fst (toLtr original Cache.new))))
     = Some mirrored
  /\ squeeze mirrored <> squeeze original
  /\ convertedText (toLtr ".test { direction: rtl; }" Cache.new)
     = Some ".test { direction: rtl; }".
Proof.
  cbv beta zeta.
  rewrite !ConvertFacts.rtlToLtr_unfold, !ConvertFacts.ltrToRtl_unfold.
  repeat split; try reflexivity. vm_compute. discriminate.
Qed.

End EngineFacts.

(** ** Scenarios *)

Module Scenarios.
Import Js Errors Convert Fixtures ConvertFacts EngineFacts.

(** A second call with the same css and a [stringMap] built anew, one
    second later, is served from the cache and reports the 3 ms of the
    first computation, not 0. *)
Lemma cache_hit_keeps_processing_time :
  let first := ltrToRtl rtlcss digest noFile (explicit sheet) clock1 Cache.new in
  let second :=
    ltrToRtl rtlcss digest noFile (explicit sheet) clock2 (snd (fst first)) in
  Cache.hits (Cache.stats (snd (fst second)))
  = Cache.hits (Cache.stats (snd (fst first))) + 1
  /\ exists r2, fst (fst first) = inr r2
                /\ fst (fst second) = inr r2
                /\ converted r2 = ".a { float: right; }"
                /\ processingTimeMs (stats r2) = 3
                /\ processingTimeMs (stats r2) <> 0.
Proof.
  cbv zeta. split; [vm_compute; reflexivity|].
  eexists. split; [vm_compute; reflexivity|].
  split; [vm_compute; reflexivity|].
  split; [reflexivity|]. split; [reflexivity|discriminate].
Qed.

Lemma cache_hit_returns_stored_result_witness :
  let a2 := {| css := JStr sheet; filePath := None;
               rtlcssOptions := ownStringMap; apiKey := Some "key-1" |} in
  let first := ltrToRtl rtlcss digest noFile (explicit sheet) clock1 Cache.new in
  let second := ltrToRtl rtlcss digest noFile a2 clock2 (snd (fst first)) in
  let r1 := freshResult sheet ".a { float: right; }" clock1 (Some false) in
  let it := {| Cache.value := r1; Cache.expiresAt := 1003 + 3600000 |} in
  let key := fingerprint digest sheet (mergeOptions ownStringMap) in
  first = (inr r1, snd (fst first), snd first)
  /\ Cache.map_get key (Cache.cache (snd (fst first))) = Some it
  /\ now_get clock2 <= Cache.expiresAt it
  /\ fst (fst second) = inr r1
  /\ Cache.hits (Cache.stats (snd (fst second)))
     = Cache.hits (Cache.stats (snd (fst first))) + 1
  /\ snd second = [CacheGet key; StatsRecord "key-1" "ltr_to_rtl" 19 20 0].
Proof.
  intros a2 first second r1 it key.
  assert (H1 : first = (inr r1, snd (fst first), snd first))
    by (vm_compute; reflexivity).
  assert (M : Cache.map_get key (Cache.cache (snd (fst first))) = Some it)
    by (vm_compute; reflexivity).
  assert (F : now_get clock2 <= Cache.expiresAt it) by (simpl; lia).
  destruct (@cache_hit_returns_stored_result rtlcss digest noFile
              (explicit sheet) a2 clock1 clock2 Cache.new (snd (fst first))
              r1 (snd first) sheet it H1 eq_refl eq_refl eq_refl eq_refl M F)
    as [Hr [_ [Hh [_ [_ [_ [_ [He _]]]]]]]].
  split; [exact H1|]. split; [exact M|]. split; [exact F|].
  split; [exact Hr|]. split; [exact Hh|exact He].
Defined.


(** A call whose css is the empty string and that names a file is not
    rejected: the file is read and converted, through the cache.  The
    call brings a [stringMap] of its own. *)
Lemma empty_css_with_file_is_converted :
  let a := {| css := JStr EmptyString; filePath := Some "style.css";
              rtlcssOptions := ownStringMap; apiKey := None |} in
  ~ nonEmptyString (css a)
  /\ convertedText (ltrToRtl rtlcss digest files a clock1 Cache.new)
     = Some ".a { float: right; }"
  /\ snd (ltrToRtl rtlcss digest files a clock1 Cache.new)
     = [ReadFile "style.css";
        CacheGet (fingerprint digest sheet (mergeOptions ownStringMap));
        Process sheet (mergeOptions ownStringMap);
        CacheSet (fingerprint digest sheet (mergeOptions ownStringMap));
        MonitorConversion "ltr_to_rtl" 19 20 3000000]
  /\ exists text,
       convertedText (rtlToLtr rtlcss files a clock1 Cache.new) = Some text.
Proof.
  cbv zeta. split.
  - intros [s [E H]]. injection E as <-. now apply H.
  - split; [vm_compute; reflexivity|]. split.
    + vm_compute. reflexivity.
    + eexists. vm_compute. reflexivity.
Qed.

Lemma invalid_css_rejected_first_witness :
  let a := {| css := JNum 42; filePath := Some "style.css";
              rtlcssOptions := ownStringMap; apiKey := None |} in
  let b := {| css := JNull; filePath := Some "empty.css";
              rtlcssOptions := ownStringMap; apiKey := None |} in
  (~ nonEmptyString (css a)
   /\ truthy (css a) = true
   /\ ltrToRtl rtlcss digest files a clock1 Cache.new
      = (inl invalidCss, Cache.new, [MonitorError "INVALID_CSS"]))
  /\ (truthy (css b) = false
      /\ files "empty.css" = Some EmptyString
      /\ rtlToLtr rtlcss files b clock1 Cache.new
         = (inl invalidCss, Cache.new, [ReadFile "empty.css"])).
Proof.
  intros a b.
  assert (Na : ~ nonEmptyString (css a)).
  { intros [s [E _]]. discriminate. }
  destruct (@invalid_css_rejected_first rtlcss digest files a clock1
              Cache.new) as [Ha _].
  destruct (@invalid_css_rejected_first rtlcss digest files b clock1
              Cache.new) as [_ Hb].
  split.
  - split; [exact Na|]. split; [reflexivity|].
    exact (proj1 (Ha Na (or_introl eq_refl))).
  - split; [reflexivity|]. split; [reflexivity|].
    exact (proj2 (proj1 (Hb "empty.css" eq_refl eq_refl eq_refl) eq_refl)).
Defined.

(** A conversion that fails changes the cache: the lookup that
    precedes it has counted a miss. *)
Lemma failed_conversion_counts_a_miss :
  let out := ltrToRtl raising digest noFile (plain "a {") clock1 Cache.new in
  fst (fst out) = inl conversionError
  /\ snd (fst out) <> Cache.new
  /\ Cache.misses (Cache.stats (snd (fst out))) = 1
  /\ Cache.misses (Cache.stats (@Cache.new Result)) = 0.
Proof.
  cbv zeta. split; [vm_compute; reflexivity|]. split.
  - vm_compute. discriminate.
  - split; vm_compute; reflexivity.
Qed.

Lemma failed_conversion_stores_nothing_witness :
  let out := ltrToRtl raising digest noFile (plain "a {") clock1 Cache.new in
  let options := mergeOptions JUndefined in
  In (Process "a {" options) (snd out)
  /\ raising "a {" options (ownKeys JUndefined) = None
  /\ fst (fst out) = inl conversionError
  /\ Cache.stored (Cache.stats (snd (fst out)))
     = Cache.stored (Cache.stats (@Cache.new Result))
  /\ Cache.misses (Cache.stats (snd (fst out)))
     = Cache.misses (Cache.stats (@Cache.new Result)) + 1.
Proof.
  intros out options.
  assert (H : out = (fst (fst out), snd (fst out), snd out))
    by (vm_compute; reflexivity).
  assert (P : In (Process "a {" options) (snd out)).
  { vm_compute. right. left. reflexivity. }
  destruct (@failed_conversion_stores_nothing raising digest noFile
              (plain "a {") clock1 Cache.new (snd (fst out)) (fst (fst out))
              (snd out) "a {" options H P eq_refl)
    as [Ho [_ [_ [_ [Hs [_ [Hm _]]]]]]].
  split; [exact P|]. split; [reflexivity|]. split; [exact Ho|].
  split; [exact Hs|exact Hm].
Defined.

(** Called with an option they do not know (and a [stringMap] of the
    caller's), the entry points convert all the same: the option is in
    the object the engine gets and in the text of the cache key. *)
Lemma unknown_option_is_not_rejected :
  let given := JObj [("bogus", JBool true); ("stringMap", JArr [])] in
  let a := {| css := JStr sheet; filePath := None; rtlcssOptions := given;
              apiKey := None |} in
  let options :=
    [ ("autoRename", JBool false); ("autoRenameStrict", JBool false);
      ("blacklist", JObj []); ("clean", JBool true);
      ("greedy", JBool false); ("processUrls", JBool false);
      ("stringMap", JArr []); ("useCalc", JBool false);
      ("bogus", JBool true) ] in
  ~ In "bogus" Validator.allowedOptions
  /\ mergeOptions given = options
  /\ fst (fst (ltrToRtl rtlcss digest noFile a clock1 Cache.new))
     = inr (freshResult sheet ".a { float: right; }" clock1 (Some false))
  /\ snd (ltrToRtl rtlcss digest noFile a clock1 Cache.new)
     = [CacheGet (fingerprint digest sheet options);
        Process sheet options;
        CacheSet (fingerprint digest sheet options);
        MonitorConversion "ltr_to_rtl" 19 20 3000000]
  /\ fingerprint digest sheet options
     <> fingerprint digest sheet (mergeOptions ownStringMap)
  /\ fst (fst (rtlToLtr rtlcss noFile a clock1 Cache.new))
     = inr (freshResult sheet ".a { float: right; }" clock1 None)
  /\ snd (rtlToLtr rtlcss noFile a clock1 Cache.new)
     = [Process (preprocess sheet) options].
Proof.
  cbv zeta. split.
  - simpl. intuition discriminate.
  - split; [reflexivity|]. split; [vm_compute; reflexivity|].
    split; [vm_compute; reflexivity|]. split; [vm_compute; discriminate|].
    split; vm_compute; reflexivity.
Qed.

Lemma unknown_option_rejected_by_validator_witness :
  let props := [("bogus", JBool true); ("clean", JBool false);
                ("stringMap", JArr [])] in
  let a := {| css := JStr sheet; filePath := None;
              rtlcssOptions := JObj props; apiKey := None |} in
  In "bogus" (map fst props)
  /\ ~ In "bogus" Validator.allowedOptions
  /\ Validator.validateRtlcssOptions (JObj props)
     = inl (validationError "Invalid RTLCSS options: bogus" "INVALID_OPTIONS")
  /\ has_key "bogus" (mergeOptions (JObj props)) = true
  /\ In (Process sheet (mergeOptions (JObj props)))
       (snd (ltrToRtl rtlcss digest noFile a clock1 Cache.new))
  /\ In (Process (preprocess sheet) (mergeOptions (JObj props)))
       (snd (rtlToLtr rtlcss noFile a clock1 Cache.new)).
Proof.
  intros props a.
  assert (I : In "bogus" (map fst props)) by (left; reflexivity).
  assert (N : ~ In "bogus" Validator.allowedOptions).
  { simpl. intuition discriminate. }
  destruct (@unknown_option_rejected_by_validator rtlcss digest noFile
              props "bogus" a clock1 Cache.new I N eq_refl)
    as [Hv [_ [Hk [Hp _]]]].
  destruct (Hp sheet eq_refl) as [_ [Hr [Hl _]]].
  split; [exact I|]. split; [exact N|]. split; [exact Hv|].
  split; [exact Hk|]. split; [exact (proj1 (Hr eq_refl))|exact Hl].
Defined.

Lemma fingerprint_normalized_witness :
  let o1 := [("useCalc", JBool true); ("greedy", JBool true);
             ("clean", JBool true)] in
  let o2 := [("greedy", JBool true); ("useCalc", JBool true)] in
  NoDup (map fst o1) /\ NoDup (map fst o2)
  /\ (forall k, In k Validator.allowedOptions ->
                optionValue o1 k = optionValue o2 k)
  /\ cacheKey digest sheet (mergeOptions (JObj o1))
     = cacheKey digest sheet (mergeOptions (JObj o2))
  /\ Validator.validateRtlcssOptions (JObj o1)
     = inr [("clean", JBool true); ("greedy", JBool true);
            ("useCalc", JBool true)]
  /\ Validator.validateRtlcssOptions (JObj o2)
     = inr [("greedy", JBool true); ("useCalc", JBool true)].
Proof.
  intros o1 o2.
  assert (N1 : NoDup (map fst o1)).
  { repeat constructor; simpl; intuition discriminate. }
  assert (N2 : NoDup (map fst o2)).
  { repeat constructor; simpl; intuition discriminate. }
  assert (S1 : forall k, In k (map fst o1) -> In k Validator.allowedOptions).
  { simpl. intros k [<-|[<-|[<-|[]]]]; tauto. }
  assert (S2 : forall k, In k (map fst o2) -> In k Validator.allowedOptions).
  { simpl. intros k [<-|[<-|[]]]; tauto. }
  assert (E : forall k, In k Validator.allowedOptions ->
                        optionValue o1 k = optionValue o2 k).
  { simpl. intros k H.
    repeat (destruct H as [<-|H]; [reflexivity|]). destruct H. }
  split; [exact N1|]. split; [exact N2|]. split; [exact E|].
  split; [|split; reflexivity].
  exact (proj1 (proj2 (@fingerprint_normalized digest sheet o1 o2
                         N1 N2 S1 S2 E))).
Defined.

(** Two option objects that are equal as key-value maps and have
    different keys.  The blacklists hold the same two entries, written
    in either order; the validator accepts both objects and returns
    them as they are; [JSON.stringify] writes the entries in the order
    of each object, so that the texts hashed differ, and the keys with
    them.  The same holds of two keys the entry points do not know,
    given in either order in a direct call. *)
Lemma fingerprint_reads_key_order :
  let b1 := JObj [("a", JBool true); ("b", JBool true)] in
  let b2 := JObj [("b", JBool true); ("a", JBool true)] in
  let o1 := JObj [("blacklist", b1)] in
  let o2 := JObj [("blacklist", b2)] in
  let u1 := JObj [("x", JNum 1); ("y", JNum 2)] in
  let u2 := JObj [("y", JNum 2); ("x", JNum 1)] in
  Validator.validateRtlcssOptions o1 = inr [("blacklist", b1)]
  /\ Validator.validateRtlcssOptions o2 = inr [("blacklist", b2)]
  /\ (forall k, get o1 k = get o2 k \/ k = "blacklist")
  /\ (forall k, get b1 k = get b2 k)
  /\ (forall k, get (JObj (mergeOptions o1)) k = get (JObj (mergeOptions o2)) k
                \/ k = "blacklist")
  /\ cacheKey digest sheet (mergeOptions o1)
     <> cacheKey digest sheet (mergeOptions o2)
  /\ (forall k, get u1 k = get u2 k)
  /\ (forall k, get (JObj (mergeOptions u1)) k = get (JObj (mergeOptions u2)) k)
  /\ cacheKey digest sheet (mergeOptions u1)
     <> cacheKey digest sheet (mergeOptions u2).
Proof.
  cbv zeta.
  assert (Two : forall (x y k : string) (v w : jsval), x <> y ->
             get (JObj [(x, v); (y, w)]) k = get (JObj [(y, w); (x, v)]) k).
  { intros x y k v w D. unfold get. cbn [ownProps lookup].
    destruct (String.eqb x k) eqn:X, (String.eqb y k) eqn:Y;
      try reflexivity.
    apply String.eqb_eq in X, Y. congruence. }
  split; [reflexivity|]. split; [reflexivity|]. split.
  { intros k. unfold get. cbn [ownProps lookup].
    destruct (String.eqb "blacklist" k) eqn:E; [right|left; reflexivity].
    apply String.eqb_eq in E. now subst. }
  split; [intros k; apply Two; discriminate|]. split.
  { intros k.
    match goal with
    | |- get (JObj ?m1) k = get (JObj ?m2) k \/ _ =>
        let v1 := eval vm_compute in m1 in
        let v2 := eval vm_compute in m2 in
        change m1 with v1; change m2 with v2
    end.
    unfold get. cbn [ownProps lookup].
    destruct (String.eqb "blacklist" k) eqn:E.
    - right. apply String.eqb_eq in E. now subst.
    - left. reflexivity. }
  split; [vm_compute; discriminate|].
  split; [intros k; apply Two; discriminate|].
  split; [|vm_compute; discriminate].
  intros k.
  match goal with
  | |- get (JObj ?m1) k = get (JObj ?m2) k =>
      let v1 := eval vm_compute in m1 in
      let v2 := eval vm_compute in m2 in
      change m1 with v1; change m2 with v2
  end.
  unfold get. cbn [ownProps lookup].
  repeat match goal with
         | |- context [String.eqb ?s k] =>
             let E := fresh "E" in
             destruct (String.eqb s k) eqn:E; try reflexivity
         end.
  apply String.eqb_eq in E7, E8. congruence.
Qed.

(** The options object of one call given again to the next: the
    engine has added its default maps to the caller's [stringMap], the
    key is another and the second call computes anew.  A call that
    leaves [stringMap] to the defaults has the key of a call that
    brings an empty one: alone it ends in [CONVERSION_ERROR], after
    that call it is served its result. *)
Lemma reused_options_are_computed_anew :
  let first := ltrToRtl rtlcss digest noFile (explicit sheet) clock1 Cache.new in
  let again :=
    ltrToRtl rtlcss digest noFile (reused (explicit sheet)) clock2
      (snd (fst first)) in
  let defaults :=
    ltrToRtl rtlcss digest noFile (plain sheet) clock2 (snd (fst first)) in
  rtlcssOptions (reused (explicit sheet))
  = JObj [("stringMap",
           JArr [stringMapEntry "left-right" ["left"; "Left"; "LEFT"]
                   ["right"; "Right"; "RIGHT"];
                 stringMapEntry "ltr-rtl" ["ltr"; "Ltr"; "LTR"]
                   ["rtl"; "Rtl"; "RTL"]])]
  /\ Cache.stats (snd (fst again))
     = {| Cache.hits := 0; Cache.misses := 2; Cache.stored := 2;
          Cache.evicted := 0 |}
  /\ ConvertOps.engineRan (snd again) = true
  /\ fst (fst (ltrToRtl rtlcss digest noFile (plain sheet) clock2 Cache.new))
     = inl conversionError
  /\ fst (fst defaults) = fst (fst first)
  /\ ConvertOps.engineRan (snd defaults) = false.
Proof.
  cbv zeta. repeat split; vm_compute; reflexivity.
Qed.

End Scenarios.

(** ** The cache over its histories *)

Module CacheMore.
Import Cache CacheOps.

Section WithValue.

Variable V : Type.

Lemma map_has_in (key : string) (m : list (string * Item V)) :
  map_has key m = true <-> In key (map fst m).
Proof.
  induction m as [|[k it] m IH]; simpl; [intuition discriminate|].
  rewrite orb_true_iff, String.eqb_eq, IH. tauto.
Qed.

Lemma map_delete_nodup (key : string) (m : list (string * Item V)) :
  NoDup (map fst m) -> NoDup (map fst (map_delete key m)).
Proof.
  induction m as [|[k it] m IH]; simpl; intros ND; [constructor|].
  inversion ND as [|? ? Hn ND']; subst.
  destruct (String.eqb k key); simpl; [exact ND'|].
  constructor; [|now apply IH].
  intros H. apply Hn. now apply CacheFacts.map_delete_keys in H.
Qed.

Lemma map_set_nodup (key : string) (it : Item V) (m : list (string * Item V)) :
  NoDup (map fst m) -> NoDup (map fst (map_set key it m)).
Proof.
  intros ND. unfold map_set. destruct (map_has key m) eqn:H.
  - now rewrite CacheFacts.map_replace_keys.
  - rewrite map_app. simpl. apply NoDup_app; [exact ND| |].
    + constructor; [intros []|constructor].
    + intros x Hx [<-|[]]. apply map_has_in in Hx. congruence.
Qed.

Lemma filter_keys (f : string * Item V -> bool) (k : string)
    (m : list (string * Item V)) :
  In k (map fst (filter f m)) -> In k (map fst m).
Proof.
  induction m as [|e m IH]; simpl; [tauto|].
  destruct (f e); simpl; tauto.
Qed.

Lemma filter_nodup (f : string * Item V -> bool) (m : list (string * Item V)) :
  NoDup (map fst m) -> NoDup (map fst (filter f m)).
Proof.
  induction m as [|e m IH]; simpl; intros ND; [constructor|].
  inversion ND as [|? ? Hn ND']; subst.
  destruct (f e); simpl; [|now apply IH].
  constructor; [|now apply IH].
  intros H. apply Hn. now apply filter_keys in H.
Qed.

Lemma evictOldest_nodup (c : CacheService V) :
  NoDup (map fst (cache c)) -> NoDup (map fst (cache (evictOldest c))).
Proof.
  intros ND. unfold evictOldest.
  destruct (fst (oldest (cache c))) as [k|]; [|exact ND].
  destruct (key_truthy (Some k)); simpl; [|exact ND].
  now apply map_delete_nodup.
Qed.

Lemma step_nodup (c : CacheService V) (o : op V) :
  NoDup (map fst (cache c)) -> NoDup (map fst (cache (step c o))).
Proof.
  intros ND. destruct o as [key v ttl now|key now|key| |now]; simpl.
  - apply map_set_nodup.
    destruct (maxSize <=? size c); [now apply evictOldest_nodup|exact ND].
  - unfold get. destruct (map_get key (cache c)) as [it|]; [|exact ND].
    destruct (expiresAt it <? now); simpl; [|exact ND].
    now apply map_delete_nodup.
  - now apply map_delete_nodup.
  - constructor.
  - now apply filter_nodup.
Qed.

(** X1. Whatever the calls made on a new cache, no key is stored
    twice. *)
Theorem cache_keys_distinct (ops : list (op V)) :
  NoDup (map fst (cache (run ops new))).
Proof.
  unfold run.
  assert (G : forall c, NoDup (map fst (cache c)) ->
                        NoDup (map fst (cache (fold_left (@step V) ops c)))).
  { induction ops as [|o ops IH]; intros c ND; simpl; [exact ND|].
    apply IH. now apply step_nodup. }
  apply G. constructor.
Qed.

(** *** Counters *)

Lemma evictOldest_balance (c : CacheService V) :
  size (evictOldest c) + evicted (stats (evictOldest c))
  = size c + evicted (stats c)
  /\ hits (stats (evictOldest c)) = hits (stats c)
  /\ misses (stats (evictOldest c)) = misses (stats c)
  /\ stored (stats (evictOldest c)) = stored (stats c)
  /\ evicted (stats c) <= evicted (stats (evictOldest c)).
Proof.
  unfold evictOldest.
  destruct (fst (oldest (cache c))) as [k|] eqn:E; [|repeat split; lia].
  destruct (key_truthy (Some k)); [|repeat split; lia].
  destruct (CacheFacts.oldest_is_least _ E) as [it [Hin _]].
  assert (K : In k (map fst (cache c))).
  { change k with (fst (k, it)). now apply in_map. }
  pose proof (CacheFacts.map_delete_length k (cache c) K) as L.
  unfold size. simpl. repeat split; lia.
Qed.

Lemma filter_split (f : string * Item V -> bool) (m : list (string * Item V)) :
  (List.length (filter f m) + List.length (filter (fun e => negb (f e)) m)
   = List.length m)%nat.
Proof.
  induction m as [|e m IH]; simpl; [reflexivity|].
  destruct (f e); simpl; lia.
Qed.

Lemma step_counted (c : CacheService V) (o : op V) (g s : Z) :
  counted c g s ->
  counted (step c o) (g + if is_get o then 1 else 0)
    (s + if is_set o then 1 else 0).
Proof.
  intros [Hg [Hs [H0 [H1 [H2 Hb]]]]].
  destruct o as [key v ttl now|key now|key| |now]; simpl.
  - unfold counted, set. cbv zeta.
    match goal with |- context [map_set ?k ?i ?m] =>
      pose proof (CacheFacts.map_set_length k i m) as L end.
    unfold size in *. simpl.
    destruct (maxSize <=? Z.of_nat (List.length (cache c))).
    + destruct (evictOldest_balance c) as [B [Bh [Bm [Bs Be]]]].
      unfold size in B. rewrite Bh, Bm, Bs. repeat split; lia.
    + repeat split; lia.
  - unfold counted, get.
    destruct (map_get key (cache c)) as [it|] eqn:G.
    + destruct (expiresAt it <? now); unfold size in *; simpl.
      * apply CacheFacts.map_get_in in G.
        assert (K : In key (map fst (cache c))).
        { change key with (fst (key, it)). now apply in_map. }
        pose proof (CacheFacts.map_delete_length key (cache c) K).
        repeat split; lia.
      * repeat split; lia.
    + unfold size in *. simpl. repeat split; lia.
  - unfold counted, size in *. simpl.
    assert (L : (List.length (map_delete key (cache c))
                 <= List.length (cache c))%nat).
    { clear. induction (cache c) as [|[k it] m IH]; simpl; [lia|].
      destruct (String.eqb k key); simpl; lia. }
    repeat split; lia.
  - unfold counted, size in *. simpl. repeat split; lia.
  - unfold counted, size in *. simpl.
    pose proof (filter_split (expired now) (cache c)).
    pose proof (Zle_0_nat (List.length (filter (expired now) (cache c)))).
    repeat split; lia.
Qed.

(** X2. After any calls on a new cache, [hits] and [misses] add up to
    the number of lookups, [stored] is the number of stores, and the
    entries held and the evictions counted together never exceed the
    stores. *)
Theorem cache_counters (ops : list (op V)) :
  let c := run ops new in
  hits (stats c) + misses (stats c) = gets ops
  /\ stored (stats c) = sets ops
  /\ size c + evicted (stats c) <= stored (stats c)
  /\ 0 <= hits (stats c) /\ 0 <= misses (stats c) /\ 0 <= evicted (stats c).
Proof.
  assert (G : forall (l : list (op V)) c g s, counted c g s ->
                counted (run l c)
                  (g + Z.of_nat (List.length (filter (@is_get V) l)))
                  (s + Z.of_nat (List.length (filter (@is_set V) l)))).
  { induction l as [|o l IH]; intros c g s H; simpl.
    - now rewrite !Z.add_0_r.
    - pose proof (IH _ _ _ (step_counted o H)) as R.
      unfold run in *. simpl.
      destruct (is_get o), (is_set o); simpl List.length;
        rewrite ?Nat2Z.inj_succ;
        replace (g + Z.succ (Z.of_nat (List.length (filter (@is_get V) l))))
          with (g + 1 + Z.of_nat (List.length (filter (@is_get V) l)))
          by lia;
        replace (s + Z.succ (Z.of_nat (List.length (filter (@is_set V) l))))
          with (s + 1 + Z.of_nat (List.length (filter (@is_set V) l)))
          by lia;
        rewrite ?Z.add_0_r in R; exact R. }
  assert (N : counted (@new V) 0 0).
  { unfold counted, size. simpl. repeat split; lia. }
  destruct (G ops _ _ _ N) as [Hg [Hs [H0 [H1 [H2 Hb]]]]].
  cbv zeta. unfold gets, sets. repeat split; try lia; assumption.
Qed.

Lemma run_nodup (ops : list (op V)) (c : CacheService V) :
  NoDup (map fst (cache c)) -> NoDup (map fst (cache (run ops c))).
Proof.
  revert c. induction ops as [|o ops IH]; intros c ND; simpl; [exact ND|].
  apply IH. now apply step_nodup.
Qed.

Lemma new_nodup (ops : list (op V)) :
  NoDup (map fst (cache (run ops new))).
Proof. apply run_nodup. constructor. Qed.

(** *** Storing and looking up *)

(** X3. A lookup of a key just stored returns the stored value up to
    and including the instant of its expiry, and nothing after it;
    the late lookup removes the entry. *)
Theorem set_then_get (key : string) (v : V) (ttl : option Z) (now now' : Z)
    (c : CacheService V) :
  let c1 := set key v ttl now c in
  fst (get key now' c1)
  = (if now + ttlOf ttl <? now' then None else Some v)
  /\ cache (snd (get key now' c1))
     = (if now + ttlOf ttl <? now' then map_delete key (cache c1)
        else cache c1).
Proof.
  cbv zeta. unfold get.
  assert (G : map_get key (cache (set key v ttl now c))
              = Some (entry v ttl now)).
  { unfold set. cbv zeta. simpl. apply CacheFacts.map_get_set_same. }
  rewrite G. unfold entry. simpl.
  destruct (now + ttlOf ttl <? now'); split; reflexivity.
Qed.

Lemma map_get_delete_other (key k : string) (m : list (string * Item V)) :
  k <> key -> map_get key (map_delete k m) = map_get key m.
Proof.
  intros N. induction m as [|[k0 it] m IH]; simpl; [reflexivity|].
  destruct (String.eqb k0 k) eqn:E.
  - apply String.eqb_eq in E. subst k0.
    destruct (String.eqb k key) eqn:E'; [|reflexivity].
    apply String.eqb_eq in E'. contradiction.
  - simpl. now rewrite IH.
Qed.

Lemma map_get_set_other (key k : string) (it : Item V)
    (m : list (string * Item V)) :
  k <> key -> map_get key (map_set k it m) = map_get key m.
Proof.
  intros N. unfold map_set. destruct (map_has k m).
  - induction m as [|[k0 it0] m IH]; simpl; [reflexivity|].
    destruct (String.eqb k0 k) eqn:E; simpl.
    + apply String.eqb_eq in E. subst k0.
      apply String.eqb_neq in N. now rewrite N.
    + now rewrite IH.
  - induction m as [|[k0 it0] m IH]; simpl.
    + destruct (String.eqb k key) eqn:E; [|reflexivity].
      apply String.eqb_eq in E. contradiction.
    + now rewrite IH.
Qed.

Lemma map_get_filter (key : string) (it : Item V)
    (f : string * Item V -> bool) (m : list (string * Item V)) :
  map_get key m = Some it -> f (key, it) = true ->
  map_get key (filter f m) = Some it.
Proof.
  intros G F. induction m as [|[k0 it0] m IH]; simpl in *; [discriminate|].
  destruct (String.eqb k0 key) eqn:E.
  - apply String.eqb_eq in E. subst k0. injection G as ->.
    rewrite F. simpl. now rewrite String.eqb_refl.
  - destruct (f (k0, it0)); simpl; [rewrite E|]; now apply IH.
Qed.

(** X4. An entry stays where it is, value and expiry unchanged, over
    every call other than: a [set] or [delete] of its key, a [clear],
    a lookup of its key or a sweep after its expiry, and a [set] made
    when the cache is full. *)
Theorem entry_survives (key : string) (it : Item V) (c : CacheService V)
    (o : op V) :
  map_get key (cache c) = Some it ->
  spares key it c o ->
  map_get key (cache (step c o)) = Some it.
Proof.
  intros G S. destruct o as [k v ttl now|k now|k| |now]; simpl in *.
  - destruct S as [N F]. unfold set. cbv zeta. simpl.
    apply Z.leb_gt in F. rewrite F.
    rewrite map_get_set_other by exact N. exact G.
  - unfold get. destruct (map_get k (cache c)) as [it'|] eqn:G'; [|exact G].
    destruct (expiresAt it' <? now) eqn:E; simpl; [|exact G].
    destruct (String.eqb k key) eqn:K.
    + apply String.eqb_eq in K. subst k.
      rewrite G in G'. injection G' as <-.
      apply Z.ltb_lt in E. destruct S as [N|L]; [now elim N|lia].
    + apply String.eqb_neq in K.
      rewrite map_get_delete_other by exact K. exact G.
  - rewrite map_get_delete_other by exact S. exact G.
  - destruct S.
  - apply map_get_filter; [exact G|].
    unfold expired. simpl. apply negb_true_iff, Z.ltb_ge. exact S.
Qed.

(** *** [delete] *)

(** X5. After any calls on a new cache, [delete] answers whether the
    key was stored, leaves no entry under it, drops the size by one
    exactly when it answers [true], and touches no counter and no
    other key. *)
Theorem delete_removes (ops : list (op V)) (key : string) :
  let c := run ops new in
  let r := delete key c in
  (fst r = true <-> In key (map fst (cache c)))
  /\ map_get key (cache (snd r)) = None
  /\ size (snd r) = size c - (if fst r then 1 else 0)
  /\ stats (snd r) = stats c
  /\ (forall k, k <> key ->
        map_get k (cache (snd r)) = map_get k (cache c)).
Proof.
  cbv zeta. unfold delete. simpl.
  pose proof (new_nodup ops) as ND.
  split; [apply map_has_in|].
  split; [now apply CacheFacts.map_get_delete_same|].
  split.
  - unfold size. simpl.
    destruct (map_has key (cache (run ops new))) eqn:H.
    + apply map_has_in in H.
      pose proof (CacheFacts.map_delete_length key _ H). lia.
    + assert (N : ~ In key (map fst (cache (run ops new)))).
      { intros I. apply map_has_in in I. congruence. }
      revert N. generalize (cache (run ops new)) as m.
      induction m as [|[k it] m IH]; simpl; intros N; [lia|].
      destruct (String.eqb k key) eqn:E.
      * apply String.eqb_eq in E. elim N. now left.
      * simpl List.length.
        assert (N' : ~ In key (map fst m)) by (intros I; apply N; now right).
        specialize (IH N'). lia.
  - split; [reflexivity|].
    intros k N. apply map_get_delete_other. congruence.
Qed.

(** *** [runGarbageCollection] *)

Lemma evict_zero (s : Stats) : evict 0 s = s.
Proof. destruct s. unfold evict. simpl. now rewrite Z.add_0_r. Qed.

Lemma filter_none (f : string * Item V -> bool) (m : list (string * Item V)) :
  (forall e, In e m -> f e = false) -> filter f m = [].
Proof.
  induction m as [|e m IH]; simpl; intros H; [reflexivity|].
  rewrite (H e) by now left. apply IH. intros e' I. apply H. now right.
Qed.

Lemma filter_all (f : string * Item V -> bool) (m : list (string * Item V)) :
  (forall e, In e m -> f e = true) -> filter f m = m.
Proof.
  induction m as [|e m IH]; simpl; intros H; [reflexivity|].
  rewrite (H e) by now left. f_equal. apply IH. intros e' I. apply H.
  now right.
Qed.

(** X6. A sweep at time [now] removes exactly the entries whose
    expiry is before [now], keeps the others in their order, adds the
    number removed to [evicted], and a second sweep at the same time
    changes nothing. *)
Theorem sweep_removes_expired (now : Z) (c : CacheService V) :
  let c' := runGarbageCollection now c in
  (forall k it, In (k, it) (cache c')
                <-> In (k, it) (cache c) /\ now <= expiresAt it)
  /\ cache c' = filter (fun e => now <=? expiresAt (snd e)) (cache c)
  /\ evicted (stats c') = evicted (stats c) + (size c - size c')
  /\ hits (stats c') = hits (stats c)
  /\ misses (stats c') = misses (stats c)
  /\ stored (stats c') = stored (stats c)
  /\ runGarbageCollection now c' = c'.
Proof.
  cbv zeta. unfold runGarbageCollection. simpl.
  split.
  { intros k it. rewrite filter_In. unfold expired. simpl.
    rewrite negb_true_iff, Z.ltb_ge. reflexivity. }
  split.
  { apply filter_ext. intros e. unfold expired.
    destruct (Z.ltb_spec (expiresAt (snd e)) now);
      destruct (Z.leb_spec now (expiresAt (snd e))); simpl; lia || reflexivity. }
  split.
  { unfold size. simpl.
    pose proof (filter_split (expired now) (cache c)). lia. }
  do 3 (split; [reflexivity|]).
  assert (K : forall e, In e (filter (fun e => negb (expired now e)) (cache c))
                        -> expired now e = false).
  { intros e I. apply filter_In in I. now apply negb_true_iff. }
  rewrite (filter_none _ _ K). simpl. rewrite evict_zero.
  f_equal. apply filter_all. intros e I. rewrite (K e I). reflexivity.
Qed.

(** X7. Right after a sweep, a lookup made at the time of the sweep
    finds every entry the sweep left. *)
Theorem sweep_then_get (now : Z) (c : CacheService V) (key : string)
    (it : Item V) :
  In (key, it) (cache (runGarbageCollection now c)) ->
  exists v, fst (get key now (runGarbageCollection now c)) = Some v.
Proof.
  intros I. unfold get.
  destruct (map_get key (cache (runGarbageCollection now c))) as [it'|] eqn:G.
  - apply CacheFacts.map_get_in in G.
    unfold runGarbageCollection in G. simpl in G.
    apply filter_In in G. destruct G as [_ G].
    unfold expired in G. simpl in G. apply negb_true_iff in G.
    rewrite G. eexists. reflexivity.
  - exfalso.
    assert (H : map_has key (cache (runGarbageCollection now c)) = true).
    { apply map_has_in. change key with (fst (key, it)). now apply in_map. }
    rewrite CacheFacts.map_get_has, G in H. discriminate.
Qed.

(** *** The bound on the size *)

Lemma step_truthy (c : CacheService V) (o : op V) :
  match o with OpSet key _ _ _ => key <> EmptyString | _ => True end ->
  keys_truthy (cache c) -> keys_truthy (cache (step c o)).
Proof.
  intros T K. destruct o as [key v ttl now|key now|key| |now]; simpl.
  - now apply CacheFacts.set_keys_truthy.
  - unfold get. destruct (map_get key (cache c)) as [it|]; [|exact K].
    destruct (expiresAt it <? now); simpl; [|exact K].
    intros k I. apply K. now apply CacheFacts.map_delete_keys in I.
  - intros k I. apply K. now apply CacheFacts.map_delete_keys in I.
  - intros k [].
  - intros k I. apply K. now apply filter_keys in I.
Qed.

Lemma map_delete_le (key : string) (m : list (string * Item V)) :
  (List.length (map_delete key m) <= List.length m)%nat.
Proof.
  induction m as [|[k it] m IH]; simpl; [lia|].
  destruct (String.eqb k key); simpl; lia.
Qed.

Lemma step_bounded (c : CacheService V) (o : op V) :
  keys_truthy (cache c) -> size c <= maxSize -> size (step c o) <= maxSize.
Proof.
  intros K B. destruct o as [key v ttl now|key now|key| |now]; simpl.
  - now apply CacheFacts.set_bounded.
  - unfold get. destruct (map_get key (cache c)) as [it|]; [|exact B].
    destruct (expiresAt it <? now); simpl; [|exact B].
    unfold size in *. simpl. pose proof (map_delete_le key (cache c)). lia.
  - unfold size in *. simpl. pose proof (map_delete_le key (cache c)). lia.
  - unfold size. simpl. unfold maxSize. lia.
  - unfold size in *. simpl.
    pose proof (filter_split (expired now) (cache c)). lia.
Qed.

Lemma run_bounded (ops : list (op V)) (c : CacheService V) :
  sets_truthy ops -> keys_truthy (cache c) -> size c <= maxSize ->
  keys_truthy (cache (run ops c)) /\ size (run ops c) <= maxSize.
Proof.
  intros T. revert c.
  induction T as [|o ops To T IH]; intros c K B; simpl; [now split|].
  apply IH; [now apply step_truthy|now apply step_bounded].
Qed.

(** X8. As long as nothing is stored under the empty key, and every
    [ttl] given is a finite number, the cache never holds more than
    [maxSize] entries, whatever the calls. *)
Theorem size_bounded (ops : list (op V)) :
  sets_truthy ops -> size (run ops new) <= maxSize.
Proof.
  intros T. apply run_bounded.
  - exact T.
  - intros k [].
  - unfold size, maxSize. simpl. lia.
Qed.

(** X9. A [set] on a full cache without an empty key, whose entries
    all have a finite expiry, first removes one entry whose expiry is
    the least of all, then stores the new entry, so the cache is no
    larger than before and holds the new value; [evicted] goes up by
    one whether or not the key was stored already. *)
Theorem set_on_full_cache (key : string) (v : V) (ttl : option Z) (now : Z)
    (c : CacheService V) :
  keys_truthy (cache c) -> maxSize <= size c ->
  (exists k it,
      In (k, it) (cache c)
      /\ (forall k' it', In (k', it') (cache c)
                         -> expiresAt it <= expiresAt it')
      /\ cache (set key v ttl now c)
         = map_set key (entry v ttl now) (map_delete k (cache c)))
  /\ size (set key v ttl now c) <= size c
  /\ evicted (stats (set key v ttl now c)) = evicted (stats c) + 1
  /\ map_get key (cache (set key v ttl now c)) = Some (entry v ttl now).
Proof.
  intros K F. split; [exact (@CacheFacts.set_evicts_least V key v ttl now c K F)|].
  assert (NE : cache c <> []).
  { intros E. unfold size, maxSize in F. rewrite E in F. simpl in F. lia. }
  pose proof (@CacheFacts.evictOldest_shrinks V c NE K) as Sh.
  assert (Ev : evicted (stats (evictOldest c)) = evicted (stats c) + 1).
  { unfold evictOldest.
    destruct (CacheFacts.oldest_nonempty NE) as [k Hk]. rewrite Hk.
    destruct (CacheFacts.oldest_is_least _ Hk) as [it [I _]].
    assert (T : key_truthy (Some k) = true).
    { simpl. apply negb_true_iff, String.eqb_neq. apply K.
      change k with (fst (k, it)). now apply in_map. }
    rewrite T. reflexivity. }
  unfold set. cbv zeta. apply Z.leb_le in F. rewrite F. simpl.
  split.
  { unfold size. simpl.
    match goal with |- context [map_set ?a ?b ?m] =>
      pose proof (CacheFacts.map_set_length a b m) end. lia. }
  split; [exact Ev|].
  apply CacheFacts.map_get_set_same.
Qed.

Lemma map_set_in (key k : string) (it0 it : Item V)
    (m : list (string * Item V)) :
  In (k, it) (map_set key it0 m) -> (k, it) = (key, it0) \/ In (k, it) m.
Proof.
  unfold map_set. destruct (map_has key m).
  - induction m as [|[k0 i0] m IH]; simpl; [tauto|].
    destruct (String.eqb k0 key) eqn:E; simpl.
    + apply String.eqb_eq in E. subst k0.
      intros [H|H]; [left; now symmetry|right; right; assumption].
    + intros [H|H]; [right; left; exact H|].
      destruct (IH H) as [H'|H']; [left|right; right]; assumption.
  - intros H. apply in_app_or in H. destruct H as [H|[H|[]]];
      [right|left]; [assumption|now symmetry].
Qed.

Lemma evictOldest_incl (c : CacheService V) :
  incl (cache (evictOldest c)) (cache c).
Proof.
  unfold evictOldest.
  destruct (fst (oldest (cache c))) as [k|]; [|apply incl_refl].
  destruct (key_truthy (Some k)); [|apply incl_refl].
  simpl. apply CacheFacts.map_delete_incl.
Qed.

Lemma get_incl (key : string) (now : Z) (c : CacheService V) :
  incl (cache (snd (get key now c))) (cache c).
Proof.
  unfold get. destruct (map_get key (cache c)) as [it|];
    [|apply incl_refl].
  destruct (expiresAt it <? now); simpl; [|apply incl_refl].
  apply CacheFacts.map_delete_incl.
Qed.

Lemma set_in (key k : string) (v : V) (ttl : option Z) (now : Z)
    (it : Item V) (c : CacheService V) :
  In (k, it) (cache (set key v ttl now c)) ->
  (k = key /\ value it = v) \/ In (k, it) (cache c).
Proof.
  unfold set. cbv zeta. simpl. intros H.
  apply map_set_in in H. destruct H as [H|H].
  - left. injection H as -> ->. split; reflexivity.
  - right. destruct (maxSize <=? size c); [|exact H].
    now apply evictOldest_incl.
Qed.

End WithValue.

Lemma keys_truthy_check (V : Type) (m : list (string * Item V)) :
  forallb (fun k => negb (String.eqb k EmptyString)) (map fst m) = true ->
  keys_truthy m.
Proof.
  intros H k I. rewrite forallb_forall in H. specialize (H k I).
  now apply negb_true_iff, String.eqb_neq in H.
Qed.

Lemma entry_survives_witness :
  let c := set "a" "css" (Some 10) 0 (@new string) in
  map_get "a" (cache (step c (OpSet "b" "x" None 1)))
  = Some {| value := "css"; expiresAt := 10 |}.
Proof.
  cbv zeta.
  apply (@entry_survives string "a" {| value := "css"; expiresAt := 10 |}
           (set "a" "css" (Some 10) 0 (@new string)) (OpSet "b" "x" None 1)).
  - reflexivity.
  - simpl. split; [discriminate|reflexivity].
Defined.

Lemma sweep_then_get_witness :
  let c := set "a" "css" (Some 10) 0 (@new string) in
  exists v, fst (get "a" 5 (runGarbageCollection 5 c)) = Some v.
Proof.
  cbv zeta.
  apply (@sweep_then_get string 5 (set "a" "css" (Some 10) 0 (@new string))
           "a" {| value := "css"; expiresAt := 10 |}).
  simpl. left. reflexivity.
Defined.

Lemma size_bounded_witness :
  size (run [OpSet "a" "css" None 0; OpGet "a" 1; OpSet "b" "x" (Some 5) 2;
             OpSweep 9; OpDelete "a"] (@new string)) <= maxSize.
Proof.
  apply (@size_bounded string).
  unfold sets_truthy.
  apply Forall_cons; [discriminate|].
  apply Forall_cons; [exact I|].
  apply Forall_cons; [discriminate|].
  apply Forall_cons; [exact I|].
  apply Forall_cons; [exact I|].
  apply Forall_nil.
Defined.

Lemma set_on_full_cache_witness :
  let c := Fixtures.fill 1 1000 new in
  size c = maxSize
  /\ size (set "x" "css" None 2000 c) <= size c
  /\ evicted (stats (set "x" "css" None 2000 c)) = evicted (stats c) + 1.
Proof.
  cbv zeta.
  assert (K : keys_truthy (cache (Fixtures.fill 1 1000 new))).
  { apply keys_truthy_check. vm_compute. reflexivity. }
  assert (F : maxSize <= size (Fixtures.fill 1 1000 new)).
  { vm_compute. discriminate. }
  split; [vm_compute; reflexivity|].
  split.
  - exact (proj1 (proj2 (@set_on_full_cache string "x" "css" None 2000
                           (Fixtures.fill 1 1000 new) K F))).
  - exact (proj1 (proj2 (proj2 (@set_on_full_cache string "x" "css" None 2000
                                  (Fixtures.fill 1 1000 new) K F)))).
Defined.

(** *** [generateKey] *)

Section Keys.

Variable md5_hex : string -> string.

Lemma colon_split (p1 p2 r1 r2 : string) :
  colon_free p1 = true -> colon_free p2 = true ->
  (p1 ++ ":" ++ r1)%string = (p2 ++ ":" ++ r2)%string ->
  p1 = p2 /\ r1 = r2.
Proof.
  revert p2. induction p1 as [|a p1 IH]; intros [|b p2] C1 C2 E; simpl in *.
  - injection E as E. now split.
  - injection E as E _. subst b. simpl in C2. discriminate.
  - injection E as E _. subst a. simpl in C1. discriminate.
  - injection E as -> E.
    apply andb_true_iff in C1, C2.
    destruct (IH p2 (proj2 C1) (proj2 C2) E) as [-> ->]. now split.
Qed.

(** The text [generateKey] puts after the colon. *)
Lemma generateKey_shape (prefix : string) (data : Js.jsval) (k : string) :
  generateKey md5_hex prefix data = Some k ->
  exists r, k = (prefix ++ ":" ++ r)%string
            /\ match data with
               | Js.JStr s => r = s
               | _ => option_map md5_hex (Js.stringify data) = Some r
               end.
Proof.
  unfold generateKey. intros H.
  destruct data; try (destruct (Js.stringify _) as [t|] eqn:S;
    [injection H as <-; eexists; split; [reflexivity|];
     try rewrite S; reflexivity|discriminate]).
  injection H as <-. eexists. split; reflexivity.
Qed.

(** X10. Keys made with prefixes that hold no colon fall in disjoint
    name spaces: two calls give the same key only under the same
    prefix, and then only for the same string, for two values whose
    JSON texts have the same digest, or for a string that is the
    digest of the other value's JSON text. *)
Theorem generateKey_separates (p1 p2 : string) (d1 d2 : Js.jsval)
    (k : string) :
  colon_free p1 = true -> colon_free p2 = true ->
  generateKey md5_hex p1 d1 = Some k ->
  generateKey md5_hex p2 d2 = Some k ->
  p1 = p2
  /\ match d1, d2 with
     | Js.JStr s1, Js.JStr s2 => s1 = s2
     | Js.JStr s, d | d, Js.JStr s =>
         option_map md5_hex (Js.stringify d) = Some s
     | _, _ =>
         option_map md5_hex (Js.stringify d1)
         = option_map md5_hex (Js.stringify d2)
     end.
Proof using Type.
  intros C1 C2 G1 G2.
  destruct (generateKey_shape _ _ G1) as [r1 [E1 B1]].
  destruct (generateKey_shape _ _ G2) as [r2 [E2 B2]].
  rewrite E1 in E2.
  destruct (colon_split _ _ _ _ C1 C2 E2) as [-> ->].
  split; [reflexivity|].
  destruct d1, d2; subst; try congruence.
Qed.

End Keys.

Lemma generateKey_separates_witness :
  let o := Js.JObj [("css", Js.JStr ".a{}")] in
  let t := match Js.stringify o with Some t => t | None => EmptyString end in
  generateKey Fixtures.digest "ltr2rtl" o
  = generateKey Fixtures.digest "ltr2rtl" (Js.JStr t)
  /\ option_map Fixtures.digest (Js.stringify o) = Some t.
Proof.
  cbv zeta. split; [reflexivity|].
  apply (@generateKey_separates Fixtures.digest "ltr2rtl" "ltr2rtl"
           (Js.JObj [("css", Js.JStr ".a{}")])
           (Js.JStr match Js.stringify (Js.JObj [("css", Js.JStr ".a{}")])
                    with Some t => t | None => EmptyString end)
           (match generateKey Fixtures.digest "ltr2rtl"
                    (Js.JObj [("css", Js.JStr ".a{}")])
            with Some k => k | None => EmptyString end)).
  - reflexivity.
  - reflexivity.
  - reflexivity.
  - reflexivity.
Defined.

End CacheMore.

(** ** The conversion service over its histories *)

Module ConvertMore.
Import Js Errors Convert ConvertOps.

Section Service.

Variable process : string -> obj -> list string -> option string.
Variable md5_hex : string -> string.
Variable readFile : string -> option string.

Lemma fingerprint_truthy (text : string) (options : obj) :
  fingerprint md5_hex text options <> EmptyString.
Proof using Type.
  pose proof (@ConvertFacts.cacheKey_total md5_hex text options) as T.
  intros E. rewrite E in T. unfold cacheKey, Cache.generateKey in T.
  destruct (stringify _) as [t|]; discriminate.
Qed.

(** What a call does to the cache, as calls of the cache's methods. *)
Lemma serve_ops (c : cache_t) (x : call) :
  exists ops, snd (fst (serve process md5_hex readFile c x)) = CacheOps.run ops c
              /\ CacheOps.sets_truthy ops.
Proof using Type.
  destruct x as [a clk|a clk]; simpl.
  - rewrite ConvertFacts.ltrToRtl_unfold. unfold ltrToRtl_cases.
    destruct (input readFile a) as [[e|text] evs0].
    + exists []. split; [reflexivity|constructor].
    + cbv zeta.
      set (key := fingerprint md5_hex text (mergeOptions (rtlcssOptions a))).
      destruct (Cache.get key (now_get clk) c) as [[hit|] c1] eqn:G.
      * exists [CacheOps.OpGet key (now_get clk)]. simpl. rewrite G.
        split; [reflexivity|]. repeat constructor.
      * destruct (process text (mergeOptions (rtlcssOptions a))
        (ownKeys (rtlcssOptions a))) as [out|].
        -- exists [CacheOps.OpGet key (now_get clk);
                   CacheOps.OpSet key (freshResult text out clk (Some false))
                     None (now_set clk)].
           simpl. rewrite G. split; [reflexivity|].
           constructor; [exact I|]. constructor; [|constructor].
           apply fingerprint_truthy.
        -- exists [CacheOps.OpGet key (now_get clk)]. simpl. rewrite G.
           split; [reflexivity|]. repeat constructor.
  - rewrite ConvertFacts.rtlToLtr_unfold. unfold rtlToLtr_cases.
    exists []. split; [|constructor].
    destruct (input readFile a) as [[e|text] evs0]; [reflexivity|].
    cbv zeta. destruct (process _ _ _); reflexivity.
Qed.

Lemma run_app (V : Type) (l1 l2 : list (CacheOps.op V))
    (c : Cache.CacheService V) :
  CacheOps.run (l1 ++ l2) c = CacheOps.run l2 (CacheOps.run l1 c).
Proof using Type. unfold CacheOps.run. apply fold_left_app. Qed.

Lemma after_ops (calls : list call) (c : cache_t) :
  exists ops, after process md5_hex readFile calls c = CacheOps.run ops c
              /\ CacheOps.sets_truthy ops.
Proof using Type.
  revert c. induction calls as [|x calls IH]; intros c; simpl.
  - exists []. split; [reflexivity|constructor].
  - destruct (serve_ops c x) as [o1 [E1 T1]].
    destruct (IH (snd (fst (serve process md5_hex readFile c x))))
      as [o2 [E2 T2]].
    exists (o1 ++ o2)%list. split.
    + unfold after in *. rewrite E2, E1. symmetry. apply run_app.
    + unfold CacheOps.sets_truthy in *. apply Forall_app. split; assumption.
Qed.

(** X11. Whatever conversions are served from a new cache, the cache
    holds at most [maxSize] entries, no key twice and none under the
    empty key. *)
Theorem service_cache_bounded (calls : list call) :
  let c := after process md5_hex readFile calls Cache.new in
  Cache.size c <= Cache.maxSize
  /\ NoDup (map fst (Cache.cache c))
  /\ Cache.keys_truthy (Cache.cache c).
Proof using Type.
  cbv zeta. destruct (after_ops calls Cache.new) as [ops [E T]].
  rewrite E.
  assert (K : Cache.keys_truthy (Cache.cache (@Cache.new Result))).
  { intros k []. }
  assert (B : Cache.size (@Cache.new Result) <= Cache.maxSize).
  { unfold Cache.size, Cache.maxSize. simpl. lia. }
  destruct (@CacheMore.run_bounded Result ops Cache.new T K B) as [K' B'].
  split; [exact B'|]. split; [|exact K'].
  apply CacheMore.new_nodup.
Qed.

(** *** What the cache holds *)

Lemma storedBy_more (calls : list call) (x : call) (key : string)
    (it : Cache.Item Result) :
  storedBy process md5_hex readFile calls key it ->
  storedBy process md5_hex readFile (calls ++ [x]) key it.
Proof using Type.
  intros [a [clk [text [out [I H]]]]].
  exists a, clk, text, out. split; [|exact H].
  apply in_or_app. left. exact I.
Qed.

Lemma after_snoc (calls : list call) (x : call) (c : cache_t) :
  after process md5_hex readFile (calls ++ [x]) c
  = snd (fst (serve process md5_hex readFile
                (after process md5_hex readFile calls c) x)).
Proof using Type. unfold after. rewrite fold_left_app. reflexivity. Qed.

(** Every entry of the cache is the result of an earlier [ltrToRtl]
    call. *)
Lemma entries_storedBy (calls : list call) (key : string)
    (it : Cache.Item Result) :
  In (key, it) (Cache.cache (after process md5_hex readFile calls Cache.new)) ->
  storedBy process md5_hex readFile calls key it.
Proof using Type.
  revert key it. induction calls as [|x calls IH] using rev_ind;
    intros key it H; [destruct H|].
  rewrite after_snoc in H.
  set (c := after process md5_hex readFile calls Cache.new) in *.
  destruct x as [a clk|a clk]; simpl in H.
  - rewrite ConvertFacts.ltrToRtl_unfold in H. unfold ltrToRtl_cases in H.
    destruct (input readFile a) as [[e|text] evs0] eqn:In0.
    + apply storedBy_more. apply IH. exact H.
    + cbv zeta in H.
      pose proof (@CacheMore.get_incl Result
                    (fingerprint md5_hex text (mergeOptions (rtlcssOptions a)))
                    (now_get clk) c) as Inc.
      destruct (Cache.get (fingerprint md5_hex text
                             (mergeOptions (rtlcssOptions a)))
                  (now_get clk) c) as [[hit|] c1].
      * apply storedBy_more. apply IH. apply Inc. exact H.
      * destruct (process text (mergeOptions (rtlcssOptions a))
        (ownKeys (rtlcssOptions a)))
          as [out|] eqn:P.
        -- cbn [fst snd] in H. apply CacheMore.set_in in H. destruct H as [[-> Hv]|H].
           ++ exists a, clk, text, out. split.
              ** apply in_or_app. right. left. reflexivity.
              ** rewrite In0. repeat split; try reflexivity; assumption.
           ++ apply storedBy_more. apply IH. apply Inc. exact H.
        -- apply storedBy_more. apply IH. apply Inc. exact H.
  - rewrite ConvertFacts.rtlToLtr_unfold in H. unfold rtlToLtr_cases in H.
    apply storedBy_more. apply IH.
    destruct (input readFile a) as [[e|text] evs0]; [exact H|].
    cbv zeta in H. destruct (process _ _ _); exact H.
Qed.

(** *** What a call reports *)

Lemma input_shape (a : Args) :
  (snd (input readFile a) = []
   \/ exists path, snd (input readFile a) = [ReadFile path])
  /\ match fst (input readFile a) with
     | inl e => e = Thrown invalidCss \/ e = Foreign
     | inr _ => True
     end.
Proof using Type.
  unfold input.
  destruct (filePath a) as [path|];
    [destruct (negb (truthy (css a)) && given (Some path));
     [destruct (readFile path) as [t|]; [destruct (rejected (JStr t))|]|]|];
    try destruct (rejected (css a)); simpl; split;
    try (left; reflexivity); try (right; eexists; reflexivity);
    try exact I; try (left; reflexivity); right; reflexivity.
Qed.

Lemma input_quiet (a : Args) :
  records (snd (input readFile a)) = []
  /\ monitored (snd (input readFile a)) = []
  /\ engineRan (snd (input readFile a)) = false.
Proof using Type.
  destruct (input_shape a) as [[E|[path E]] _]; rewrite E;
    repeat split; reflexivity.
Qed.

Lemma usage_quiet (key : option string) (t : string) (o cv el : Z) :
  records (usage key t o cv el) = usage key t o cv el
  /\ monitored (usage key t o cv el) = []
  /\ engineRan (usage key t o cv el) = false.
Proof using Type.
  unfold usage. destruct key as [k|]; [destruct (given (Some k))|];
    repeat split; reflexivity.
Qed.

Lemma engineRan_app (l1 l2 : list event) :
  engineRan (l1 ++ l2) = engineRan l1 || engineRan l2.
Proof using Type. unfold engineRan. apply existsb_app. Qed.

(** X12. The cache is transparent, up to whose options the engine
    ran on.  Whatever conversions came before, a result [ltrToRtl]
    returns has the flag [cached] false and the size of its text as
    [convertedSize], from the cache or not.  If no earlier call had
    the same key for another input or other options, [originalSize] is
    the size of the input and the text returned is what the engine
    gives for the input and the values of the merged options of this
    call: on the options of this call when the engine ran, and
    otherwise on those of an earlier [ltrToRtl] call with the same
    input and options of the same values, which may have held them as
    its own where this call holds the configuration's (or the
    converse). *)
Theorem cache_transparent (calls : list call) (a : Args) (clk : Clock)
    (r : Result) (c' : cache_t) (evs : list event) :
  ltrToRtl process md5_hex readFile a clk
    (after process md5_hex readFile calls Cache.new) = (inr r, c', evs) ->
  cached (stats r) = Some false
  /\ convertedSize (stats r) = byteLength (converted r)
  /\ exists text,
       fst (input readFile a) = inr text
       /\ (unambiguous md5_hex readFile calls
             (fingerprint md5_hex text (mergeOptions (rtlcssOptions a)))
             text (mergeOptions (rtlcssOptions a)) ->
           originalSize (stats r) = byteLength text
           /\ exists own,
                process text (mergeOptions (rtlcssOptions a)) own
                = Some (converted r)
                /\ if engineRan evs
                   then own = ownKeys (rtlcssOptions a)
                   else exists a0 clk0,
                          In (ToRtl a0 clk0) calls
                          /\ fst (input readFile a0) = inr text
                          /\ mergeOptions (rtlcssOptions a0)
                             = mergeOptions (rtlcssOptions a)
                          /\ own = ownKeys (rtlcssOptions a0)).
Proof using Type.
  rewrite ConvertFacts.ltrToRtl_unfold. unfold ltrToRtl_cases.
  destruct (input_quiet a) as [_ [_ E0]].
  destruct (input readFile a) as [[e|text] evs0] eqn:In0; [discriminate|].
  simpl in E0. cbv zeta.
  set (c := after process md5_hex readFile calls Cache.new).
  set (key := fingerprint md5_hex text (mergeOptions (rtlcssOptions a))).
  destruct (Cache.get key (now_get clk) c) as [[hit|] c1] eqn:G.
  - intros H. injection H as <- _ <-.
    assert (F : fst (Cache.get key (now_get clk) c) = Some hit)
      by now rewrite G.
    destruct (CacheFacts.get_hit _ _ _ F) as [_ [it [Mg Hv]]].
    apply CacheFacts.map_get_in in Mg.
    destruct (entries_storedBy _ _ _ Mg)
      as [a0 [clk0 [text0 [out0 [I0 [In1 [K0 [P0 V0]]]]]]]].
    subst hit. rewrite V0. simpl.
    split; [reflexivity|]. split; [reflexivity|].
    exists text. split; [reflexivity|]. intros U.
    destruct (U a0 clk0 text0 I0 In1 (eq_sym K0)) as [-> E].
    split; [reflexivity|].
    exists (ownKeys (rtlcssOptions a0)). split.
    + rewrite <- E. exact P0.
    + rewrite engineRan_app, E0. simpl.
      destruct (usage_quiet (apiKey a) "ltr_to_rtl" (byteLength text)
                  (byteLength out0) 0) as [_ [_ UE]].
      rewrite UE. exists a0, clk0. now repeat split.
  - destruct (process text (mergeOptions (rtlcssOptions a))
        (ownKeys (rtlcssOptions a))) as [out|] eqn:P;
      [|discriminate].
    intros H. injection H as <- _ <-. simpl.
    split; [reflexivity|]. split; [reflexivity|].
    exists text. split; [reflexivity|]. intros _.
    split; [reflexivity|].
    exists (ownKeys (rtlcssOptions a)). split; [exact P|].
    rewrite engineRan_app. simpl. rewrite orb_true_r. reflexivity.
Qed.

(** X13. A conversion that succeeds leaves one usage record when the
    call has a non-empty [apiKey], and none otherwise; a conversion
    that fails leaves none.  The record carries the sizes of the
    result returned and the elapsed time not rounded; for a result
    served from the cache, the sizes stored with it and the time 0. *)
Theorem usage_recorded (a : Args) (clk : Clock) (c : cache_t) :
  let toRtl := ltrToRtl process md5_hex readFile a clk c in
  let toLtr := rtlToLtr process readFile a clk c in
  records (snd toRtl)
  = match fst (fst toRtl) with
    | inr r =>
        usage (apiKey a) "ltr_to_rtl" (originalSize (stats r))
          (convertedSize (stats r))
          (if engineRan (snd toRtl) then elapsedNs clk else 0)
    | inl _ => []
    end
  /\ records (snd toLtr)
     = match fst (fst toLtr) with
       | inr r =>
           usage (apiKey a) "rtl_to_ltr" (originalSize (stats r))
             (convertedSize (stats r)) (elapsedNs clk)
       | inl _ => []
       end.
Proof using Type.
  cbv zeta. rewrite ConvertFacts.ltrToRtl_unfold, ConvertFacts.rtlToLtr_unfold.
  unfold ltrToRtl_cases, rtlToLtr_cases.
  destruct (input_quiet a) as [R0 [_ E0]].
  destruct (input readFile a) as [[e|text] evs0]; simpl in R0, E0.
  - simpl. unfold records in *. rewrite filter_app, R0. split; reflexivity.
  - cbv zeta. split.
    + destruct (Cache.get _ (now_get clk) c) as [[hit|] c1].
      * simpl. rewrite engineRan_app, E0. simpl.
        destruct (usage_quiet (apiKey a) "ltr_to_rtl"
                    (originalSize (stats hit)) (convertedSize (stats hit)) 0)
          as [U [_ UE]].
        rewrite UE. unfold records in *. rewrite filter_app, R0. simpl.
        exact U.
      * destruct (process text (mergeOptions (rtlcssOptions a))
        (ownKeys (rtlcssOptions a))) as [out|].
        -- simpl. rewrite engineRan_app, E0. simpl.
           destruct (usage_quiet (apiKey a) "ltr_to_rtl" (byteLength text)
                       (byteLength out) (elapsedNs clk)) as [U _].
           unfold records in *. rewrite filter_app, R0. simpl. exact U.
        -- simpl. unfold records in *. rewrite filter_app, R0. reflexivity.
    + destruct (process (preprocess text) (mergeOptions (rtlcssOptions a))
        (ownKeys (rtlcssOptions a)))
        as [out|].
      * simpl.
        destruct (usage_quiet (apiKey a) "rtl_to_ltr" (byteLength text)
                    (byteLength out) (elapsedNs clk)) as [U _].
        unfold records in *. rewrite filter_app, R0. simpl. exact U.
      * simpl. unfold records in *. rewrite filter_app, R0. reflexivity.
Qed.

(** X14. [ltrToRtl] reports to the monitoring service once per call
    that is not served from the cache: the conversion, with the sizes
    of the result and the elapsed time, or the error, under the code
    of the error it throws; a call served from the cache reports
    nothing.  [rtlToLtr] never reports, whether it succeeds or
    fails. *)
Theorem monitoring_reports (a : Args) (clk : Clock) (c : cache_t) :
  let toRtl := ltrToRtl process md5_hex readFile a clk c in
  monitored (snd toRtl)
  = match fst (fst toRtl) with
    | inr r =>
        if engineRan (snd toRtl)
        then [MonitorConversion "ltr_to_rtl" (originalSize (stats r))
                (convertedSize (stats r)) (elapsedNs clk)]
        else []
    | inl e => [MonitorError (errorCode e)]
    end
  /\ monitored (snd (rtlToLtr process readFile a clk c)) = [].
Proof using Type.
  cbv zeta. rewrite ConvertFacts.ltrToRtl_unfold, ConvertFacts.rtlToLtr_unfold.
  unfold ltrToRtl_cases, rtlToLtr_cases.
  destruct (input_quiet a) as [_ [M0 E0]].
  destruct (input_shape a) as [_ Sh].
  destruct (input readFile a) as [[e|text] evs0]; simpl in M0, E0, Sh.
  - simpl. unfold monitored in *. rewrite !filter_app, M0.
    split; [|reflexivity].
    destruct Sh as [-> | ->]; reflexivity.
  - cbv zeta. split.
    + destruct (Cache.get _ (now_get clk) c) as [[hit|] c1].
      * simpl. rewrite engineRan_app, E0. simpl.
        destruct (usage_quiet (apiKey a) "ltr_to_rtl"
                    (originalSize (stats hit)) (convertedSize (stats hit)) 0)
          as [_ [UM UE]].
        rewrite UE. unfold monitored in *. rewrite filter_app, M0. simpl.
        exact UM.
      * destruct (process text (mergeOptions (rtlcssOptions a))
        (ownKeys (rtlcssOptions a))) as [out|].
        -- simpl. rewrite engineRan_app, E0. simpl.
           destruct (usage_quiet (apiKey a) "ltr_to_rtl" (byteLength text)
                       (byteLength out) (elapsedNs clk)) as [_ [UM _]].
           unfold monitored in *. rewrite filter_app, M0. simpl.
           rewrite UM. reflexivity.
        -- simpl. unfold monitored in *. rewrite filter_app, M0. reflexivity.
    + destruct (process (preprocess text) (mergeOptions (rtlcssOptions a))
        (ownKeys (rtlcssOptions a)))
        as [out|].
      * simpl.
        destruct (usage_quiet (apiKey a) "rtl_to_ltr" (byteLength text)
                    (byteLength out) (elapsedNs clk)) as [_ [UM _]].
        unfold monitored in *. rewrite filter_app, M0. simpl. exact UM.
      * simpl. unfold monitored in *. rewrite filter_app, M0. reflexivity.
Qed.

(** X30. After an [ltrToRtl] call that ran the engine and succeeded,
    a call with the same [css] and [filePath] (the file, if one is
    read, being the same for both) and with options of the same
    values, as they are when it is made, is served from the
    cache, with the very result of the first and without running the
    engine, as long as its lookup is made no later than [defaultTtl]
    (one hour) after the first call stored its result; a later one
    runs the engine again.  (The options object of the first call,
    given again, has other values by then: see
    [Scenarios.reused_options_are_computed_anew].) *)
Theorem repeated_call_served (a1 a2 : Args) (clk1 clk2 : Clock)
    (c c1 : cache_t) (r1 : Result) (e1 : list event) :
  ltrToRtl process md5_hex readFile a1 clk1 c = (inr r1, c1, e1) ->
  engineRan e1 = true ->
  css a2 = css a1 -> filePath a2 = filePath a1 ->
  mergeOptions (rtlcssOptions a2) = mergeOptions (rtlcssOptions a1) ->
  let second := ltrToRtl process md5_hex readFile a2 clk2 c1 in
  (now_get clk2 <= now_set clk1 + Cache.defaultTtl ->
   fst (fst second) = inr r1
   /\ engineRan (snd second) = false
   /\ Cache.cache (snd (fst second)) = Cache.cache c1
   /\ Cache.hits (Cache.stats (snd (fst second)))
      = Cache.hits (Cache.stats c1) + 1)
  /\ (now_set clk1 + Cache.defaultTtl < now_get clk2 ->
      engineRan (snd second) = true).
Proof using Type.
  intros H R Hc Hf Ho. cbv zeta. revert H R.
  rewrite !ConvertFacts.ltrToRtl_unfold. unfold ltrToRtl_cases.
  rewrite (ConvertFacts.input_ext readFile a1 a2 Hc Hf), Ho.
  destruct (input_quiet a1) as [_ [_ E0]].
  destruct (input readFile a1) as [[e|text] evs0]; [discriminate|].
  simpl in E0. cbv zeta.
  set (key := fingerprint md5_hex text (mergeOptions (rtlcssOptions a1))).
  destruct (Cache.get key (now_get clk1) c) as [[hit|] c0].
  - intros H R. injection H as _ _ <-.
    rewrite engineRan_app, E0 in R. simpl in R.
    destruct (usage_quiet (apiKey a1) "ltr_to_rtl" (originalSize (stats hit))
                (convertedSize (stats hit)) 0) as [_ [_ U]].
    rewrite U in R. discriminate.
  - destruct (process text (mergeOptions (rtlcssOptions a1))
        (ownKeys (rtlcssOptions a1))) as [out|] eqn:P;
      [|discriminate].
    intros H _. injection H as <- <- _.
    set (r1 := freshResult text out clk1 (Some false)).
    assert (G : Cache.map_get key
                  (Cache.cache (Cache.set key r1 None (now_set clk1) c0))
                = Some {| Cache.value := r1;
                          Cache.expiresAt :=
                            now_set clk1 + Cache.defaultTtl |}).
    { unfold Cache.set. cbv zeta. simpl.
      apply CacheFacts.map_get_set_same. }
    unfold Cache.get. rewrite G. simpl Cache.expiresAt.
    destruct (Z.ltb_spec (now_set clk1 + Cache.defaultTtl) (now_get clk2))
      as [L|L].
    + split; [lia|]. intros _.
      destruct (process text (mergeOptions (rtlcssOptions a1))
                  (ownKeys (rtlcssOptions a2))); simpl;
        rewrite engineRan_app; simpl; apply orb_true_r.
    + split; [|lia]. intros _. simpl.
      split; [reflexivity|]. split; [|split; reflexivity].
      rewrite engineRan_app, E0. simpl.
      destruct (usage_quiet (apiKey a2) "ltr_to_rtl" (originalSize (stats r1))
                  (convertedSize (stats r1)) 0) as [_ [_ U]].
      exact U.
Qed.

(** *** The cache of the running service *)

Lemma perform_ops (c : cache_t) (act : action) :
  exists ops, perform process md5_hex readFile c act = CacheOps.run ops c
              /\ CacheOps.sets_truthy ops.
Proof using Type.
  destruct act as [x|now|]; simpl.
  - apply serve_ops.
  - exists [CacheOps.OpSweep now]. split; [reflexivity|]. repeat constructor.
  - exists [CacheOps.OpClear]. split; [reflexivity|]. repeat constructor.
Qed.

Lemma reached_ops (acts : list action) :
  exists ops, reached process md5_hex readFile acts
              = CacheOps.run ops Cache.new
              /\ CacheOps.sets_truthy ops.
Proof using Type.
  unfold reached. generalize (@Cache.new Result) as c.
  induction acts as [|act acts IH]; intros c; simpl.
  - exists []. split; [reflexivity|constructor].
  - destruct (perform_ops c act) as [o1 [E1 T1]].
    destruct (IH (perform process md5_hex readFile c act)) as [o2 [E2 T2]].
    exists (o1 ++ o2)%list. split.
    + rewrite E2, E1. symmetry. apply run_app.
    + unfold CacheOps.sets_truthy in *. apply Forall_app. split; assumption.
Qed.

(** The cache the service has reached: bounded, without the empty key
    and with no key twice. *)
Lemma reached_sound (acts : list action) :
  let c := reached process md5_hex readFile acts in
  Cache.size c <= Cache.maxSize
  /\ Cache.keys_truthy (Cache.cache c)
  /\ NoDup (map fst (Cache.cache c)).
Proof using Type.
  cbv zeta. destruct (reached_ops acts) as [ops [E T]]. rewrite E.
  assert (K : Cache.keys_truthy (Cache.cache (@Cache.new Result))).
  { intros k []. }
  assert (B : Cache.size (@Cache.new Result) <= Cache.maxSize).
  { unfold Cache.size, Cache.maxSize. simpl. lia. }
  destruct (@CacheMore.run_bounded Result ops Cache.new T K B) as [K' B'].
  split; [exact B'|]. split; [exact K'|]. apply CacheMore.new_nodup.
Qed.

(** C5. The cache of the service never holds more than [maxSize]
    entries, whatever the program has done: conversions served,
    sweeps, clearings.  And when [ltrToRtl] stores a result while the
    cache is full, the entry evicted is one whose [expiresAt] is the
    least of all entries stored; the new entry takes the last place,
    the size stays at the limit and [evicted] goes up by one. *)
Theorem cache_bounded_evicts_least (acts : list action) (a : Args)
    (clk : Clock) (text out : string) :
  let c := reached process md5_hex readFile acts in
  let key := fingerprint md5_hex text (mergeOptions (rtlcssOptions a)) in
  let c1 := snd (Cache.get key (now_get clk) c) in
  let c2 := snd (fst (ltrToRtl process md5_hex readFile a clk c)) in
  let fresh :=
    {| Cache.value := freshResult text out clk (Some false);
       Cache.expiresAt := now_set clk + Cache.defaultTtl |} in
  Cache.size c <= Cache.maxSize
  /\ Cache.size c2 <= Cache.maxSize
  /\ (fst (input readFile a) = inr text ->
      fst (Cache.get key (now_get clk) c) = None ->
      process text (mergeOptions (rtlcssOptions a))
        (ownKeys (rtlcssOptions a)) = Some out ->
      Cache.size c1 = Cache.maxSize ->
      exists k it,
        In (k, it) (Cache.cache c1)
        /\ (forall k' it', In (k', it') (Cache.cache c1) ->
                           Cache.expiresAt it <= Cache.expiresAt it')
        /\ Cache.cache c2
           = (Cache.map_delete k (Cache.cache c1) ++ [(key, fresh)])%list
        /\ Cache.size c2 = Cache.maxSize
        /\ Cache.evicted (Cache.stats c2)
           = Cache.evicted (Cache.stats c1) + 1).
Proof using Type.
  cbv zeta.
  set (c := reached process md5_hex readFile acts).
  destruct (reached_sound acts) as [B [K ND]]. fold c in B, K, ND.
  split; [exact B|]. split.
  { pose proof (reached_sound (acts ++ [Serve (ToRtl a clk)])) as [B2 _].
    unfold reached in B2. rewrite fold_left_app in B2. exact B2. }
  intros I G P Full.
  set (key := fingerprint md5_hex text (mergeOptions (rtlcssOptions a))) in *.
  assert (E2 : snd (fst (ltrToRtl process md5_hex readFile a clk c))
               = Cache.set key (freshResult text out clk (Some false)) None
                   (now_set clk) (snd (Cache.get key (now_get clk) c))).
  { rewrite ConvertFacts.ltrToRtl_unfold. unfold ltrToRtl_cases.
    destruct (input readFile a) as [[e|text0] evs0]; simpl in I;
      [discriminate|]. injection I as ->. cbv zeta. fold key.
    destruct (Cache.get key (now_get clk) c) as [[hit|] c1];
      simpl in G; [discriminate|].
    rewrite P. reflexivity. }
  set (c1 := snd (Cache.get key (now_get clk) c)) in *.
  assert (K1 : Cache.keys_truthy (Cache.cache c1)).
  { intros k Hk. apply K.
    destruct (CacheFacts.get_miss _ _ _ G) as [Inc _]. fold c1 in Inc.
    apply in_map_iff in Hk as [[k0 it0] [<- Hin]].
    apply in_map_iff. exists (k0, it0). split; [reflexivity|].
    apply Inc. exact Hin. }
  assert (Absent : Cache.map_has key (Cache.cache c1) = false).
  { rewrite CacheFacts.map_get_has. unfold c1, Cache.get.
    destruct (Cache.map_get key (Cache.cache c)) as [it0|] eqn:M.
    - unfold Cache.get in G. rewrite M in G.
      destruct (Cache.expiresAt it0 <? now_get clk); [|discriminate].
      simpl.
      rewrite (@CacheFacts.map_get_delete_same Result key (Cache.cache c) ND).
      reflexivity.
    - simpl. rewrite M. reflexivity. }
  assert (F : Cache.maxSize <= Cache.size c1) by lia.
  destruct (@CacheFacts.set_evicts_least Result key
              (freshResult text out clk (Some false)) None (now_set clk)
              c1 K1 F) as [k [it [Hin [Hmin Hc]]]].
  assert (Absent' : Cache.map_has key (Cache.map_delete k (Cache.cache c1))
                    = false).
  { destruct (Cache.map_has key (Cache.map_delete k (Cache.cache c1)))
      eqn:Hh; [|reflexivity].
    apply CacheMore.map_has_in in Hh.
    apply CacheFacts.map_delete_keys in Hh.
    apply CacheMore.map_has_in in Hh. congruence. }
  assert (Hc' : Cache.cache (snd (fst (ltrToRtl process md5_hex readFile a clk c)))
                = (Cache.map_delete k (Cache.cache c1)
                     ++ [(key, {| Cache.value :=
                                    freshResult text out clk (Some false);
                                  Cache.expiresAt :=
                                    now_set clk + Cache.defaultTtl |})])%list).
  { rewrite E2, Hc. unfold Cache.map_set. rewrite Absent'. reflexivity. }
  exists k, it. split; [exact Hin|]. split; [exact Hmin|].
  split; [exact Hc'|]. split.
  - unfold Cache.size. rewrite Hc', length_app. simpl.
    assert (Hk : In k (map fst (Cache.cache c1))).
    { change k with (fst (k, it)). now apply in_map. }
    pose proof (CacheFacts.map_delete_length k (Cache.cache c1) Hk) as L.
    unfold Cache.size in Full. lia.
  - rewrite E2. unfold Cache.set. cbv zeta.
    apply Z.leb_le in F. rewrite F. simpl.
    unfold Cache.evictOldest.
    assert (NE : Cache.cache c1 <> []).
    { intros E. rewrite E in Hin. destruct Hin. }
    destruct (CacheFacts.oldest_nonempty NE) as [k0 Hk0]. rewrite Hk0.
    assert (T : Cache.key_truthy (Some k0) = true).
    { destruct (CacheFacts.oldest_is_least _ Hk0) as [it0 [Hin0 _]].
      simpl. apply negb_true_iff. apply String.eqb_neq.
      apply K1. change k0 with (fst (k0, it0)). now apply in_map. }
    rewrite T. reflexivity.
Qed.

End Service.

Lemma cache_bounded_evicts_least_witness :
  let acts := ServiceFixtures.conversions 1000 in
  let c := reached Fixtures.rtlcss Fixtures.digest Fixtures.noFile acts in
  let text := ServiceFixtures.numbered 1000 in
  let clk := ServiceFixtures.tick 1000 in
  let key := fingerprint Fixtures.digest text (mergeOptions ownStringMap) in
  let c1 := snd (Cache.get key (now_get clk) c) in
  let c2 := snd (fst (ltrToRtl Fixtures.rtlcss Fixtures.digest
                        Fixtures.noFile (explicit text) clk c)) in
  fst (Cache.get key (now_get clk) c) = None
  /\ Fixtures.rtlcss text (mergeOptions ownStringMap) (ownKeys ownStringMap)
     = Some ".a1000 { float: right; }"
  /\ Cache.size c1 = Cache.maxSize
  /\ Cache.size c2 = Cache.maxSize
  /\ Cache.evicted (Cache.stats c2) = Cache.evicted (Cache.stats c1) + 1.
Proof.
  intros acts c text clk key c1 c2.
  assert (G : fst (Cache.get key (now_get clk) c) = None)
    by (vm_compute; reflexivity).
  assert (P : Fixtures.rtlcss text (mergeOptions ownStringMap)
                (ownKeys ownStringMap) = Some ".a1000 { float: right; }")
    by (vm_compute; reflexivity).
  assert (F : Cache.size c1 = Cache.maxSize) by (vm_compute; reflexivity).
  assert (I : fst (input Fixtures.noFile (explicit text)) = inr text)
    by (vm_compute; reflexivity).
  pose proof (@cache_bounded_evicts_least Fixtures.rtlcss Fixtures.digest
                Fixtures.noFile acts (explicit text) clk text
                ".a1000 { float: right; }") as T.
  destruct T as [_ [_ H]].
  destruct (H I G P F) as [k [it [_ [_ [_ [Hs He]]]]]].
  split; [exact G|]. split; [exact P|]. split; [exact F|].
  split; [exact Hs|exact He].
Defined.

Lemma cache_transparent_witness :
  let calls := [ToRtl (explicit Fixtures.sheet) Fixtures.clock1] in
  let c := after Fixtures.rtlcss Fixtures.digest Fixtures.noFile calls
             Cache.new in
  let r := freshResult Fixtures.sheet ".a { float: right; }" Fixtures.clock1
             (Some false) in
  let key := fingerprint Fixtures.digest Fixtures.sheet
               (mergeOptions JUndefined) in
  ltrToRtl Fixtures.rtlcss Fixtures.digest Fixtures.noFile
    (plain Fixtures.sheet) Fixtures.clock2 c
  = (inr r, snd (Cache.get key (now_get Fixtures.clock2) c), [CacheGet key])
  /\ unambiguous Fixtures.digest Fixtures.noFile calls key Fixtures.sheet
       (mergeOptions JUndefined)
  /\ cached (stats r) = Some false
  /\ originalSize (stats r) = byteLength Fixtures.sheet
  /\ Fixtures.rtlcss Fixtures.sheet (mergeOptions JUndefined)
       (ownKeys JUndefined) = None
  /\ exists own,
       Fixtures.rtlcss Fixtures.sheet (mergeOptions JUndefined) own
       = Some (converted r)
       /\ exists a0 clk0,
            In (ToRtl a0 clk0) calls
            /\ fst (input Fixtures.noFile a0) = inr Fixtures.sheet
            /\ mergeOptions (rtlcssOptions a0) = mergeOptions JUndefined
            /\ own = ownKeys (rtlcssOptions a0).
Proof.
  intros calls c r key.
  assert (H : ltrToRtl Fixtures.rtlcss Fixtures.digest Fixtures.noFile
                (plain Fixtures.sheet) Fixtures.clock2 c
              = (inr r, snd (Cache.get key (now_get Fixtures.clock2) c),
                 [CacheGet key])).
  { vm_compute. reflexivity. }
  assert (U : unambiguous Fixtures.digest Fixtures.noFile calls key
                Fixtures.sheet (mergeOptions JUndefined)).
  { intros a clk text' I In1 _.
    destruct I as [E|[]]. injection E as <- <-.
    simpl in In1. injection In1 as <-. split; reflexivity. }
  split; [exact H|]. split; [exact U|].
  destruct (@cache_transparent Fixtures.rtlcss Fixtures.digest
              Fixtures.noFile calls (plain Fixtures.sheet) Fixtures.clock2
              r _ _ H) as [Hc [_ [text [Hi Hu]]]].
  split; [exact Hc|].
  simpl in Hi. injection Hi as <-.
  destruct (Hu U) as [Hs [own [Hp Ho]]].
  split; [exact Hs|]. split; [reflexivity|].
  exists own. split; [exact Hp|exact Ho].
Defined.

Lemma repeated_call_served_witness :
  let a2 := {| css := JStr Fixtures.sheet; filePath := None;
               rtlcssOptions := ownStringMap; apiKey := Some "key-1" |} in
  let first := ltrToRtl Fixtures.rtlcss Fixtures.digest Fixtures.noFile
                 (explicit Fixtures.sheet) Fixtures.clock1 Cache.new in
  let second := ltrToRtl Fixtures.rtlcss Fixtures.digest Fixtures.noFile
                  a2 Fixtures.clock2 (snd (fst first)) in
  let r1 := freshResult Fixtures.sheet ".a { float: right; }"
              Fixtures.clock1 (Some false) in
  engineRan (snd first) = true
  /\ fst (fst first) = inr r1
  /\ now_get Fixtures.clock2 <= now_set Fixtures.clock1 + Cache.defaultTtl
  /\ fst (fst second) = inr r1
  /\ engineRan (snd second) = false.
Proof.
  intros a2 first second r1.
  assert (H : first = (inr r1, snd (fst first), snd first))
    by (vm_compute; reflexivity).
  assert (R : engineRan (snd first) = true) by (vm_compute; reflexivity).
  assert (L : now_get Fixtures.clock2
              <= now_set Fixtures.clock1 + Cache.defaultTtl)
    by (vm_compute; discriminate).
  destruct (proj1 (@repeated_call_served Fixtures.rtlcss Fixtures.digest
                     Fixtures.noFile (explicit Fixtures.sheet) a2
                     Fixtures.clock1 Fixtures.clock2 Cache.new
                     (snd (fst first)) r1 (snd first) H R
                     eq_refl eq_refl eq_refl) L) as [S1 [S2 _]].
  split; [exact R|]. split; [vm_compute; reflexivity|].
  split; [exact L|]. split; [exact S1|exact S2].
Defined.

End ConvertMore.

(** ** The validator *)

Module ValidatorMore.
Import Js Errors Validator ValidatorOps ValidatorFacts.

Lemma validateBooleans_accepts (names : list string) (options : jsval)
    (acc : obj) :
  (exists v, validateBooleans names options acc = inr v)
  <-> (forall k, In k names -> has k options = true ->
                 is_boolean (get options k) = true).
Proof.
  revert acc. induction names as [|n names IH]; intros acc; simpl.
  - split; [intros _ k []|intros _; eexists; reflexivity].
  - destruct (has n options) eqn:H.
    + destruct (is_boolean (get options n)) eqn:B.
      * rewrite IH. split.
        -- intros A k [<-|I] Hk; [exact B|now apply A].
        -- intros A k I Hk. apply A; [now right|exact Hk].
      * split.
        -- intros [v E]. discriminate.
        -- intros A. specialize (A n (or_introl eq_refl) H). congruence.
    + rewrite IH. split.
      * intros A k [<-|I] Hk; [congruence|now apply A].
      * intros A k I Hk. apply A; [now right|exact Hk].
Qed.

Lemma validateBooleans_error (names : list string) (options : jsval)
    (acc : obj) (e : AppError) :
  validateBooleans names options acc = inl e ->
  statusCode e = 422 /\ errorCode e = "INVALID_OPTION_TYPE"
  /\ isOperational e = true.
Proof.
  revert acc. induction names as [|n names IH]; intros acc; simpl;
    [discriminate|].
  destruct (has n options); [|apply IH].
  destruct (is_boolean (get options n)); [apply IH|].
  intros E. injection E as <-. repeat split.
Qed.

Lemma invalidOptions_nil (options : jsval) :
  invalidOptions options = [] <-> recognised options.
Proof.
  unfold recognised. split.
  - intros E k I.
    destruct (in_dec string_dec k allowedOptions) as [A|A]; [exact A|].
    assert (B : In k (invalidOptions options))
      by (apply invalidOptions_spec; now split).
    rewrite E in B. destruct B.
  - intros R. destruct (invalidOptions options) as [|k l] eqn:E;
      [reflexivity|].
    assert (B : In k (invalidOptions options)) by (rewrite E; now left).
    apply invalidOptions_spec in B. destruct B as [I N]. elim N. now apply R.
Qed.

(** An object is accepted exactly when its keys are recognised and its
    options well typed. *)
Lemma validate_accepts (options : jsval) :
  noObject options = false ->
  (exists v, validateRtlcssOptions options = inr v)
  <-> recognised options /\ wellTyped options.
Proof.
  intros O. unfold validateRtlcssOptions, noObject in *. rewrite O.
  unfold wellTyped. rewrite <- invalidOptions_nil.
  destruct (invalidOptions options) as [|k l].
  - rewrite <- (validateBooleans_accepts boolOptions options []).
    destruct (validateBooleans boolOptions options []) as [e|v1].
    + split; [intros [v E]; discriminate|].
      intros [_ [[v E] _]]. discriminate.
    + unfold validateBlacklist, validateStringMap.
      destruct (has "blacklist" options).
      * destruct (truthy (get options "blacklist")),
          (is_object (get options "blacklist")); simpl.
        -- destruct (has "stringMap" options).
           ++ destruct (isArray (get options "stringMap")); simpl.
              ** split; [intros _|intros _; eexists; reflexivity].
                 split; [reflexivity|]. split; [eexists; reflexivity|].
                 split; intros _; try split; reflexivity.
              ** split; [intros [v E]; discriminate|].
                 intros [_ [_ [_ A]]]. specialize (A eq_refl). discriminate.
           ++ split; [intros _|intros _; eexists; reflexivity].
              split; [reflexivity|]. split; [eexists; reflexivity|].
              split; [intros _; split; reflexivity|discriminate].
        -- split; [intros [v E]; discriminate|].
           intros [_ [_ [A _]]]. destruct (A eq_refl). discriminate.
        -- split; [intros [v E]; discriminate|].
           intros [_ [_ [A _]]]. destruct (A eq_refl). discriminate.
        -- split; [intros [v E]; discriminate|].
           intros [_ [_ [A _]]]. destruct (A eq_refl). discriminate.
      * destruct (has "stringMap" options).
        -- destruct (isArray (get options "stringMap")); simpl.
           ++ split; [intros _|intros _; eexists; reflexivity].
              split; [reflexivity|]. split; [eexists; reflexivity|].
              split; [discriminate|reflexivity].
           ++ split; [intros [v E]; discriminate|].
              intros [_ [_ [_ A]]]. specialize (A eq_refl). discriminate.
        -- split; [intros _|intros _; eexists; reflexivity].
           split; [reflexivity|]. split; [eexists; reflexivity|].
           split; discriminate.
  - split; [intros [v E]; discriminate|]. intros [E _]. discriminate.
Qed.

(** X15. The validator accepts a value exactly when it is no object
    (then it returns the empty object) or when every key it has is a
    recognised option and every option present has its type: a
    boolean, an object for [blacklist], an array for [stringMap]. *)
Theorem validate_accepts_iff (options : jsval) :
  (exists v, validateRtlcssOptions options = inr v)
  <-> noObject options = true
      \/ (recognised options /\ wellTyped options).
Proof.
  destruct (noObject options) eqn:O.
  - split; [intros _; now left|]. intros _.
    unfold validateRtlcssOptions. unfold noObject in O. rewrite O.
    eexists. reflexivity.
  - rewrite (validate_accepts _ O). split; [intros H; now right|].
    intros [H|H]; [discriminate|exact H].
Qed.

Lemma validate_error_codes (options : jsval) (e : AppError) :
  validateRtlcssOptions options = inl e ->
  statusCode e = 422 /\ isOperational e = true
  /\ ((errorCode e = "INVALID_OPTIONS" /\ invalidOptions options <> [])
      \/ (errorCode e = "INVALID_OPTION_TYPE"
          /\ invalidOptions options = [])).
Proof.
  unfold validateRtlcssOptions.
  destruct (negb (truthy options) || negb (is_object options));
    [discriminate|].
  destruct (invalidOptions options) as [|k l].
  - destruct (validateBooleans boolOptions options []) as [e1|v1] eqn:B.
    + intros E. injection E as <-.
      destruct (validateBooleans_error _ _ _ B) as [S [C O]].
      split; [exact S|]. split; [exact O|]. right. split; [exact C|reflexivity].
    + unfold validateBlacklist, validateStringMap.
      destruct (has "blacklist" options).
      * destruct (negb (truthy (get options "blacklist"))
                  || negb (is_object (get options "blacklist"))).
        -- intros E. injection E as <-. split; [reflexivity|].
           split; [reflexivity|]. right. split; reflexivity.
        -- destruct (has "stringMap" options); [|discriminate].
           destruct (negb (isArray (get options "stringMap")));
             [|discriminate].
           intros E. injection E as <-. split; [reflexivity|].
           split; [reflexivity|]. right. split; reflexivity.
      * destruct (has "stringMap" options); [|discriminate].
        destruct (negb (isArray (get options "stringMap")));
          [|discriminate].
        intros E. injection E as <-. split; [reflexivity|].
        split; [reflexivity|]. right. split; reflexivity.
  - intros E. injection E as <-. split; [reflexivity|].
    split; [reflexivity|]. left. split; [reflexivity|discriminate].
Qed.

(** X16. The errors of the validator are operational errors of status
    422.  A key that is not recognised is reported first, as
    [INVALID_OPTIONS]; [INVALID_OPTION_TYPE] is raised only for an
    object whose keys are all recognised and one of whose options
    has the wrong type. *)
Theorem validate_errors (options : jsval) (e : AppError) :
  validateRtlcssOptions options = inl e ->
  statusCode e = 422 /\ isOperational e = true
  /\ ((errorCode e = "INVALID_OPTIONS" /\ ~ recognised options)
      \/ (errorCode e = "INVALID_OPTION_TYPE"
          /\ recognised options /\ ~ wellTyped options)).
Proof.
  intros E.
  destruct (validate_error_codes _ E) as [S [O C]].
  split; [exact S|]. split; [exact O|].
  pose proof (invalidOptions_nil options) as N.
  destruct C as [[C I]|[C I]].
  - left. split; [exact C|]. intros R. apply I. now apply N.
  - right. split; [exact C|].
    assert (R : recognised options) by now apply N.
    split; [exact R|]. intros W.
    assert (Ob : noObject options = false).
    { destruct (noObject options) eqn:Ob; [|reflexivity].
      unfold validateRtlcssOptions in E. unfold noObject in Ob.
      rewrite Ob in E. discriminate. }
    destruct (proj2 (validate_accepts _ Ob) (conj R W)) as [v Ev].
    rewrite E in Ev. discriminate.
Qed.

Lemma validateBooleans_ext (names : list string) (a b : jsval) (acc : obj) :
  (forall k, In k names -> has k a = has k b /\ get a k = get b k) ->
  validateBooleans names a acc = validateBooleans names b acc.
Proof.
  revert acc. induction names as [|n names IH]; intros acc A; simpl;
    [reflexivity|].
  destruct (A n (or_introl eq_refl)) as [-> ->].
  assert (A' : forall k, In k names -> has k a = has k b /\ get a k = get b k)
    by (intros k I; apply A; now right).
  destruct (has n b); [|now apply IH].
  destruct (is_boolean (get b n)); [now apply IH|reflexivity].
Qed.

(** Two objects with recognised keys only, which agree on every
    recognised option, are validated alike. *)
Lemma validate_ext (a b : jsval) :
  noObject a = false -> noObject b = false ->
  recognised a -> recognised b ->
  (forall k, In k allowedOptions -> has k a = has k b /\ get a k = get b k) ->
  validateRtlcssOptions a = validateRtlcssOptions b.
Proof.
  intros Oa Ob Ra Rb A. unfold validateRtlcssOptions, noObject in *.
  rewrite Oa, Ob.
  apply invalidOptions_nil in Ra, Rb. rewrite Ra, Rb.
  rewrite (validateBooleans_ext boolOptions a b []).
  - destruct (validateBooleans boolOptions b []) as [e|v1]; [reflexivity|].
    unfold validateBlacklist, validateStringMap.
    destruct (A "blacklist") as [-> ->]; [simpl; tauto|].
    destruct (A "stringMap") as [-> ->]; [simpl; tauto|].
    reflexivity.
  - intros k I. apply A. simpl in *. tauto.
Qed.

Lemma holds_agree (o v : obj) (k : string) :
  holds o allowedOptions v -> In k allowedOptions ->
  has k (JObj v) = has k (JObj o) /\ get (JObj v) k = get (JObj o) k.
Proof.
  intros [_ H] I. unfold has, get. simpl.
  rewrite !lookup_has_key, H.
  assert (E : includes allowedOptions k = true).
  { unfold includes. apply existsb_exists. exists k. split; [exact I|].
    apply String.eqb_refl. }
  rewrite E. split; reflexivity.
Qed.

Lemma holds_recognised (o v : obj) :
  holds o allowedOptions v -> recognised (JObj v).
Proof.
  intros [_ H] k I. unfold keys in I. simpl in I.
  apply has_key_in in I. rewrite lookup_has_key, H in I.
  destruct (includes allowedOptions k) eqn:E; [|discriminate].
  unfold includes in E. apply existsb_exists in E.
  destruct E as [x [Ix Ex]]. apply String.eqb_eq in Ex. now subst x.
Qed.

(** X17. What the validator returns holds the recognised options of
    the value it was given, each once and with its value, and nothing
    else; validating the returned object again returns it
    unchanged. *)
Theorem validate_idempotent (options : jsval) (v : obj) :
  validateRtlcssOptions options = inr v ->
  validateRtlcssOptions (JObj v) = inr v
  /\ NoDup (map fst v)
  /\ (forall k, In k (map fst v) -> In k allowedOptions)
  /\ (forall k, In k allowedOptions ->
        has k (JObj v) = has k options /\ get (JObj v) k = get options k).
Proof.
  intros E.
  assert (Empty : validateRtlcssOptions (JObj []) = inr []) by reflexivity.
  assert (Nil : v = [] ->
            (forall k, In k allowedOptions -> has k options = false) ->
            validateRtlcssOptions (JObj v) = inr v
            /\ NoDup (map fst v)
            /\ (forall k, In k (map fst v) -> In k allowedOptions)
            /\ (forall k, In k allowedOptions ->
                  has k (JObj v) = has k options
                  /\ get (JObj v) k = get options k)).
  { intros -> H. split; [exact Empty|]. split; [constructor|].
    split; [intros k []|]. intros k I. specialize (H k I).
    unfold has, get in *. split; [now rewrite H|].
    rewrite lookup_has_key in H. simpl.
    destruct (lookup k (ownProps options)); [discriminate|reflexivity]. }
  destruct options as [| |b|n|s|items|o];
    try (unfold validateRtlcssOptions in E; simpl in E;
         rewrite ?orb_true_r in E; injection E as <-;
         apply Nil; [reflexivity|]; intros k I; reflexivity).
  - (* a string: an object to [typeof] no more than a number *)
    unfold validateRtlcssOptions in E. simpl in E.
    rewrite orb_true_r in E. injection E as <-. apply Nil; [reflexivity|].
    intros k I. unfold has. simpl.
    destruct (has_key k (indexed 0 (chars s))) eqn:H; [|reflexivity].
    exfalso. apply has_key_in in H.
    assert (G : forall (l : list jsval) i, In k (map fst (indexed i l)) ->
                  exists j, k = nat_to_string j).
    { induction l as [|x l IH]; intros i J; [destruct J|].
      destruct J as [<-|J]; [eexists; reflexivity|exact (IH _ J)]. }
    destruct (G _ _ H) as [j ->].
    assert (D : forall j, ~ In (nat_to_string j) allowedOptions).
    { clear. intros j. unfold nat_to_string.
      destruct (Nat.to_uint j) eqn:U; simpl;
        intros [H|[H|[H|[H|[H|[H|[H|[H|[]]]]]]]]]; discriminate. }
    exact (D j I).
  - (* an array *)
    destruct items as [|x items].
    + injection E as <-. apply Nil; [reflexivity|]. intros k I. reflexivity.
    + exfalso.
      assert (A : exists w, validateRtlcssOptions (JArr (x :: items)) = inr w)
        by (eexists; exact E).
      apply validate_accepts in A; [|reflexivity].
      destruct A as [R _]. specialize (R "0" (or_introl eq_refl)).
      simpl in R. intuition discriminate.
  - destruct (validate_holds _ E) as [R H].
    assert (Rv : recognised (JObj v)) by exact (holds_recognised H).
    split.
    + rewrite <- E. apply validate_ext; try reflexivity; try assumption.
      intros k I. exact (holds_agree H I).
    + split; [exact (proj1 H)|]. split; [exact Rv|].
      intros k I. exact (holds_agree H I).
Qed.

Lemma validate_errors_witness :
  let options := JObj [("clean", JNum 1); ("colour", JBool true)] in
  let e := validationError "Invalid RTLCSS options: colour"
             "INVALID_OPTIONS" in
  validateRtlcssOptions options = inl e
  /\ statusCode e = 422 /\ ~ recognised options.
Proof.
  cbv zeta.
  assert (E : validateRtlcssOptions
                (JObj [("clean", JNum 1); ("colour", JBool true)])
              = inl (validationError "Invalid RTLCSS options: colour"
                       "INVALID_OPTIONS")) by reflexivity.
  split; [exact E|].
  destruct (@validate_errors _ _ E) as [S [_ [[_ N]|[C _]]]].
  - split; [exact S|exact N].
  - discriminate C.
Defined.

Lemma validate_idempotent_witness :
  let options := JObj [("stringMap", JArr []); ("clean", JBool false)] in
  let v := [("clean", JBool false); ("stringMap", JArr [])] in
  validateRtlcssOptions options = inr v
  /\ validateRtlcssOptions (JObj v) = inr v.
Proof.
  cbv zeta.
  assert (E : validateRtlcssOptions
                (JObj [("stringMap", JArr []); ("clean", JBool false)])
              = inr [("clean", JBool false); ("stringMap", JArr [])])
    by reflexivity.
  split; [exact E|].
  exact (proj1 (@validate_idempotent _ _ E)).
Defined.

End ValidatorMore.

(** ** The usage statistics *)

Module StatsFacts.
Import StatsService.

Lemma stats_get_set (key k : string) (s : KeyStats) (m : usageStats) :
  map_get k (map_set key s m)
  = if String.eqb key k then Some s else map_get k m.
Proof.
  induction m as [|[k0 s0] m IH]; simpl.
  - reflexivity.
  - destruct (String.eqb k0 key) eqn:E; simpl.
    + apply String.eqb_eq in E. subst k0.
      destruct (String.eqb key k); reflexivity.
    + rewrite IH. destruct (String.eqb k0 k) eqn:E'; [|reflexivity].
      destruct (String.eqb key k) eqn:E''; [|reflexivity].
      apply String.eqb_eq in E', E''. subst.
      rewrite String.eqb_refl in E. discriminate.
Qed.

Lemma stats_set_keys (key : string) (s : KeyStats) (m : usageStats) :
  NoDup (map fst m) ->
  NoDup (map fst (map_set key s m))
  /\ forall k, In k (map fst (map_set key s m)) <-> k = key \/ In k (map fst m).
Proof.
  induction m as [|[k0 s0] m IH]; simpl; intros ND.
  - split; [constructor; [intros []|constructor]|]. intros k. intuition.
  - inversion ND as [|? ? Hn ND']; subst.
    destruct (String.eqb k0 key) eqn:E; simpl.
    + apply String.eqb_eq in E. subst k0. split; [exact ND|].
      intros k. intuition.
    + destruct (IH ND') as [N1 N2]. split.
      * constructor; [|exact N1]. intros I. apply N2 in I.
        destruct I as [->|I]; [|contradiction].
        rewrite String.eqb_refl in E. discriminate.
      * intros k. rewrite N2. intuition.
Qed.

Lemma pushHistory_firstn (e : HistoryEntry) (h : list HistoryEntry) :
  pushHistory e h = firstn 100 (e :: h).
Proof.
  unfold pushHistory. cbv zeta.
  destruct (Nat.ltb_spec 100 (List.length (e :: h))) as [L|L];
    [reflexivity|].
  symmetry. apply firstn_all2. exact L.
Qed.

Lemma firstn_cons_firstn (A : Type) (n : nat) (x : A) (l : list A) :
  firstn (S n) (x :: firstn (S n) l) = firstn (S n) (x :: l).
Proof.
  change (firstn (S n) (x :: firstn (S n) l))
    with (x :: firstn n (firstn (S n) l)).
  change (firstn (S n) (x :: l)) with (x :: firstn n l).
  f_equal. rewrite firstn_firstn. f_equal. lia.
Qed.

Lemma recordConversion_get (r : Conversion) (m : usageStats) (k : string) :
  map_get k (recordConversion r m)
  = if String.eqb (apiKey r) k
    then
      let stats := match map_get k m with Some s => s | None => initial end in
      Some {| totalConversions := totalConversions stats + 1;
              totalProcessingTime :=
                totalProcessingTime stats + processingTime r;
              totalOriginalSize := totalOriginalSize stats + originalSize r;
              totalConvertedSize := totalConvertedSize stats + convertedSize r;
              ltrToRtlCount :=
                match conversionType r with
                | ltr_to_rtl => ltrToRtlCount stats + 1
                | rtl_to_ltr => ltrToRtlCount stats
                end;
              rtlToLtrCount :=
                match conversionType r with
                | ltr_to_rtl => rtlToLtrCount stats
                | rtl_to_ltr => rtlToLtrCount stats + 1
                end;
              lastUsed := Some (usedAt r);
              history := pushHistory (entryOf r) (history stats) |}
    else map_get k m.
Proof.
  unfold recordConversion. cbv zeta.
  destruct (map_get (apiKey r) m) as [s|] eqn:G.
  - rewrite G, stats_get_set.
    destruct (String.eqb (apiKey r) k) eqn:E; [|reflexivity].
    apply String.eqb_eq in E. subst k. now rewrite G.
  - rewrite stats_get_set, String.eqb_refl, !stats_get_set.
    destruct (String.eqb (apiKey r) k) eqn:E; [|reflexivity].
    apply String.eqb_eq in E. subst k. now rewrite G.
Qed.

Lemma recordConversion_keys (r : Conversion) (m : usageStats) :
  NoDup (map fst m) ->
  NoDup (map fst (recordConversion r m))
  /\ forall k, In k (map fst (recordConversion r m))
               <-> k = apiKey r \/ In k (map fst m).
Proof.
  intros ND. unfold recordConversion. cbv zeta.
  destruct (map_get (apiKey r) m) as [s|] eqn:G.
  - rewrite G. now apply stats_set_keys.
  - rewrite stats_get_set, String.eqb_refl.
    destruct (@stats_set_keys (apiKey r) initial m ND) as [N1 N2].
    match goal with
    | |- context [map_set (apiKey r) ?s (map_set _ _ _)] =>
        destruct (@stats_set_keys (apiKey r) s _ N1) as [N3 N4]
    end.
    split; [exact N3|]. intros k. rewrite N4, N2. tauto.
Qed.

Lemma recordAll_snoc (rs : list Conversion) (r : Conversion) (m : usageStats) :
  recordAll (rs ++ [r]) m = recordConversion r (recordAll rs m).
Proof. unfold recordAll. now rewrite fold_left_app. Qed.

Lemma ofKey_snoc (key : string) (rs : list Conversion) (r : Conversion) :
  ofKey key (rs ++ [r])
  = (ofKey key rs ++ if String.eqb (apiKey r) key then [r] else [])%list.
Proof. unfold ofKey. rewrite filter_app. simpl. now destruct (String.eqb _ _). Qed.

Lemma total_snoc (f : Conversion -> Z) (rs : list Conversion) (r : Conversion) :
  total f (rs ++ [r]) = total f rs + f r.
Proof.
  induction rs as [|x rs IH]; simpl; [lia|]. rewrite IH. lia.
Qed.

Lemma summary_initial : summary [] initial.
Proof. unfold summary. simpl. repeat split; reflexivity. Qed.

Lemma summary_step (rs : list Conversion) (r : Conversion) (stats : KeyStats) :
  summary rs stats ->
  summary (rs ++ [r])
    {| totalConversions := totalConversions stats + 1;
       totalProcessingTime := totalProcessingTime stats + processingTime r;
       totalOriginalSize := totalOriginalSize stats + originalSize r;
       totalConvertedSize := totalConvertedSize stats + convertedSize r;
       ltrToRtlCount :=
         match conversionType r with
         | ltr_to_rtl => ltrToRtlCount stats + 1
         | rtl_to_ltr => ltrToRtlCount stats
         end;
       rtlToLtrCount :=
         match conversionType r with
         | ltr_to_rtl => rtlToLtrCount stats
         | rtl_to_ltr => rtlToLtrCount stats + 1
         end;
       lastUsed := Some (usedAt r);
       history := pushHistory (entryOf r) (history stats) |}.
Proof.
  intros [S1 [S2 [S3 [S4 [S5 [S6 S7]]]]]]. unfold summary. simpl.
  rewrite !total_snoc, filter_app, !length_app, map_app, rev_app_distr.
  simpl. rewrite pushHistory_firstn, S6.
  split; [lia|]. split; [lia|]. split; [lia|].
  split.
  { remember (isLtrToRtl r) as b eqn:Hb. unfold isLtrToRtl in Hb.
    destruct (conversionType r); subst b; simpl; lia. }
  split; [destruct (conversionType r); lia|].
  split; [apply (firstn_cons_firstn 99)|].
  rewrite map_app. simpl map. rewrite last_last. reflexivity.
Qed.

(** The statistics of every key are those of the conversions recorded
    for that key. *)
Lemma recordAll_summary (rs : list Conversion) (k : string) :
  match map_get k (recordAll rs []) with
  | Some s => ofKey k rs <> [] /\ summary (ofKey k rs) s
  | None => ofKey k rs = []
  end.
Proof.
  induction rs as [|r rs IH] using rev_ind; [reflexivity|].
  rewrite recordAll_snoc, recordConversion_get, ofKey_snoc.
  destruct (String.eqb (apiKey r) k) eqn:E.
  - cbv zeta. split; [intros H; now apply app_eq_nil in H|].
    destruct (map_get k (recordAll rs [])) as [s|].
    + apply summary_step. exact (proj2 IH).
    + rewrite IH. apply (summary_step r summary_initial).
  - rewrite app_nil_r. exact IH.
Qed.

(** X18. The statistics of an API key depend on the conversions
    recorded for that key alone: [totalConversions] is their number,
    the size totals are the sums of their sizes, the two counts by
    type add up to [totalConversions], and [lastUsed] is the time of
    the last one.  A key has statistics exactly when a conversion
    was recorded for it. *)
Theorem usage_totals (rs : list Conversion) (k : string) :
  (map_get k (recordAll rs []) = None <-> ofKey k rs = [])
  /\ forall s, map_get k (recordAll rs []) = Some s ->
       totalConversions s = Z.of_nat (List.length (ofKey k rs))
       /\ totalOriginalSize s = total originalSize (ofKey k rs)
       /\ totalConvertedSize s = total convertedSize (ofKey k rs)
       /\ ltrToRtlCount s
          = Z.of_nat (List.length (filter isLtrToRtl (ofKey k rs)))
       /\ ltrToRtlCount s + rtlToLtrCount s = totalConversions s
       /\ lastUsed s = option_map usedAt (last (map Some (ofKey k rs)) None).
Proof.
  pose proof (recordAll_summary rs k) as H.
  destruct (map_get k (recordAll rs [])) as [s|].
  - destruct H as [N [S1 [S2 [S3 [S4 [S5 [S6 S7]]]]]]]. split.
    + split; [discriminate|]. intros E. contradiction.
    + intros s' E. injection E as <-. repeat split; assumption.
  - split; [split; [intros _; exact H|reflexivity]|discriminate].
Qed.

(** X19. The history of an API key holds the last 100 conversions
    recorded for the key, the newest first, and never more than
    100. *)
Theorem usage_history (rs : list Conversion) (k : string) (s : KeyStats) :
  map_get k (recordAll rs []) = Some s ->
  history s = firstn 100 (rev (map entryOf (ofKey k rs)))
  /\ (List.length (history s) <= 100)%nat
  /\ List.length (history s)
     = Nat.min 100 (List.length (ofKey k rs)).
Proof.
  intros E. pose proof (recordAll_summary rs k) as H. rewrite E in H.
  destruct H as [_ [_ [_ [_ [_ [_ [S6 _]]]]]]].
  rewrite S6. split; [reflexivity|].
  rewrite length_firstn, length_rev, length_map. split; [lia|reflexivity].
Qed.

(** X20. The statistics hold each API key once, whatever was
    recorded, and recording a conversion changes the statistics of no
    other key. *)
Theorem usage_keys (rs : list Conversion) (r : Conversion) (k : string) :
  NoDup (map fst (recordAll rs []))
  /\ (k <> apiKey r ->
      map_get k (recordConversion r (recordAll rs []))
      = map_get k (recordAll rs [])).
Proof.
  split.
  - induction rs as [|x rs IH] using rev_ind; [constructor|].
    rewrite recordAll_snoc. now apply recordConversion_keys.
  - intros N. rewrite recordConversion_get.
    destruct (String.eqb (apiKey r) k) eqn:E; [|reflexivity].
    apply String.eqb_eq in E. congruence.
Qed.

Lemma usage_history_witness :
  let r := {| apiKey := "key-1"; conversionType := ltr_to_rtl;
              originalSize := 20; convertedSize := 21;
              processingTime := 3000000; usedAt := 1000;
              loggedAt := 1001 |} in
  let s := match map_get "key-1" (recordAll [r; r] []) with
           | Some s => s
           | None => initial
           end in
  map_get "key-1" (recordAll [r; r] []) = Some s
  /\ history s = [entryOf r; entryOf r].
Proof.
  intros r s.
  assert (E : map_get "key-1" (recordAll [r; r] []) = Some s) by reflexivity.
  split; [exact E|].
  exact (proj1 (@usage_history [r; r] "key-1" s E)).
Defined.

End StatsFacts.

(** ** The conversion routes *)

Module RouteFacts.
Import Js Errors Convert Route.

Section Handler.

Variable parse : string -> option jsval.
Variable process : string -> obj -> list string -> option string.
Variable md5_hex : string -> string.
Variable readFile : string -> option string.

(** The errors of the options. *)
Lemma checkedOptions_error (req : Request) (e : AppError) :
  checkedOptions parse req = inl e ->
  statusCode e = 422
  /\ (errorCode e = "INVALID_OPTIONS" \/ errorCode e = "INVALID_OPTION_TYPE"
      \/ errorCode e = "INVALID_OPTIONS_FORMAT").
Proof using Type.
  unfold checkedOptions.
  destruct (truthy (bodyOptions req)); [|discriminate].
  destruct (optionsObj parse (bodyOptions req)) as [o|].
  - destruct (Validator.validateRtlcssOptions o) as [e'|v] eqn:V;
      [|discriminate].
    destruct (@ValidatorMore.validate_error_codes o e' V) as [S [O C]].
    rewrite O. intros E. injection E as <-. split; [exact S|].
    destruct C as [[C _]|[C _]]; [left|right; left]; exact C.
  - intros E. injection E as <-. split; [reflexivity|]. right. right.
    reflexivity.
Qed.

(** X21. Options that are refused end the request before the
    conversion: the handler answers 422 with the validator's error
    (or [INVALID_OPTIONS_FORMAT] for a text that is no JSON), the
    cache is as before and neither the cache nor the engine was
    called, whatever the conversion function.  Only the read of an
    uploaded file comes first, and answers 500 when it fails. *)
Theorem route_rejects_options_first
    (conversionFunction : Args -> Clock -> cache_t -> outcome)
    (req : Request) (clk : Clock) (c : cache_t) (e : AppError) :
  checkedOptions parse req = inl e ->
  let out := processConversion parse readFile conversionFunction req clk c in
  snd (fst out) = c
  /\ untouched (snd out)
  /\ ((fst (fst out) = Next (Thrown e) /\ status (fst (fst out)) = 422)
      \/ (exists path, file req = Some path /\ readFile path = None
                       /\ fst (fst out) = Next Foreign
                       /\ status (fst (fst out)) = 500)).
Proof using Type.
  intros E. cbv zeta. unfold processConversion, convertWith. rewrite E.
  destruct (checkedOptions_error _ E) as [S _].
  destruct (file req) as [path|].
  - destruct (readFile path) as [text|] eqn:R; simpl.
    + split; [reflexivity|]. split.
      * intros x [<-|[]]. eexists. reflexivity.
      * left. split; [reflexivity|exact S].
    + split; [reflexivity|]. split.
      * intros x [<-|[]]. eexists. reflexivity.
      * right. exists path. split; [reflexivity|]. split; [exact R|].
        split; reflexivity.
  - simpl. split; [reflexivity|]. split; [intros x []|].
    left. split; [reflexivity|exact S].
Qed.

(** The entry points read the options through the merge with the
    defaults, and hand the engine the keys the options have. *)
Lemma ownKeys_ext (o o' : jsval) :
  mergeOptions o = mergeOptions o' ->
  (forall k, has k o = has k o') ->
  ownKeys o = ownKeys o'.
Proof using Type.
  intros M H. unfold ownKeys. rewrite M. apply filter_ext. exact H.
Qed.

Lemma ltrToRtl_options (a a' : Args) (clk : Clock) (c : cache_t) :
  css a = css a' -> filePath a = filePath a' -> apiKey a = apiKey a' ->
  mergeOptions (rtlcssOptions a) = mergeOptions (rtlcssOptions a') ->
  (forall k, has k (rtlcssOptions a) = has k (rtlcssOptions a')) ->
  ltrToRtl process md5_hex readFile a clk c
  = ltrToRtl process md5_hex readFile a' clk c
  /\ rtlToLtr process readFile a clk c = rtlToLtr process readFile a' clk c.
Proof using Type.
  destruct a as [s f o k], a' as [s' f' o' k']. simpl.
  intros <- <- <- M H.
  rewrite !ConvertFacts.ltrToRtl_unfold, !ConvertFacts.rtlToLtr_unfold.
  unfold ltrToRtl_cases, rtlToLtr_cases, input. simpl.
  rewrite M, (ownKeys_ext o o' M H). split; reflexivity.
Qed.

(** The options the validator returns have the keys of the options
    it was given. *)
Lemma validate_keys (o v : obj) (k : string) :
  Validator.validateRtlcssOptions (JObj o) = inr v ->
  has_key k v = has_key k o.
Proof using Type.
  intros V. apply ValidatorFacts.validate_holds in V as [Sub [_ L]].
  rewrite !ValidatorFacts.lookup_has_key, L.
  destruct (Validator.includes Validator.allowedOptions k) eqn:E;
    [reflexivity|].
  destruct (lookup k o) as [x|] eqn:Lk; [|reflexivity].
  exfalso.
  assert (Hk : In k (map fst o)).
  { apply ValidatorFacts.has_key_in.
    rewrite ValidatorFacts.lookup_has_key, Lk. reflexivity. }
  apply Sub in Hk.
  assert (T : Validator.includes Validator.allowedOptions k = true).
  { apply existsb_exists. exists k. split; [exact Hk|apply String.eqb_refl]. }
  congruence.
Qed.

Lemma checkedOptions_merge (req : Request) (v : jsval) :
  is_string (bodyOptions req) = false ->
  NoDup (keys (bodyOptions req)) ->
  checkedOptions parse req = inr v ->
  mergeOptions v = mergeOptions (bodyOptions req)
  /\ forall k, has k v = has k (bodyOptions req).
Proof using Type.
  intros St ND. unfold checkedOptions.
  destruct (truthy (bodyOptions req)) eqn:T.
  - assert (P : optionsObj parse (bodyOptions req) = Some (bodyOptions req)).
    { destruct (bodyOptions req); try reflexivity. discriminate St. }
    rewrite P.
    destruct (Validator.validateRtlcssOptions (bodyOptions req))
      as [e|w] eqn:V.
    + destruct (isOperational e); discriminate.
    + intros E. injection E as <-.
      destruct (bodyOptions req) as [| |b|n|s|items|o];
        try (unfold Validator.validateRtlcssOptions in V; simpl in V;
             rewrite ?orb_true_r in V; injection V as <-;
             split; [reflexivity|intros k; reflexivity]).
      * discriminate St.
      * destruct items as [|x items];
          [injection V as <-; split; [reflexivity|intros k; reflexivity]|].
        exfalso.
        assert (A : exists w', Validator.validateRtlcssOptions
                                 (JArr (x :: items)) = inr w')
          by (eexists; exact V).
        apply ValidatorMore.validate_accepts in A; [|reflexivity].
        destruct A as [R _]. specialize (R "0" (or_introl eq_refl)).
        simpl in R. intuition discriminate.
      * split; [exact (@ConvertFacts.validate_merge o w ND V)|].
        intros k. exact (@validate_keys o w k V).
  - intros E. injection E as <-.
    destruct (bodyOptions req) as [| |b|n|s|items|o];
      try (split; [reflexivity|intros k; reflexivity]);
      try discriminate T.
    simpl in T. apply negb_false_iff, String.eqb_eq in T. subst s.
    split; [reflexivity|intros k; reflexivity].
Qed.

(** X22. Validating the options changes nothing for the options it
    lets through: when the options of the body are no text and are
    accepted, the handler answers what the service answers when it is
    given the options of the body as they are, for both
    directions. *)
Theorem route_options_transparent (req : Request) (cssText : jsval)
    (evs : list event) (clk : Clock) (c : cache_t) (v : jsval) :
  is_string (bodyOptions req) = false ->
  NoDup (keys (bodyOptions req)) ->
  checkedOptions parse req = inr v ->
  convertWith parse (ltrToRtl process md5_hex readFile) req cssText evs clk c
  = answer evs (ltrToRtl process md5_hex readFile (direct req cssText) clk c)
  /\ convertWith parse (rtlToLtr process readFile) req cssText evs clk c
     = answer evs (rtlToLtr process readFile (direct req cssText) clk c).
Proof using Type.
  intros St ND E. unfold convertWith. rewrite E.
  destruct (checkedOptions_merge _ St ND E) as [M H].
  destruct (@ltrToRtl_options
              {| css := cssText; filePath := file req; rtlcssOptions := v;
                 apiKey := reqApiKey req |}
              (direct req cssText) clk c eq_refl eq_refl eq_refl M H)
    as [-> ->].
  unfold answer. split; reflexivity.
Qed.

Lemma input_invalid (a : Args) :
  fst (input readFile a) = inl (Thrown invalidCss) ->
  rejected (css a) = true
  \/ exists path, filePath a = Some path /\ readFile path = Some EmptyString.
Proof using Type.
  unfold input.
  assert (D : fst (if rejected (css a)
                   then (inl (Thrown invalidCss), @nil event)
                   else (inr (text_of (css a)), @nil event))
              = inl (Thrown invalidCss) -> rejected (css a) = true).
  { destruct (rejected (css a)); [reflexivity|discriminate]. }
  destruct (filePath a) as [path|]; [|intros H; left; exact (D H)].
  destruct (negb (truthy (css a)) && given (Some path));
    [|intros H; left; exact (D H)].
  destruct (readFile path) as [text|] eqn:Rd; [|discriminate].
  destruct (rejected (JStr text)) eqn:Rj; [|discriminate].
  intros _. right. exists path. split; [reflexivity|].
  unfold rejected in Rj. simpl in Rj. rewrite orb_false_r in Rj.
  apply negb_true_iff, negb_false_iff, String.eqb_eq in Rj.
  rewrite Rd, Rj. reflexivity.
Qed.

(** What the service throws: [INVALID_CSS] for an input it rejects,
    [CONVERSION_ERROR] otherwise. *)
Lemma service_errors (a : Args) (clk : Clock) (c : cache_t) (e : AppError) :
  fst (fst (ltrToRtl process md5_hex readFile a clk c)) = inl e
  \/ fst (fst (rtlToLtr process readFile a clk c)) = inl e ->
  (e = invalidCss /\ fst (input readFile a) = inl (Thrown invalidCss))
  \/ e = conversionError.
Proof using Type.
  rewrite ConvertFacts.ltrToRtl_unfold, ConvertFacts.rtlToLtr_unfold.
  unfold ltrToRtl_cases, rtlToLtr_cases.
  destruct (ConvertMore.input_shape readFile a) as [_ Sh].
  destruct (input readFile a) as [[x|text] evs0]; simpl in Sh.
  - simpl. intros [H|H]; injection H as <-;
      (destruct Sh as [-> | ->]; [left; split; reflexivity|right; reflexivity]).
  - cbv zeta. intros [H|H].
    + destruct (Cache.get _ (now_get clk) c) as [[hit|] c1];
        [discriminate|].
      destruct (process text (mergeOptions (rtlcssOptions a))
        (ownKeys (rtlcssOptions a)));
        [discriminate|].
      injection H as <-. right. reflexivity.
    + destruct (process (preprocess text) (mergeOptions (rtlcssOptions a))
        (ownKeys (rtlcssOptions a)));
        [discriminate|].
      injection H as <-. right. reflexivity.
Qed.

(** X23. The answers of the two conversion routes, once the request
    is authenticated.  The status is 200, 400, 422, 429 or 500.  It is
    429, with [RATE_LIMIT_EXCEEDED], exactly when the limiter finds
    the limit exceeded.  Otherwise it is 400 exactly when the upload
    reports an error ([INVALID_FILE_TYPE] from the file filter,
    [FILE_TOO_LARGE] for multer's [LIMIT_FILE_SIZE], [UPLOAD_ERROR]
    for any other) or when the request has neither an uploaded file
    nor a truthy [css] ([NO_CSS_CONTENT]).  With 429 and 400 nothing
    else happens.  [INVALID_CSS] is answered only for an uploaded file
    that is empty or for a [css] that is no text; 500 only when the
    file cannot be read ([INTERNAL_ERROR]) or the conversion raises
    ([CONVERSION_ERROR]). *)
Theorem route_answers (cfg : Limits) (limited : bool)
    (err : option uploadError) (req : Request) (clk : Clock) (c : cache_t)
    (out : routeOutcome) :
  out = route parse readFile (ltrToRtl process md5_hex readFile) cfg limited
          err req clk c
  \/ out = route parse readFile (rtlToLtr process readFile) cfg limited err
             req clk c ->
  let r := fst (fst out) in
  In (status r) [200; 400; 422; 429; 500]
  /\ (status r = 429 <-> limited = true)
  /\ (status r = 400 <->
      limited = false
      /\ (err <> None \/ (file req = None /\ truthy (bodyCss req) = false)))
  /\ (status r = 429 \/ status r = 400 -> snd (fst out) = c /\ snd out = [])
  /\ (status r = 429 -> code r = Some "RATE_LIMIT_EXCEEDED")
  /\ (status r = 400 ->
      code r
      = Some match err with
             | Some Refused => "INVALID_FILE_TYPE"
             | Some (Failed (Some "LIMIT_FILE_SIZE") _) => "FILE_TOO_LARGE"
             | Some (Failed _ _) => "UPLOAD_ERROR"
             | None => "NO_CSS_CONTENT"
             end)
  /\ (code r = Some "INVALID_CSS" ->
      (exists path, file req = Some path /\ readFile path = Some EmptyString)
      \/ (file req = None /\ truthy (bodyCss req) = true
          /\ is_string (bodyCss req) = false))
  /\ (status r = 500 ->
      (code r = Some "INTERNAL_ERROR"
       /\ exists path, file req = Some path /\ readFile path = None)
      \/ code r = Some "CONVERSION_ERROR").
Proof using Type.
  intros Out. cbv zeta.
  (* the answers of the handler proper *)
  assert (W : forall cssText evs (f : Args -> Clock -> cache_t -> outcome),
            (forall a, f a clk c = ltrToRtl process md5_hex readFile a clk c)
            \/ (forall a, f a clk c = rtlToLtr process readFile a clk c) ->
            let w := fst (fst (convertWith parse f req cssText evs clk c)) in
            (status w = 200 \/ status w = 422 \/ status w = 500)
            /\ (code w = Some "INVALID_CSS" ->
                fst (input readFile
                       {| css := cssText; filePath := file req;
                          rtlcssOptions :=
                            match checkedOptions parse req with
                            | inr o => o
                            | inl _ => JNull
                            end;
                          apiKey := reqApiKey req |})
                = inl (Thrown invalidCss))
            /\ (status w = 500 -> code w = Some "CONVERSION_ERROR")).
  { intros cssText evs f F. cbv zeta. unfold convertWith.
    destruct (checkedOptions parse req) as [e|o] eqn:E.
    - destruct (checkedOptions_error _ E) as [S C]. simpl. rewrite S.
      split; [right; left; reflexivity|]. split; [|discriminate].
      intros H. injection H as H. rewrite H in C.
      destruct C as [C|[C|C]]; discriminate.
    - set (a := {| css := cssText; filePath := file req; rtlcssOptions := o;
                   apiKey := reqApiKey req |}).
      assert (Sv : forall e, fst (fst (f a clk c)) = inl e ->
                (e = invalidCss
                 /\ fst (input readFile a) = inl (Thrown invalidCss))
                \/ e = conversionError).
      { intros e H. apply (@service_errors a clk c e).
        destruct F as [F|F]; rewrite (F a) in H; [left|right]; exact H. }
      destruct (f a clk c) as [[[e|r] c'] evs']; simpl.
      + destruct (Sv e eq_refl) as [[-> I]| ->]; simpl.
        * split; [right; left; reflexivity|]. split; [|discriminate].
          intros _. exact I.
        * split; [right; right; reflexivity|].
          split; [discriminate|reflexivity].
      + split; [left; reflexivity|]. split; discriminate. }
  (* the handler after an upload without error *)
  assert (G : forall f : Args -> Clock -> cache_t -> outcome,
            (forall a, f a clk c = ltrToRtl process md5_hex readFile a clk c)
            \/ (forall a, f a clk c = rtlToLtr process readFile a clk c) ->
            let o := route parse readFile f cfg false None req clk c in
            let r := fst (fst o) in
            (status r = 200 \/ status r = 400 \/ status r = 422
             \/ status r = 500)
            /\ (status r = 400 <-> file req = None /\ truthy (bodyCss req) = false)
            /\ (status r = 400 ->
                code r = Some "NO_CSS_CONTENT" /\ snd (fst o) = c
                /\ snd o = [])
            /\ (code r = Some "INVALID_CSS" ->
                (exists path, file req = Some path
                              /\ readFile path = Some EmptyString)
                \/ (file req = None /\ truthy (bodyCss req) = true
                    /\ is_string (bodyCss req) = false))
            /\ (status r = 500 ->
                (code r = Some "INTERNAL_ERROR"
                 /\ exists path, file req = Some path /\ readFile path = None)
                \/ code r = Some "CONVERSION_ERROR")).
  { intros f F. cbv zeta.
    unfold route, handleCssUpload, contentCheck, processConversion.
    destruct (file req) as [path|] eqn:Fl.
    - destruct (readFile path) as [text|] eqn:Rd.
      + destruct (W (JStr text) [ReadFile path] f F) as [St [Iv Fv]].
        cbv zeta in St, Iv, Fv. rewrite ?Fl in Iv.
        set (w := fst (fst (convertWith parse f req (JStr text)
                              [ReadFile path] clk c))) in *.
        split; [destruct St as [-> | [-> | ->]]; tauto|].
        split; [split; [intros H; destruct St as [St|[St|St]]; rewrite St in H;
                        discriminate|intros [H _]; discriminate]|].
        split; [intros H; destruct St as [St|[St|St]]; rewrite St in H;
                discriminate|].
        split; [|intros H; right; exact (Fv H)].
        intros H. left. exists path. split; [reflexivity|].
        destruct (input_invalid _ (Iv H)) as [Rj|[p [Ep Rp]]].
        * simpl in Rj. unfold rejected in Rj. simpl in Rj.
          rewrite orb_false_r in Rj.
          apply negb_true_iff, negb_false_iff, String.eqb_eq in Rj.
          now subst text.
        * simpl in Ep. injection Ep as <-. exact Rp.
      + simpl. split; [tauto|].
        split; [split; [discriminate|intros [H _]; discriminate]|].
        split; [discriminate|]. split; [discriminate|].
        intros _. left. split; [reflexivity|]. exists path. now split.
    - destruct (truthy (bodyCss req)) eqn:T; simpl.
      + destruct (W (bodyCss req) [] f F) as [St [Iv Fv]].
        cbv zeta in St, Iv, Fv. rewrite ?Fl in Iv.
        set (w := fst (fst (convertWith parse f req (bodyCss req) [] clk c)))
          in *.
        split; [destruct St as [-> | [-> | ->]]; tauto|].
        split; [split; [intros H; destruct St as [St|[St|St]]; rewrite St in H;
                        discriminate|intros [_ H]; discriminate]|].
        split; [intros H; destruct St as [St|[St|St]]; rewrite St in H;
                discriminate|].
        split; [|intros H; right; exact (Fv H)].
        intros H. right. split; [reflexivity|]. split; [reflexivity|].
        destruct (input_invalid _ (Iv H)) as [Rj|[p [Ep _]]];
          [|discriminate Ep].
        simpl in Rj. unfold rejected in Rj. rewrite T in Rj. simpl in Rj.
        now apply negb_true_iff in Rj.
      + split; [tauto|]. split; [split; [intros _; now split|reflexivity]|].
        split; [intros _; repeat split; reflexivity|].
        split; discriminate. }
  assert (A : forall f : Args -> Clock -> cache_t -> outcome,
            (forall a, f a clk c = ltrToRtl process md5_hex readFile a clk c)
            \/ (forall a, f a clk c = rtlToLtr process readFile a clk c) ->
            let o := route parse readFile f cfg limited err req clk c in
            let r := fst (fst o) in
            In (status r) [200; 400; 422; 429; 500]
            /\ (status r = 429 <-> limited = true)
            /\ (status r = 400 <->
                limited = false
                /\ (err <> None
                    \/ (file req = None /\ truthy (bodyCss req) = false)))
            /\ (status r = 429 \/ status r = 400 ->
                snd (fst o) = c /\ snd o = [])
            /\ (status r = 429 -> code r = Some "RATE_LIMIT_EXCEEDED")
            /\ (status r = 400 ->
                code r
                = Some match err with
                       | Some Refused => "INVALID_FILE_TYPE"
                       | Some (Failed (Some "LIMIT_FILE_SIZE") _) =>
                           "FILE_TOO_LARGE"
                       | Some (Failed _ _) => "UPLOAD_ERROR"
                       | None => "NO_CSS_CONTENT"
                       end)
            /\ (code r = Some "INVALID_CSS" ->
                (exists path, file req = Some path
                              /\ readFile path = Some EmptyString)
                \/ (file req = None /\ truthy (bodyCss req) = true
                    /\ is_string (bodyCss req) = false))
            /\ (status r = 500 ->
                (code r = Some "INTERNAL_ERROR"
                 /\ exists path, file req = Some path /\ readFile path = None)
                \/ code r = Some "CONVERSION_ERROR")).
  { intros f F. cbv zeta. destruct limited.
    - simpl. split; [tauto|]. split; [tauto|].
      split; [split; [discriminate|intros [H _]; discriminate]|].
      split; [intros _; split; reflexivity|]. split; [reflexivity|].
      split; [discriminate|]. split; discriminate.
    - destruct err as [[|cd msg]|].
      + simpl. split; [tauto|].
        split; [split; [discriminate|discriminate]|].
        split; [split; [intros _; split; [reflexivity|left; discriminate]
                       |reflexivity]|].
        split; [intros _; split; reflexivity|]. split; [discriminate|].
        split; [reflexivity|]. split; discriminate.
      + assert (E : exists e,
                   handleCssUpload cfg (Some (Failed cd msg)) req = Some e
                   /\ statusCode e = 400
                   /\ errorCode e
                      = match cd with
                        | Some "LIMIT_FILE_SIZE" => "FILE_TOO_LARGE"
                        | _ => "UPLOAD_ERROR"
                        end).
        { unfold handleCssUpload. destruct cd as [text|].
          - destruct (String.eqb text "LIMIT_FILE_SIZE") eqn:Q.
            + apply String.eqb_eq in Q. subst text.
              eexists. repeat split.
            + eexists. split; [reflexivity|]. split; [reflexivity|].
              apply String.eqb_neq in Q. simpl.
              repeat match goal with
                     | |- context [match ?x with _ => _ end] =>
                         destruct x; try reflexivity
                     end.
              exfalso. apply Q. reflexivity.
          - eexists. repeat split. }
        destruct E as [e [He [Hs Hc]]].
        unfold route. rewrite He. cbn [fst snd status code errorHandler].
        rewrite Hs, Hc.
        split; [simpl; tauto|].
        split; [split; [discriminate|discriminate]|].
        split; [split; [intros _; split; [reflexivity|left; discriminate]
                       |reflexivity]|].
        split; [intros _; split; reflexivity|]. split; [discriminate|].
        split; [intros _; reflexivity|].
        split; [|discriminate].
        intros H. exfalso.
        destruct cd as [text|]; [|discriminate].
        injection H as H.
        repeat match type of H with
               | context [match ?x with _ => _ end] => destruct x
               end; discriminate.
      + destruct (G f F) as [St [B [N [Iv Fv]]]]. cbv zeta in St, B, N, Iv, Fv.
        set (o := route parse readFile f cfg false None req clk c) in *.
        split; [simpl; destruct St as [-> | [-> | [-> | ->]]]; tauto|].
        split; [split; [intros H; destruct St as [St|[St|[St|St]]];
                        rewrite St in H; discriminate|discriminate]|].
        split; [split; [intros H; split; [reflexivity|right; now apply B]
                       |intros [_ [H|H]]; [now elim H|now apply B]]|].
        split; [intros [H|H];
                [destruct St as [St|[St|[St|St]]]; rewrite St in H;
                 discriminate|exact (proj2 (N H))]|].
        split; [intros H; destruct St as [St|[St|[St|St]]]; rewrite St in H;
                discriminate|].
        split; [intros H; exact (proj1 (N H))|].
        split; [exact Iv|exact Fv]. }
  destruct Out as [-> | ->].
  - apply A. left. reflexivity.
  - apply A. right. reflexivity.
Qed.

End Handler.

Lemma route_rejects_options_first_witness :
  let req := RouteFixtures.request (JStr Fixtures.sheet)
               (JObj [("colour", JBool true)]) in
  let out := processConversion RouteFixtures.noJson Fixtures.noFile
               (ltrToRtl Fixtures.rtlcss Fixtures.digest Fixtures.noFile)
               req Fixtures.clock1 Cache.new in
  snd (fst out) = Cache.new /\ untouched (snd out)
  /\ status (fst (fst out)) = 422.
Proof.
  cbv zeta.
  assert (E : checkedOptions RouteFixtures.noJson
                (RouteFixtures.request (JStr Fixtures.sheet)
                   (JObj [("colour", JBool true)]))
              = inl (validationError "Invalid RTLCSS options: colour"
                       "INVALID_OPTIONS")) by reflexivity.
  destruct (@route_rejects_options_first RouteFixtures.noJson Fixtures.noFile
              (ltrToRtl Fixtures.rtlcss Fixtures.digest Fixtures.noFile)
              (RouteFixtures.request (JStr Fixtures.sheet)
                 (JObj [("colour", JBool true)]))
              Fixtures.clock1 Cache.new _ E) as [Hc [Hu Hs]].
  split; [exact Hc|]. split; [exact Hu|].
  destruct Hs as [[_ S]|[path [F _]]]; [exact S|discriminate F].
Defined.

Lemma route_options_transparent_witness :
  let options := JObj [("stringMap", JArr []); ("clean", JBool false)] in
  let req := RouteFixtures.request (JStr Fixtures.sheet) options in
  checkedOptions RouteFixtures.noJson req
  = inr (JObj [("clean", JBool false); ("stringMap", JArr [])])
  /\ convertWith RouteFixtures.noJson
       (ltrToRtl Fixtures.rtlcss Fixtures.digest Fixtures.noFile) req
       (JStr Fixtures.sheet) [] Fixtures.clock1 Cache.new
     = answer []
         (ltrToRtl Fixtures.rtlcss Fixtures.digest Fixtures.noFile
            (direct req (JStr Fixtures.sheet)) Fixtures.clock1 Cache.new)
  /\ status
       (fst (fst (convertWith RouteFixtures.noJson
                    (ltrToRtl Fixtures.rtlcss Fixtures.digest Fixtures.noFile)
                    req (JStr Fixtures.sheet) [] Fixtures.clock1 Cache.new)))
     = 200.
Proof.
  cbv zeta. split; [reflexivity|]. split; [|vm_compute; reflexivity].
  refine (proj1 (@route_options_transparent RouteFixtures.noJson
                   Fixtures.rtlcss Fixtures.digest Fixtures.noFile
                   (RouteFixtures.request (JStr Fixtures.sheet)
                      (JObj [("stringMap", JArr []); ("clean", JBool false)]))
                   (JStr Fixtures.sheet) [] Fixtures.clock1 Cache.new
                   (JObj [("clean", JBool false); ("stringMap", JArr [])])
                   _ _ _)).
  - reflexivity.
  - simpl. repeat constructor; simpl; intuition discriminate.
  - reflexivity.
Defined.

Lemma route_answers_witness :
  let req := RouteFixtures.request (JNum 42) JUndefined in
  let run limited err :=
    route RouteFixtures.noJson Fixtures.noFile
      (ltrToRtl Fixtures.rtlcss Fixtures.digest Fixtures.noFile)
      defaultLimits limited err req Fixtures.clock1 Cache.new in
  let tooLarge := Some (Failed (Some "LIMIT_FILE_SIZE") "File too large") in
  code (fst (fst (run false None))) = Some "INVALID_CSS"
  /\ is_string (bodyCss req) = false
  /\ status (fst (fst (run true None))) = 429
  /\ code (fst (fst (run true None))) = Some "RATE_LIMIT_EXCEEDED"
  /\ status (fst (fst (run false tooLarge))) = 400
  /\ code (fst (fst (run false tooLarge))) = Some "FILE_TOO_LARGE".
Proof.
  cbv zeta.
  split; [reflexivity|].
  destruct (@route_answers RouteFixtures.noJson Fixtures.rtlcss
              Fixtures.digest Fixtures.noFile defaultLimits false None
              (RouteFixtures.request (JNum 42) JUndefined)
              Fixtures.clock1 Cache.new _ (or_introl eq_refl))
    as [_ [_ [_ [_ [_ [_ [H _]]]]]]].
  split.
  { destruct (H eq_refl) as [[path [F _]]|[_ [_ S]]];
      [discriminate F|exact S]. }
  destruct (@route_answers RouteFixtures.noJson Fixtures.rtlcss
              Fixtures.digest Fixtures.noFile defaultLimits true None
              (RouteFixtures.request (JNum 42) JUndefined)
              Fixtures.clock1 Cache.new _ (or_introl eq_refl))
    as [_ [L [_ [_ [Lc _]]]]].
  split; [exact (proj2 L eq_refl)|].
  split; [exact (Lc (proj2 L eq_refl))|].
  destruct (@route_answers RouteFixtures.noJson Fixtures.rtlcss
              Fixtures.digest Fixtures.noFile defaultLimits false
              (Some (Failed (Some "LIMIT_FILE_SIZE") "File too large"))
              (RouteFixtures.request (JNum 42) JUndefined)
              Fixtures.clock1 Cache.new _ (or_introl eq_refl))
    as [_ [_ [B [_ [_ [Bc _]]]]]].
  assert (S : status
                (fst (fst (route RouteFixtures.noJson Fixtures.noFile
                             (ltrToRtl Fixtures.rtlcss Fixtures.digest
                                Fixtures.noFile)
                             defaultLimits false
                             (Some (Failed (Some "LIMIT_FILE_SIZE")
                                      "File too large"))
                             (RouteFixtures.request (JNum 42) JUndefined)
                             Fixtures.clock1 Cache.new))) = 400).
  { apply (proj2 B). split; [reflexivity|left; discriminate]. }
  split; [exact S|exact (Bc S)].
Defined.

End RouteFacts.

(** ** Authentication *)

Module AuthFacts.
Import Errors Auth.

Lemma store_get_set (key k : string) (c : Credentials) (m : store) :
  map_get k (map_set key c m)
  = if String.eqb key k then Some c else map_get k m.
Proof.
  induction m as [|[k0 c0] m IH]; simpl.
  - reflexivity.
  - destruct (String.eqb k0 key) eqn:E; simpl.
    + apply String.eqb_eq in E. subst k0.
      destruct (String.eqb key k); reflexivity.
    + rewrite IH. destruct (String.eqb k0 k) eqn:E'; [|reflexivity].
      destruct (String.eqb key k) eqn:E''; [|reflexivity].
      apply String.eqb_eq in E', E''. subst.
      rewrite String.eqb_refl in E. discriminate.
Qed.

Lemma present_text (x : option string) :
  present x = true <-> x = Some (text x) /\ text x <> EmptyString.
Proof.
  destruct x as [s|]; simpl.
  - rewrite negb_true_iff, String.eqb_neq. intuition.
  - split; [discriminate|]. intros [H _]. discriminate.
Qed.

Section Crypto.

Variable hmac_sha256_hex : string -> string -> string.
Variable parseInt : string -> option Z.

Lemma verifySignature_true (p s k : string) :
  verifySignature hmac_sha256_hex p s k = Some true
  <-> s = createSignature hmac_sha256_hex p k.
Proof using Type.
  unfold verifySignature, createSignature. cbv zeta. split.
  - destruct (String.length s =? String.length (hmac_sha256_hex k p))%nat;
      [|discriminate].
    intros H. injection H as H. now apply String.eqb_eq.
  - intros ->. rewrite Nat.eqb_refl, String.eqb_refl. reflexivity.
Qed.

(** X24. The middleware lets a request through exactly when the three
    headers are there, the timestamp parses to a time less than
    [requestTimeout] seconds away from now, the key is stored and
    enabled with a non-empty secret, and the signature is the HMAC,
    under that secret, of the path, the method and the timestamp as
    sent; the key it hands on is the one of the header, and it has
    marked the key as used. *)
Theorem auth_accepts_iff (req : Request) (now used : Z) (m : store)
    (key : string) :
  (fst (authMiddleware hmac_sha256_hex parseInt req now used m) = inr key
   <-> exists c, map_get key m = Some c /\ enabled c = true
                 /\ wellSigned hmac_sha256_hex parseInt req now key (secret c))
  /\ (fst (authMiddleware hmac_sha256_hex parseInt req now used m) = inr key ->
      exists c, map_get key m = Some c
        /\ map_get key
             (snd (authMiddleware hmac_sha256_hex parseInt req now used m))
           = Some {| secret := secret c; createdAt := createdAt c;
                     lastUsed := Some used; enabled := true |}).
Proof using Type.
  assert (F : fst (authMiddleware hmac_sha256_hex parseInt req now used m)
              = inr key ->
              exists c, map_get key m = Some c /\ enabled c = true
                /\ wellSigned hmac_sha256_hex parseInt req now key (secret c)
                /\ map_get key
                     (snd (authMiddleware hmac_sha256_hex parseInt req now
                             used m))
                   = Some {| secret := secret c; createdAt := createdAt c;
                             lastUsed := Some used; enabled := true |}).
  { unfold authMiddleware.
    destruct (present (headerApiKey req)) eqn:Pk; [|discriminate].
    destruct (present (headerTimestamp req)) eqn:Pt; [|discriminate].
    destruct (present (headerSignature req)) eqn:Ps; [|discriminate].
    simpl.
    destruct (parseInt (text (headerTimestamp req))) as [t|] eqn:Pi;
      [|discriminate].
    destruct (isTimestampValid t now) eqn:Tv; [|discriminate]. simpl.
    unfold getApiSecret.
    destruct (map_get (text (headerApiKey req)) m) as [c|] eqn:G;
      [|discriminate].
    destruct (enabled c) eqn:En; [|discriminate]. simpl.
    destruct (negb (String.eqb (secret c) EmptyString)) eqn:Se;
      [|discriminate]. simpl.
    destruct (verifySignature hmac_sha256_hex (payload req)
                (text (headerSignature req)) (secret c)) as [[|]|] eqn:V;
      try discriminate.
    simpl. intros H. injection H as <-.
    exists c. split; [exact G|]. split; [exact En|].
    apply present_text in Pk, Ps. destruct Pk as [Pk1 Pk2], Ps as [Ps1 Ps2].
    apply verifySignature_true in V. unfold createSignature in V.
    split.
    - unfold wellSigned. split; [exact Pk1|]. split; [exact Pk2|].
      split; [exact Pt|]. split.
      + exists t. split; [exact Pi|]. unfold isTimestampValid in Tv.
        now apply Z.ltb_lt in Tv.
      + split; [now apply negb_true_iff, String.eqb_neq in Se|].
        split; [now rewrite <- V|]. now rewrite <- V.
    - rewrite store_get_set, String.eqb_refl. reflexivity. }
  split; [split|].
  - intros H. destruct (F H) as [c [G [En [W _]]]]. exists c.
    split; [exact G|]. split; [exact En|exact W].
  - intros [c [G [En [Hk [Kn [Pt [[t [Pi Tv]] [Sn [Hs Hn]]]]]]]]].
    unfold authMiddleware.
    assert (Pk : present (headerApiKey req) = true).
    { rewrite Hk. simpl. now apply negb_true_iff, String.eqb_neq. }
    assert (Ps : present (headerSignature req) = true).
    { rewrite Hs. simpl. now apply negb_true_iff, String.eqb_neq. }
    rewrite Pk, Pt, Ps. simpl. rewrite Pi.
    assert (Tv' : isTimestampValid t now = true)
      by (unfold isTimestampValid; now apply Z.ltb_lt).
    rewrite Tv'. simpl. unfold getApiSecret. rewrite Hk. simpl.
    rewrite G, En. simpl.
    assert (Se : negb (String.eqb (secret c) EmptyString) = true)
      by now apply negb_true_iff, String.eqb_neq.
    rewrite Se. simpl. rewrite Hs. simpl.
    assert (V : verifySignature hmac_sha256_hex (payload req)
                  (hmac_sha256_hex (secret c) (payload req)) (secret c)
                = Some true) by now apply verifySignature_true.
    rewrite V. reflexivity.
  - intros H. destruct (F H) as [c [G [_ [_ S]]]]. exists c. now split.
Qed.

(** X25. A request that is in order but for its signature is refused
    with status 401: with [AUTH_FAILED] when the signature has not
    the length of the expected one, with [INVALID_SIGNATURE] when it
    has; either way the key has been marked as used. *)
Theorem auth_bad_signature (req : Request) (now used : Z) (m : store)
    (key sent : string) (c : Credentials) (t : Z) :
  map_get key m = Some c -> enabled c = true -> secret c <> EmptyString ->
  headerApiKey req = Some key -> key <> EmptyString ->
  present (headerTimestamp req) = true ->
  parseInt (text (headerTimestamp req)) = Some t ->
  Z.abs (now - t) < requestTimeout * 1000 ->
  headerSignature req = Some sent -> sent <> EmptyString ->
  sent <> hmac_sha256_hex (secret c) (payload req) ->
  let out := authMiddleware hmac_sha256_hex parseInt req now used m in
  (exists e, fst out = inl e /\ statusCode e = 401
     /\ errorCode e
        = if (String.length sent
              =? String.length (hmac_sha256_hex (secret c) (payload req)))%nat
          then "INVALID_SIGNATURE" else "AUTH_FAILED")
  /\ map_get key (snd out)
     = Some {| secret := secret c; createdAt := createdAt c;
               lastUsed := Some used; enabled := true |}.
Proof using Type.
  intros G En Sn Hk Kn Pt Pi Tv Hs Ns Ne. cbv zeta.
  unfold authMiddleware.
  assert (Pk : present (headerApiKey req) = true).
  { rewrite Hk. simpl. now apply negb_true_iff, String.eqb_neq. }
  assert (Ps : present (headerSignature req) = true).
  { rewrite Hs. simpl. now apply negb_true_iff, String.eqb_neq. }
  rewrite Pk, Pt, Ps. simpl. rewrite Pi.
  assert (Tv' : isTimestampValid t now = true)
    by (unfold isTimestampValid; now apply Z.ltb_lt).
  rewrite Tv'. simpl. unfold getApiSecret. rewrite Hk. simpl.
  rewrite G, En. simpl.
  assert (Se : negb (String.eqb (secret c) EmptyString) = true)
    by now apply negb_true_iff, String.eqb_neq.
  rewrite Se. simpl. rewrite Hs. simpl.
  unfold verifySignature. cbv zeta.
  change (hmac_sha256_hex (secret c)
            (path req ++ "|" ++ method req ++ "|" ++ text (headerTimestamp req)))
    with (hmac_sha256_hex (secret c) (payload req)) in *.
  destruct (String.length sent
            =? String.length (hmac_sha256_hex (secret c) (payload req)))%nat.
  - apply String.eqb_neq in Ne. rewrite Ne. simpl. split.
    + eexists. split; [reflexivity|]. split; reflexivity.
    + rewrite store_get_set, String.eqb_refl. reflexivity.
  - simpl. split.
    + eexists. split; [reflexivity|]. split; reflexivity.
    + rewrite store_get_set, String.eqb_refl. reflexivity.
Qed.

End Crypto.

(** *** Disabled keys *)

(** The key is not stored, or stored disabled. *)
Lemma step_disabled (key : string) (m : store) (o : op) :
  (forall s now, o <> Create key s now) ->
  (forall c, map_get key m = Some c -> enabled c = false) ->
  forall c, map_get key (step m o) = Some c -> enabled c = false.
Proof.
  intros N D c. destruct o as [k s now|k now|k]; simpl.
  - unfold createApiCredentials. rewrite store_get_set.
    destruct (String.eqb k key) eqn:E; [|apply D].
    apply String.eqb_eq in E. subst k. elim (N s now). reflexivity.
  - unfold getApiSecret. destruct (map_get k m) as [c0|] eqn:G; [|apply D].
    destruct (enabled c0) eqn:En; simpl; [|apply D].
    rewrite store_get_set. destruct (String.eqb k key) eqn:E; [|apply D].
    apply String.eqb_eq in E. subst k.
    specialize (D c0 G). congruence.
  - unfold disableApiKey. destruct (map_get k m) as [c0|] eqn:G; [|apply D].
    simpl. rewrite store_get_set. destruct (String.eqb k key); [|apply D].
    intros H. injection H as <-. reflexivity.
Qed.

Lemma run_disabled (key : string) (ops : list op) (m : store) :
  neverCreates key ops ->
  (forall c, map_get key m = Some c -> enabled c = false) ->
  forall c, map_get key (run ops m) = Some c -> enabled c = false.
Proof.
  revert m. induction ops as [|o ops IH]; intros m N D; [exact D|].
  simpl. apply IH.
  - intros s now I. apply (N s now). now right.
  - apply step_disabled; [|exact D].
    intros s now E. apply (N s now). left. exact E.
Qed.

(** X26. Disabling a key is final: after [disableApiKey], and
    whatever keys are created, looked up or disabled afterwards, as
    long as the key itself is not created anew, [getApiSecret] gives
    no secret for it, [verifyApiKey] does not answer [true], and the
    middleware lets no request with this key through, whatever its
    signature. *)
Theorem disabled_key_refused (hmac_sha256_hex : string -> string -> string)
    (parseInt : string -> option Z) (key : string) (m : store)
    (ops : list op) (req : Request) (now used : Z) :
  neverCreates key ops ->
  let m' := run ops (snd (disableApiKey key m)) in
  fst (getApiSecret key used m') = None
  /\ verifyApiKey key m' <> Some true
  /\ (headerApiKey req = Some key ->
      exists e, fst (authMiddleware hmac_sha256_hex parseInt req now used m')
                = inl e
                /\ (statusCode e = 401 \/ statusCode e = 400)).
Proof.
  intros N. cbv zeta.
  assert (D0 : forall c, map_get key (snd (disableApiKey key m)) = Some c ->
                         enabled c = false).
  { unfold disableApiKey. destruct (map_get key m) as [c0|] eqn:G; simpl.
    - intros c. rewrite store_get_set, String.eqb_refl.
      intros H. injection H as <-. reflexivity.
    - intros c H. congruence. }
  pose proof (@run_disabled key ops _ N D0) as D.
  set (m' := run ops (snd (disableApiKey key m))) in *.
  assert (S : fst (getApiSecret key used m') = None).
  { unfold getApiSecret. destruct (map_get key m') as [c|] eqn:G;
      [|reflexivity].
    rewrite (D c eq_refl). reflexivity. }
  split; [exact S|]. split.
  - unfold verifyApiKey. destruct (map_get key m') as [c|] eqn:G;
      [|discriminate].
    rewrite (D c eq_refl). discriminate.
  - intros Hk. unfold authMiddleware.
    destruct (negb (present (headerApiKey req))
              || negb (present (headerTimestamp req))
              || negb (present (headerSignature req)));
      [eexists; split; [reflexivity|left; reflexivity]|].
    destruct (parseInt (text (headerTimestamp req))) as [t|];
      [|eexists; split; [reflexivity|right; reflexivity]].
    destruct (negb (isTimestampValid t now));
      [eexists; split; [reflexivity|left; reflexivity]|].
    rewrite Hk. simpl.
    destruct (getApiSecret key used m') as [sec m1] eqn:Gs.
    simpl in S. subst sec. simpl.
    eexists. split; [reflexivity|left; reflexivity].
Qed.

Lemma auth_bad_signature_witness :
  let out := authMiddleware AuthFixtures.sign AuthFixtures.numeral
               (AuthFixtures.signed "forged") 1500 1501 AuthFixtures.keys in
  (exists e, fst out = inl e /\ statusCode e = 401
             /\ errorCode e = "AUTH_FAILED")
  /\ map_get "key-1" (snd out)
     = Some {| secret := "s3cret"; createdAt := 0; lastUsed := Some 1501;
               enabled := true |}.
Proof.
  cbv zeta.
  refine (@auth_bad_signature AuthFixtures.sign AuthFixtures.numeral
            (AuthFixtures.signed "forged") 1500 1501 AuthFixtures.keys
            "key-1" "forged"
            {| secret := "s3cret"; createdAt := 0; lastUsed := None;
               enabled := true |} 1000 _ _ _ _ _ _ _ _ _ _ _);
    try reflexivity; try discriminate.
Defined.

Lemma disabled_key_refused_witness :
  let ops := [GetSecret "key-1" 5; Create "key-2" "other" 6] in
  let m' := run ops (snd (disableApiKey "key-1" AuthFixtures.keys)) in
  fst (getApiSecret "key-1" 7 m') = None
  /\ verifyApiKey "key-1" m' <> Some true.
Proof.
  cbv zeta.
  assert (N : neverCreates "key-1"
                [GetSecret "key-1" 5; Create "key-2" "other" 6]).
  { intros s now [H|[H|[]]]; discriminate. }
  destruct (@disabled_key_refused AuthFixtures.sign AuthFixtures.numeral
              "key-1" AuthFixtures.keys
              [GetSecret "key-1" 5; Create "key-2" "other" 6]
              (AuthFixtures.signed "forged") 1500 7 N) as [H1 [H2 _]].
  split; [exact H1|exact H2].
Defined.

End AuthFacts.

(** ** The two [validateCss] *)

Module CssFacts.
Import Js CssScan.

(** *** The braces *)

Lemma braceLoop_depth (s : string) (n m : Z) :
  braceLoop s n = Some m ->
  (forall p q, s = (p ++ q)%string -> 0 <= n -> 0 <= n + depth p)
  /\ m = n + depth s.
Proof.
  revert n. induction s as [|c s IH]; intros n; simpl.
  - intros H. injection H as <-. split; [|lia].
    intros p q E. destruct p; [simpl; lia|discriminate].
  - destruct (Z.ltb_spec
                (if Ascii.eqb c "}"
                 then (if Ascii.eqb c "{" then n + 1 else n) - 1
                 else if Ascii.eqb c "{" then n + 1 else n) 0) as [L|L];
      [discriminate|].
    intros H. destruct (IH _ H) as [P M]. split.
    + intros p q E N. destruct p as [|c' p]; [simpl; lia|].
      simpl in E. injection E as <- E. simpl.
      specialize (P p q E L).
      destruct (Ascii.eqb c "{"), (Ascii.eqb c "}"); lia.
    + rewrite M. destruct (Ascii.eqb c "{"), (Ascii.eqb c "}"); lia.
Qed.

Lemma braceLoop_total (s : string) (n : Z) :
  (forall p q, s = (p ++ q)%string -> 0 <= n + depth p) ->
  braceLoop s n = Some (n + depth s).
Proof.
  revert n. induction s as [|c s IH]; intros n P; simpl.
  - f_equal. lia.
  - pose proof (P (String c EmptyString) s eq_refl) as P1. simpl in P1.
    destruct (Z.ltb_spec
                (if Ascii.eqb c "}"
                 then (if Ascii.eqb c "{" then n + 1 else n) - 1
                 else if Ascii.eqb c "{" then n + 1 else n) 0) as [L|L].
    + destruct (Ascii.eqb c "{"), (Ascii.eqb c "}"); lia.
    + rewrite IH.
      * f_equal. destruct (Ascii.eqb c "{"), (Ascii.eqb c "}"); lia.
      * intros p q E. specialize (P (String c p) q).
        simpl in P. rewrite E in P. specialize (P eq_refl).
        destruct (Ascii.eqb c "{"), (Ascii.eqb c "}"); lia.
Qed.

Lemma braceLoop_balanced (s : string) :
  (exists n, braceLoop s 0 = Some n /\ (n =? 0) = true) <-> balanced s.
Proof.
  unfold balanced. split.
  - intros [n [H Z0]]. apply Z.eqb_eq in Z0. subst n.
    destruct (braceLoop_depth _ _ H) as [P M]. split; [|lia].
    intros p q E. specialize (P p q E). lia.
  - intros [P D]. exists 0. split; [|reflexivity].
    rewrite (@braceLoop_total s 0); [f_equal; lia|].
    intros p q E. specialize (P p q E). lia.
Qed.

(** *** The runs *)

Lemma skip_name_split (s : string) :
  exists name, s = (name ++ skip_name s)%string /\ all_name name = true.
Proof.
  induction s as [|c s [name [E A]]]; simpl.
  - exists EmptyString. split; reflexivity.
  - destruct (is_name c) eqn:N.
    + exists (String c name). simpl. rewrite N, A. split; [|reflexivity].
      now rewrite <- E.
    + exists EmptyString. split; reflexivity.
Qed.

Lemma skip_name_app (name rest : string) :
  all_name name = true -> no_name_first rest ->
  skip_name (name ++ rest) = rest.
Proof.
  intros A N. induction name as [|c name IH]; simpl in *.
  - destruct rest as [|d rest]; [reflexivity|]. simpl in *. now rewrite N.
  - apply andb_true_iff in A. destruct A as [A1 A2]. rewrite A1. now apply IH.
Qed.

Lemma skip_spaces_split_le (n : nat) (s : string) :
  (String.length s <= n)%nat ->
  exists ws, s = (ws ++ skip_spaces s)%string /\ Spaces ws.
Proof.
  revert s. induction n as [|n IH]; intros s L.
  - destruct s; [|simpl in L; lia].
    exists EmptyString. split; [reflexivity|constructor].
  - destruct s as [|a s1]; [exists EmptyString; split; [reflexivity|constructor]|].
    simpl in L. simpl.
    destruct (is_space1 a) eqn:S1.
    { destruct (IH s1) as [ws [E W]]; [lia|].
      exists (String a ws). simpl. rewrite <- E.
      split; [reflexivity|now constructor]. }
    destruct s1 as [|b s2];
      [exists EmptyString; split; [reflexivity|constructor]|].
    simpl in L.
    destruct (is_space2 a b) eqn:S2.
    { destruct (IH s2) as [ws [E W]]; [lia|].
      exists (String a (String b ws)). simpl. rewrite <- E.
      split; [reflexivity|now constructor]. }
    destruct s2 as [|c s3];
      [exists EmptyString; split; [reflexivity|constructor]|].
    simpl in L.
    destruct (is_space3 a b c) eqn:S3.
    { destruct (IH s3) as [ws [E W]]; [lia|].
      exists (String a (String b (String c ws))). simpl. rewrite <- E.
      split; [reflexivity|now constructor]. }
    exists EmptyString. split; [reflexivity|constructor].
Qed.

Lemma skip_spaces_split (s : string) :
  exists ws, s = (ws ++ skip_spaces s)%string /\ Spaces ws.
Proof. apply (@skip_spaces_split_le (String.length s) s). lia. Qed.

Lemma space2_not1 (a b : ascii) : is_space2 a b = true -> is_space1 a = false.
Proof.
  unfold is_space2, is_space1, byte_is. intros H.
  apply andb_true_iff in H. destruct H as [H _]. apply Nat.eqb_eq in H.
  rewrite H. reflexivity.
Qed.

Lemma space3_lead (a b c : ascii) :
  is_space3 a b c = true ->
  nat_of_ascii a = 225%nat \/ nat_of_ascii a = 226%nat
  \/ nat_of_ascii a = 227%nat \/ nat_of_ascii a = 239%nat.
Proof.
  unfold is_space3, byte_is. intros H.
  repeat (apply orb_true_iff in H; destruct H as [H|H]);
    repeat (apply andb_true_iff in H; destruct H as [H ?]);
    apply Nat.eqb_eq in H; tauto.
Qed.

Lemma space3_not12 (a b c d : ascii) :
  is_space3 a b c = true -> is_space1 a = false /\ is_space2 a d = false.
Proof.
  intros H. apply space3_lead in H. unfold is_space1, is_space2, byte_is.
  destruct H as [H|[H|[H|H]]]; rewrite H; split; reflexivity.
Qed.

Lemma skip_spaces_app (ws rest : string) :
  Spaces ws -> skip_spaces (ws ++ ":" ++ rest) = (":" ++ rest)%string.
Proof.
  induction 1 as [|a r S1 W IH|a b r S2 W IH|a b c r S3 W IH].
  - simpl. destruct rest as [|b [|c rest]]; reflexivity.
  - simpl. now rewrite S1.
  - simpl. now rewrite (@space2_not1 a b S2), S2.
  - simpl. destruct (@space3_not12 a b c b S3) as [N1 N2].
    now rewrite N1, N2, S3.
Qed.

Lemma spaces_no_name (ws rest : string) :
  Spaces ws -> no_name_first (ws ++ ":" ++ rest).
Proof.
  intros W. destruct W as [|a r S1 W|a b r S2 W|a b c r S3 W]; simpl.
  - reflexivity.
  - unfold is_space1 in S1. unfold is_name.
    destruct (Nat.leb_spec 9 (nat_of_ascii a)),
      (Nat.leb_spec (nat_of_ascii a) 13),
      (Nat.eqb_spec (nat_of_ascii a) 32); simpl in S1; try discriminate;
      destruct (Nat.leb_spec 65 (nat_of_ascii a)),
        (Nat.leb_spec 97 (nat_of_ascii a)),
        (Nat.eqb_spec (nat_of_ascii a) 45); simpl; try lia;
      rewrite ?andb_false_r; try reflexivity;
      destruct (Nat.leb_spec (nat_of_ascii a) 90),
        (Nat.leb_spec (nat_of_ascii a) 122); simpl; try lia; reflexivity.
  - unfold is_space2, byte_is in S2. apply andb_true_iff in S2.
    destruct S2 as [S2 _]. apply Nat.eqb_eq in S2.
    unfold is_name. rewrite S2. reflexivity.
  - apply space3_lead in S3. unfold is_name.
    destruct S3 as [H|[H|[H|H]]]; rewrite H; reflexivity.
Qed.

(** *** The values *)

Lemma has_semicolon_split (s : string) :
  has_semicolon s = true ->
  exists v post, s = (v ++ ";" ++ post)%string /\ has_semicolon v = false.
Proof.
  induction s as [|c s IH]; simpl; [discriminate|].
  destruct (Ascii.eqb c ";") eqn:E; simpl.
  - intros _. apply Ascii.eqb_eq in E. subst c.
    exists EmptyString, s. split; reflexivity.
  - intros H. destruct (IH H) as [v [post [-> N]]].
    exists (String c v), post. simpl. rewrite E, N. split; reflexivity.
Qed.

Lemma has_semicolon_app (v post : string) :
  has_semicolon (v ++ ";" ++ post) = true.
Proof.
  induction v as [|c v IH]; simpl in *; [reflexivity|].
  rewrite IH. apply orb_true_r.
Qed.

Lemma value_convert_sound (s : string) :
  value_convert s = true ->
  exists v post, s = (v ++ ";" ++ post)%string /\ v <> EmptyString
                 /\ noSemicolon v.
Proof.
  destruct s as [|c s]; simpl; [discriminate|].
  intros H. apply andb_true_iff in H. destruct H as [N H].
  destruct (has_semicolon_split _ H) as [v [post [-> F]]].
  exists (String c v), post. split; [reflexivity|]. split; [discriminate|].
  unfold noSemicolon. simpl. apply negb_true_iff in N. now rewrite N, F.
Qed.

Lemma value_convert_complete (v post : string) :
  v <> EmptyString -> noSemicolon v ->
  value_convert (v ++ ";" ++ post) = true.
Proof.
  destruct v as [|c v]; [congruence|]. intros _ N.
  unfold noSemicolon in N. simpl in N. apply orb_false_iff in N.
  destruct N as [N _]. simpl. rewrite N. simpl. apply has_semicolon_app.
Qed.

Lemma oneLine_tail (c : ascii) (v : string) : oneLine (String c v) -> oneLine v.
Proof. intros O p q E. apply (O (String c p) q). simpl. now rewrite E. Qed.

Lemma terminator_at_app (q post : string) :
  terminator_at (q ++ ";" ++ post) = terminator_at q.
Proof.
  destruct q as [|a [|b [|c q]]]; simpl.
  - destruct post as [|b [|c post]]; reflexivity.
  - destruct post as [|c post]; [reflexivity|].
    destruct (byte_is a 10), (byte_is a 13), (byte_is a 226); reflexivity.
  - destruct (byte_is a 10), (byte_is a 13), (byte_is a 226),
      (byte_is b 128); reflexivity.
  - reflexivity.
Qed.

Lemma dots_semicolon_sound (s : string) (seen : bool) :
  dots_semicolon s seen = true ->
  exists v post, s = (v ++ ";" ++ post)%string
                 /\ (seen = false -> v <> EmptyString) /\ oneLine v.
Proof.
  revert seen. induction s as [|c s IH]; intros seen; [discriminate|].
  change (dots_semicolon (String c s) seen)
    with (if terminator_at (String c s) then false
          else if seen && Ascii.eqb c ";" then true
               else dots_semicolon s true).
  destruct (terminator_at (String c s)) eqn:T; [discriminate|].
  destruct (seen && Ascii.eqb c ";") eqn:E.
  - intros _. apply andb_true_iff in E. destruct E as [-> E].
    apply Ascii.eqb_eq in E. subst c.
    exists EmptyString, s. split; [reflexivity|]. split; [discriminate|].
    intros p q H. destruct p; [|discriminate]. simpl in H. now subst q.
  - intros H. destruct (IH _ H) as [v [post [-> [_ O]]]].
    exists (String c v), post. split; [reflexivity|]. split; [discriminate|].
    intros p q H'. destruct p as [|c' p].
    + simpl in H'. subst q.
      change (String c (v ++ ";" ++ post))
        with (String c v ++ ";" ++ post)%string in T.
      now rewrite terminator_at_app in T.
    + simpl in H'. injection H' as _ H'. exact (O p q H').
Qed.

Lemma dots_semicolon_complete (v post : string) (seen : bool) :
  oneLine v -> seen = true \/ v <> EmptyString ->
  dots_semicolon (v ++ ";" ++ post) seen = true.
Proof.
  revert seen. induction v as [|c v IH]; intros seen O S.
  - destruct S as [-> |S]; [|congruence].
    change (dots_semicolon (EmptyString ++ ";" ++ post) true)
      with (if terminator_at (EmptyString ++ ";" ++ post) then false
            else if true && Ascii.eqb ";" ";" then true
                 else dots_semicolon post true).
    rewrite terminator_at_app. reflexivity.
  - change (dots_semicolon (String c v ++ ";" ++ post) seen)
      with (if terminator_at (String c v ++ ";" ++ post) then false
            else if seen && Ascii.eqb c ";" then true
                 else dots_semicolon (v ++ ";" ++ post) true).
    rewrite terminator_at_app, (O EmptyString (String c v) eq_refl).
    destruct (seen && Ascii.eqb c ";"); [reflexivity|].
    apply IH; [exact (oneLine_tail O)|now left].
Qed.

(** *** The test of the regular expression *)

Section Test.

Variable value : string -> bool.
Variable goodValue : string -> Prop.

Hypothesis value_sound :
  forall s, value s = true ->
    exists v post, s = (v ++ ";" ++ post)%string /\ v <> EmptyString
                   /\ goodValue v.

Hypothesis value_complete :
  forall v post, v <> EmptyString -> goodValue v ->
    value (v ++ ";" ++ post) = true.

Lemma match_here_sound (s : string) :
  match_here value s = true -> declares goodValue s.
Proof using value_sound.
  unfold match_here. destruct s as [|c s]; [discriminate|].
  destruct (is_name c) eqn:N; [|discriminate].
  destruct (skip_name_split (String c s)) as [name [E A]].
  remember (skip_name (String c s)) as t eqn:Et.
  destruct (skip_spaces_split t) as [ws [E' W]].
  destruct (skip_spaces t) as [|d rest]; [discriminate|].
  intros H. apply andb_true_iff in H. destruct H as [D V].
  apply Ascii.eqb_eq in D. subst d.
  destruct (value_sound V) as [v [post [-> [Nv G]]]].
  exists EmptyString, name, ws, v, post.
  split; [rewrite E, E'; reflexivity|].
  split.
  - intros ->. simpl in E. rewrite Et in E. simpl in E. rewrite N in E.
    assert (B : forall u, (String.length (skip_name u) <= String.length u)%nat).
    { induction u as [|a u IH]; simpl; [lia|].
      destruct (is_name a); simpl; lia. }
    specialize (B s). rewrite <- E in B. simpl in B. lia.
  - split; [exact A|]. split; [exact W|]. split; assumption.
Qed.

Lemma match_here_complete (name ws v post : string) :
  name <> EmptyString -> all_name name = true -> Spaces ws ->
  v <> EmptyString -> goodValue v ->
  match_here value (name ++ ws ++ ":" ++ v ++ ";" ++ post) = true.
Proof using value_complete.
  intros Nn A W Nv G.
  destruct name as [|c name]; [congruence|].
  pose proof A as A'. simpl in A'. apply andb_true_iff in A'.
  destruct A' as [A1 _].
  change (match_here value
            (String c name ++ ws ++ ":" ++ v ++ ";" ++ post))
    with (if is_name c
          then match skip_spaces
                       (skip_name
                          (String c name ++ ws ++ ":" ++ v ++ ";" ++ post))
               with
               | String d rest => Ascii.eqb d ":" && value rest
               | EmptyString => false
               end
          else false).
  rewrite A1, skip_name_app.
  - rewrite skip_spaces_app by exact W.
    simpl. now apply value_complete.
  - exact A.
  - now apply spaces_no_name.
Qed.

Lemma test_here (s : string) :
  match_here value s = true -> test value s = true.
Proof using Type.
  intros H. destruct s as [|c s]; [discriminate|].
  change (test value (String c s))
    with (match_here value (String c s) || test value s).
  now rewrite H.
Qed.

Lemma test_tail (c : ascii) (s : string) :
  test value s = true -> test value (String c s) = true.
Proof using Type.
  intros H.
  change (test value (String c s))
    with (match_here value (String c s) || test value s).
  rewrite H. apply orb_true_r.
Qed.

Lemma test_declares (s : string) :
  test value s = true <-> declares goodValue s.
Proof using value_sound value_complete.
  split.
  - induction s as [|c s IH].
    + simpl. discriminate.
    + change (test value (String c s))
        with (match_here value (String c s) || test value s).
      intros H. apply orb_true_iff in H. destruct H as [H|H].
      * now apply match_here_sound.
      * destruct (IH H) as [pre [name [ws [v [post [E R]]]]]].
        exists (String c pre), name, ws, v, post.
        split; [simpl; now rewrite E|exact R].
  - intros [pre [name [ws [v [post [-> [Nn [A [W [Nv G]]]]]]]]]].
    induction pre as [|c pre IH].
    + apply test_here.
      change (EmptyString ++ name ++ ws ++ ":" ++ v ++ ";" ++ post)%string
        with (name ++ ws ++ ":" ++ v ++ ";" ++ post)%string.
      now apply match_here_complete.
    + change (String c pre ++ name ++ ws ++ ":" ++ v ++ ";" ++ post)%string
        with (String c (pre ++ name ++ ws ++ ":" ++ v ++ ";" ++ post)).
      apply test_tail. exact IH.
Qed.

Lemma validateWith_spec (css : jsval) :
  validateWith value css = true
  <-> exists s, css = JStr s /\ balanced s /\ declares goodValue s.
Proof using value_sound value_complete.
  unfold validateWith. split.
  - destruct css as [| |b|n|s|items|o]; try discriminate.
    destruct (String.eqb s EmptyString); [discriminate|]. cbv zeta.
    destruct (braceLoop s 0) as [n|] eqn:B; [|discriminate].
    intros H. apply andb_true_iff in H. destruct H as [Z0 T].
    exists s. split; [reflexivity|]. split.
    + apply braceLoop_balanced. exists n. now split.
    + now apply test_declares.
  - intros [s [-> [B D]]].
    assert (N : String.eqb s EmptyString = false).
    { apply String.eqb_neq. intros ->.
      destruct D as [pre [name [ws [v [post [E _]]]]]].
      destruct pre; [|discriminate]. destruct name; [|discriminate].
      simpl in E. destruct ws; discriminate. }
    rewrite N. cbv zeta.
    apply braceLoop_balanced in B. destruct B as [n [B Z0]].
    rewrite B, Z0. simpl. now apply test_declares.
Qed.

End Test.

(** X27. [validateCss] of the conversion service accepts exactly the
    texts whose braces are balanced (no closing brace before its
    opening one, none left open) and which hold, somewhere, a name of
    letters and hyphens, optional white space, a colon, a value of at
    least one character without a semicolon, and a semicolon.  A
    value that is no text is rejected. *)
Theorem convert_validateCss_accepts (css : jsval) :
  ConvertCss.validateCss css = true
  <-> exists s, css = JStr s /\ balanced s /\ declares noSemicolon s.
Proof.
  apply validateWith_spec.
  - exact value_convert_sound.
  - exact value_convert_complete.
Qed.

(** X28. [validateCss] of the validation service accepts exactly the
    texts whose braces are balanced and which hold a name of letters
    and hyphens, optional white space, a colon, a value of at least
    one character on one line (it may hold semicolons), and a
    semicolon. *)
Theorem validator_validateCss_accepts (css : jsval) :
  ValidatorCss.validateCss css = true
  <-> exists s, css = JStr s /\ balanced s /\ declares oneLine s.
Proof.
  apply validateWith_spec.
  - intros s H. destruct (dots_semicolon_sound _ _ H) as [v [post [E [N O]]]].
    exists v, post. split; [exact E|]. split; [now apply N|exact O].
  - intros v post N O. apply dots_semicolon_complete; [exact O|now right].
Qed.

Lemma append_assoc (a b c : string) :
  ((a ++ b) ++ c)%string = (a ++ b ++ c)%string.
Proof. induction a as [|x a IH]; simpl; [reflexivity|now rewrite IH]. Qed.

Lemma oneLine_value (pre name ws v post : string) :
  oneLine (pre ++ name ++ ws ++ ":" ++ v ++ ";" ++ post) -> oneLine v.
Proof.
  intros O p q E. subst v.
  rewrite <- (terminator_at_app q post).
  apply (O (pre ++ name ++ ws ++ ":" ++ p)%string).
  rewrite !append_assoc. reflexivity.
Qed.

(** X29. On a text without line terminator, whatever [validateCss] of
    the conversion service accepts, [validateCss] of the validation
    service accepts too. *)
Theorem validateCss_one_line (s : string) :
  oneLine s ->
  ConvertCss.validateCss (JStr s) = true ->
  ValidatorCss.validateCss (JStr s) = true.
Proof.
  intros O H.
  apply (@validateWith_spec value_convert noSemicolon value_convert_sound
           value_convert_complete (JStr s)) in H.
  destruct H as [s' [E [B D]]]. injection E as <-.
  apply (@validateWith_spec value_validator oneLine).
  - intros t Ht.
    destruct (dots_semicolon_sound _ _ Ht) as [v [post [Ev [N Ov]]]].
    exists v, post. split; [exact Ev|]. split; [now apply N|exact Ov].
  - intros v post N Ov. apply dots_semicolon_complete; [exact Ov|now right].
  - exists s. split; [reflexivity|]. split; [exact B|].
    destruct D as [pre [name [ws [v [post [E R]]]]]].
    exists pre, name, ws, v, post. split; [exact E|].
    destruct R as [R1 [R2 [R3 [R4 _]]]]. repeat split; try assumption.
    rewrite E in O. exact (@oneLine_value pre name ws v post O).
Qed.

Lemma oneLine_check (s : string) : one_line s = true -> oneLine s.
Proof.
  intros H p. revert s H. induction p as [|c p IH]; intros s H q E.
  - simpl in E. subst q.
    assert (T : negb (terminator_at s) = true).
    { destruct s; [reflexivity|].
      change (one_line (String a s))
        with (negb (terminator_at (String a s)) && one_line s) in H.
      now apply andb_true_iff in H. }
    now apply negb_true_iff in T.
  - destruct s as [|c' s]; [discriminate|]. simpl in E. injection E as _ E.
    change (one_line (String c' s))
      with (negb (terminator_at (String c' s)) && one_line s) in H.
    apply andb_true_iff in H. destruct H as [_ H]. exact (IH s H q E).
Qed.

Lemma validateCss_one_line_witness :
  ConvertCss.validateCss (JStr ".a { float: left; }") = true
  /\ ValidatorCss.validateCss (JStr ".a { float: left; }") = true.
Proof.
  assert (H : ConvertCss.validateCss (JStr ".a { float: left; }") = true)
    by reflexivity.
  split; [exact H|].
  apply (@validateCss_one_line ".a { float: left; }"); [|exact H].
  apply oneLine_check. reflexivity.
Defined.

End CssFacts.
